(** * Alpha-SQL, model-guided solver and self-consistency selector

    A shallow embedding of

    - [alphasql/algorithm/llm_selector/llm_action_selector.py]
      (class [LLMActionSelector]),
    - [alphasql/algorithm/llm_solver/llm_guided_solver.py]
      (class [LLMGuidedSolver]),
    - [alphasql/runner/llm_guided_runner.py] (class [LLMGuidedRunner]),
    - [alphasql/runner/sql_selection.py] ([select_final_sql_query],
      [main]),

    and the properties of their control structure.

    Conventions.  Python [int] is [Z]; [str] is [string], the bytes of
    its UTF-8 encoding; [Optional[str]] is [option string]; a [float] is
    an exact rational [Qc] (the code divides two lengths, negates and
    compares: the order and the ties of the quotients are those of the
    floats, exact sums are not); an untyped [Dict[str, Any]] is a finite
    map to {!Py.value}.  Code that can raise returns an {!outcome}; code
    that talks to the outside (the remote model, the file system, standard
    output) threads a {!state}.  Functions of the repository that are
    imported but are not among the translated sources are fields of the
    class {!Externals}. *)

From Stdlib Require Import ZArith QArith Qcanon String Ascii List.
From Stdlib Require Import DecimalString DecimalZ Permutation Sorted.
From stdpp Require Import base option list gmap strings numbers.

Set Default Proof Using "Type".
Set Warnings "-register-all".
Local Open Scope Z_scope.

(** ** Python values and exceptions *)

Module Py.

(** The exceptions raised by the translated code itself, and [OtherError]
    for whatever an external call raises.  All of them are subclasses of
    [Exception], which is what the [except Exception] clauses catch. *)
Inductive exn :=
| IndexError | KeyError | TypeError | ValueError | AttributeError
| ZeroDivisionError | StopIteration | JSONDecodeError
| OtherError (msg : string).

(** What [json.loads] can return, and what sits in a [Dict[str, Any]].
    [PNonFinite] stands for the floats [NaN], [Infinity] and [-Infinity],
    which [json.loads] accepts. *)
Inductive value :=
| PNone
| PBool (b : bool)
| PInt (z : Z)
| PFloat (q : Qc)
| PNonFinite
| PStr (s : string)
| PList (l : list value)
| PDict (d : list (string * value)).

(** Truth value testing, as in [if not model]. *)
Definition truthy (v : value) : bool :=
  match v with
  | PNone => false
  | PBool b => b
  | PInt z => negb (z =? 0)
  | PFloat q => negb (bool_decide (q = 0%Qc))
  | PNonFinite => true
  | PStr s => negb (String.eqb s EmptyString)
  | PList l => match l with [] => false | _ => true end
  | PDict d => match d with [] => false | _ => true end
  end.

(** [d.get(key, default)] on a key-value list. *)
Fixpoint assoc_get (key : string) (d : list (string * value)) (dflt : value)
  : value :=
  match d with
  | [] => dflt
  | (k, v) :: d' => if String.eqb k key then v else assoc_get key d' dflt
  end.

(** [result.get(key, default)]: only a dict has the method. *)
Definition get (result : value) (key : string) (dflt : value)
  : exn + value :=
  match result with
  | PDict d => inr (assoc_get key d dflt)
  | _ => inl AttributeError
  end.

(** [v - 1].  [bool] is a subclass of [int]. *)
Definition sub1 (v : value) : exn + value :=
  match v with
  | PInt z => inr (PInt (z - 1))
  | PBool b => inr (PInt ((if b then 1 else 0) - 1))
  | PFloat q => inr (PFloat (q - 1)%Qc)
  | PNonFinite => inr PNonFinite
  | _ => inl TypeError
  end.

(** [0 <= v < n] for a number [v] (the result of {!sub1}) and a length
    [n].  A non-finite float fails one of the two comparisons. *)
Definition in_range (v : value) (n : Z) : bool :=
  match v with
  | PInt z => (0 <=? z) && (z <? n)
  | PFloat q => bool_decide (0 <= q)%Qc && bool_decide (q < Q2Qc (inject_Z n))%Qc
  | _ => false
  end.

(** [l[i]] for a list [l]: negative indices count from the end. *)
Definition index {A} (l : list A) (i : Z) : exn + A :=
  let n := Z.of_nat (length l) in
  let j := if i <? 0 then i + n else i in
  if (0 <=? j) && (j <? n) then
    match l !! Z.to_nat j with
    | Some x => inr x
    | None => inl IndexError
    end
  else inl IndexError.

(** [l[v]] for a Python value [v]: a float is not an index. *)
Definition index_value {A} (l : list A) (v : value) : exn + A :=
  match v with
  | PInt z => index l z
  | PBool b => index l (if b then 1 else 0)
  | _ => inl TypeError
  end.

(** [str(z)] and [f"{z}"] for an [int]: decimal digits, a minus sign for
    a negative number. *)
Definition str (z : Z) : string :=
  NilZero.string_of_int (Z.to_int z).

(** [f"{x}"] for an optional string. *)
Definition fmt (o : option string) : string :=
  match o with
  | Some s => s
  | None => "None"
  end.

(** A byte that continues a character in the UTF-8 encoding. *)
Definition is_continuation (c : ascii) : bool :=
  (128 <=? nat_of_ascii c)%nat && (nat_of_ascii c <? 192)%nat.

(** [s[:n]] for a string: its first [n] characters.  A character is a
    leading byte and the continuation bytes that follow it. *)
Fixpoint take_chars (n : nat) (s : string) : string :=
  match s with
  | EmptyString => EmptyString
  | String c s' =>
      if is_continuation c then String c (take_chars n s')
      else
        match n with
        | O => EmptyString
        | S n' => String c (take_chars n' s')
        end
  end.

(** [sep.join(parts)]. *)
Fixpoint join (sep : string) (parts : list string) : string :=
  match parts with
  | [] => EmptyString
  | [p] => p
  | p :: ps => p +:+ sep +:+ join sep ps
  end.

End Py.

(** ** Outcomes and the state monad

    [OutOfFuel] is not a Python outcome: it is what a loop of the model
    returns if its recursion bound is used up before its condition turns
    false.  No [except] clause catches it, and the theorems show that it
    does not occur. *)

Inductive outcome (A : Type) :=
| Ret (a : A)
| Raise (e : Py.exn)
| OutOfFuel.
Arguments Ret {A} a.
Arguments Raise {A} e.
Arguments OutOfFuel {A}.

Definition M (S A : Type) : Type := S → outcome A * S.

Definition ret {S A} (a : A) : M S A := λ s, (Ret a, s).
Definition raise {S A} (e : Py.exn) : M S A := λ s, (Raise e, s).
Definition out_of_fuel {S A} : M S A := λ s, (OutOfFuel, s).

Definition bind {S A B} (m : M S A) (k : A → M S B) : M S B :=
  λ s, match m s with
       | (Ret a, s') => k a s'
       | (Raise e, s') => (Raise e, s')
       | (OutOfFuel, s') => (OutOfFuel, s')
       end.

(** [try: body  except Exception as e: handler(e)]. *)
Definition try_except {S A} (body : M S A) (handler : Py.exn → M S A)
  : M S A :=
  λ s, match body s with
       | (Raise e, s') => handler e s'
       | r => r
       end.

(** A pure computation that can raise. *)
Definition lift {S A} (r : Py.exn + A) : M S A :=
  match r with
  | inr a => ret a
  | inl e => raise e
  end.

Declare Scope py_scope.
Delimit Scope py_scope with py.
Notation "'let*' x ':=' m 'in' k" := (bind m (λ x, k))
  (at level 10, x name, m at level 100, k at level 200) : py_scope.
Notation "m ;; k" := (bind m (λ _, k))
  (at level 100, right associativity) : py_scope.

(** ** The action catalogue and reasoning nodes

    [mcts_action.py] and [mcts_node.py] are not among the translated
    sources.  The action classes are named in
    [LLMActionSelector.get_action_description]; their instances carry no
    data, so an action is its class. *)

Inductive MCTSAction :=
| RaphraseQuestionAction
| SchemaSelectionAction
| IdentifyColumnValuesAction
| IdentifyColumnFunctionsAction
| SQLGenerationAction
| SQLRevisionAction
| EndAction.

#[global] Instance MCTSAction_eq_dec : EqDecision MCTSAction.
Proof. solve_decision. Defined.

(** [action.__class__.__name__]. *)
Definition class_name (a : MCTSAction) : string :=
  match a with
  | RaphraseQuestionAction => "RaphraseQuestionAction"
  | SchemaSelectionAction => "SchemaSelectionAction"
  | IdentifyColumnValuesAction => "IdentifyColumnValuesAction"
  | IdentifyColumnFunctionsAction => "IdentifyColumnFunctionsAction"
  | SQLGenerationAction => "SQLGenerationAction"
  | SQLRevisionAction => "SQLRevisionAction"
  | EndAction => "EndAction"
  end.


(** Modelled from the spec: the enumeration [MCTSNodeType] of
    [mcts_node.py], which is not among the translated sources.  The
    sources name [ROOT], [SQL_GENERATION] and [SQL_REVISION]; the spec
    says that a node type mirrors the action that produced the node, plus
    a distinguished root. *)
Inductive MCTSNodeType :=
| ROOT
| REPHRASE_QUESTION
| SCHEMA_SELECTION
| IDENTIFY_COLUMN_VALUES
| IDENTIFY_COLUMN_FUNCTIONS
| SQL_GENERATION
| SQL_REVISION
| END.

#[global] Instance MCTSNodeType_eq_dec : EqDecision MCTSNodeType.
Proof. solve_decision. Defined.

(** The attributes of a node that the translated code reads.  The
    attribute [children], which [generate_one_path] clears on the node it
    advances to, is read by none of the translated code and is left out;
    [parent_node] likewise. *)
Record MCTSNodeData := {
  node_type : MCTSNodeType;
  depth : Z;
  parent_action : option MCTSAction;
  db_id : string;
  db_root_dir : string;
  original_question : string;
  hint : option string;
  schema_context : string;
  table_schema_dict : list (string * Py.value);
  selected_schema_context : option string;
  rephrased_question : option string;
  selected_schema_dict : option (list (string * list string));
  identified_column_values : option string;
  identified_column_functions : option string;
  sql_query : option string;
  revised_sql_query : option string;
  final_sql_query : option string
}.

(** A node together with [path_nodes], the nodes from the root to the
    node itself.  In Python the last element of [path_nodes] is the node
    object; here it is a copy of its attributes. *)
Record MCTSNode := {
  data :> MCTSNodeData;
  path_nodes : list MCTSNodeData
}.

(** Modelled from the spec: [MCTSNode.is_terminal] of [mcts_node.py],
    which is not among the translated sources.  A path is terminal iff
    its last node's type is End. *)
Definition is_terminal (n : MCTSNodeData) : bool :=
  bool_decide (node_type n = END).

(** The outcome of running a query, [SQLExecutionResult] of
    [alphasql/database/sql_execution.py]; [result_type_value] is
    [result_type.value]. *)
Record SQLExecutionResult (row : Type) := {
  result_type_value : string;
  result : list row;
  error_message : option string
}.
Arguments result_type_value {row} _.
Arguments result {row} _.
Arguments error_message {row} _.

(** ** Standard output

    One constructor per [print] call of the translated code, with the
    values that the message interpolates. *)
Inductive event :=
(* llm_action_selector.py *)
| LogPrompt (prompt : string)
| LogReasoning (reasoning : Py.value)
| LogSelected (description : string)
| LogParseFailed
| LogSelectionError (e : Py.exn)
(* llm_guided_solver.py *)
| LogNoValidActions (depth : Z)
| LogNoChildren (action_class : string)
| LogPathCompleted (number : Z)
| LogFinalSQL (sql : option string)
| LogPathNotTerminal (number : Z)
| LogPathError (number : Z) (e : Py.exn)
| LogTraceback (e : Py.exn)
| LogSeparator
| LogTaskCompleted (question_id : Z)
| LogGenerated (count : Z)
| LogSaving (directory file_name : string)
(* llm_guided_runner.py *)
| LogTaskError (question_id : Z) (e : Py.exn)
| LogGivenUp (question_id : Z)
| LogDashes
| LogCostProfile
| LogUsingSubset (subset_file_path : string)
| LogFiltered (count : Z)
| LogIgnoreDone (done_task_ids : list Z)
| LogSavingConfig (directory : string)
| LogTasksToSolve (count : Z)
| LogUsingSolver.

(** ** Tasks and configuration *)

Record Task := {
  question_id : Z;
  task_db_id : string;
  question : string;
  evidence : option string;
  task_table_schema_dict : list (string * Py.value)
}.

(** [MCTSConfig]: the fields that the runner reads.  [subset_ids] is the
    list of the [question_id] entries of the JSON file at
    [subset_file_path]. *)
Record MCTSConfig := {
  tasks_file_path : string;
  subset_file_path : option string;
  config_db_root_dir : string;
  save_root_dir : string;
  max_rollout_steps : Z;
  max_depth : Z;
  mcts_model_kwargs : gmap string Py.value;
  reward_model_kwargs : gmap string Py.value;
  n_processes : Z;
  random_seed : Z
}.

(** What a file of the output directory holds. *)
Inductive file :=
| Pickle (paths : list (list MCTSNode))
| ConfigJson (config : MCTSConfig)
| OtherFile (content : string).

(** ** External collaborators *)

Class Externals := {
  (** the state of the outside world (the remote model, its sampling) *)
  W : Type;
  (** result rows, compared the way Python compares the tuples *)
  row : Type;
  row_eq_dec :: EqDecision row;
  row_countable :: Countable row;
  (** [call_openai(prompt, model, temperature, max_tokens, n)] *)
  call_openai :
    string → Py.value → Py.value → Py.value → Z → W →
    (Py.exn + list string) * W;
  (** [json.loads]; [None] is a [JSONDecodeError] *)
  json_loads : string → option Py.value;
  (** [cached_execute_sql_with_timeout(db_path, sql)]: cached, and a
      failure is a result, not an exception *)
  cached_execute_sql_with_timeout :
    string → option string → SQLExecutionResult row;
  (** [format_execution_result(result, row_limit, val_length_limit)] *)
  format_execution_result : SQLExecutionResult row → Z → Z → string;
  (** [is_valid_execution_result] *)
  is_valid_execution_result : SQLExecutionResult row → bool;
  (** [measure_sql_execution_time(db_path, sql, repeat)]: what one run
      of the selector measures.  Every group is measured once, and two
      groups never share a final SQL, since the oracle is cached: a
      function of the query loses nothing. *)
  measure_sql_execution_time : string → option string → Z → Qc;
  (** [get_valid_action_space_for_node] *)
  get_valid_action_space_for_node : MCTSNode → list MCTSAction;
  (** [action.create_children_nodes(node, llm_kwargs)] *)
  create_children_nodes :
    MCTSAction → MCTSNode → gmap string Py.value → W →
    (Py.exn + list MCTSNode) * W;
  (** [build_table_ddl_statement(schema.to_dict(), ...)] with the four
      flags set *)
  build_table_ddl_statement : Py.value → string;
  (** [int(s)] for a string; [None] is a [ValueError] *)
  py_int : string → option Z;
  (** [pickle.load] of the file at a path; [None] is the Python [None] *)
  pickle_load : string → option (list (list MCTSNode))
}.

(** The one fact about [int] that the runner relies on. *)
Class IntOfStr `{Externals} :=
  py_int_str : ∀ z : Z, py_int (Py.str z) = Some z.

(** The state threaded through the solver and the runner. *)
Record state `{Externals} := {
  world : W;
  stdout : list event;
  files : gmap (string * string) file
}.

(** ** [LLMActionSelector]  (llm_action_selector.py) *)

Definition nl : string := String (ascii_of_nat 10) EmptyString.
Definition dq : string := String (ascii_of_nat 34) EmptyString.

Section Selector.
Context `{Externals}.
Local Open Scope py_scope.

(** The state after a line of output, and in another outside world. *)
Definition add_output (s : state) (e : event) : state :=
  {| world := world s; stdout := stdout s ++ [e]; files := files s |}.

Definition set_world (s : state) (w : W) : state :=
  {| world := w; stdout := stdout s; files := files s |}.

(** [print(...)]. *)
Definition print (e : event) : M state unit :=
  λ s, (Ret tt, add_output s e).

(** A call that changes the outside world. *)
Definition external {A} (f : W → (Py.exn + A) * W) : M state A :=
  λ s, let '(r, w) := f (world s) in
       match r with
       | inr a => (Ret a, set_world s w)
       | inl e => (Raise e, set_world s w)
       end.

Definition action_descriptions (action_class : MCTSAction) : string :=
  match action_class with
  | RaphraseQuestionAction =>
      "Rephrase Question: Reformulate the question to make it clearer and more specific"
  | SchemaSelectionAction =>
      "Schema Selection: Select relevant tables and columns from the database schema"
  | IdentifyColumnValuesAction =>
      "Identify Column Values: Identify specific column values mentioned in the question"
  | IdentifyColumnFunctionsAction =>
      "Identify Column Functions: Identify SQL functions (COUNT, SUM, AVG, etc.) needed for the query"
  | SQLGenerationAction =>
      "SQL Generation: Generate the final SQL query based on previous analysis"
  | SQLRevisionAction =>
      "SQL Revision: Revise the previously generated SQL query based on execution results"
  | EndAction => "End: Finish the current reasoning path"
  end.

Definition get_action_description (action_class : MCTSAction) : string :=
  let result := action_descriptions action_class in
  if negb (String.eqb result EmptyString) then result
  else class_name action_class.

(** Truthiness of an optional string: neither [None] nor empty. *)
Definition nonempty (o : option string) : option string :=
  match o with
  | Some s => if String.eqb s EmptyString then None else Some s
  | None => None
  end.

(** [str(Path(db_root_dir) / db_id / f"{db_id}.sqlite")]. *)
Definition node_db_path (n : MCTSNodeData) : string :=
  db_root_dir n +:+ "/" +:+ db_id n +:+ "/" +:+ db_id n +:+ ".sqlite".

(** The compilation status lines that follow a generated or revised
    query. *)
Definition sql_status_parts (n : MCTSNodeData) (sql : option string)
  : list string :=
  match nonempty sql with
  | Some q =>
      let sql_execution_result :=
        cached_execute_sql_with_timeout (node_db_path n) (Some q) in
      if String.eqb (result_type_value sql_execution_result) "success" then
        [ "  ✓ SQL Compilation: PASSED";
          "  Execution Result Preview:" +:+ nl
            +:+ format_execution_result sql_execution_result 2 50 ]
      else
        [ "  ✗ SQL Compilation: FAILED";
          "  Error: " +:+ Py.fmt (error_message sql_execution_result) ]
  | None => []
  end.

(** The lines that one node of the path adds to the context. *)
Definition node_context_parts (path_node : MCTSNodeData) : list string :=
  match parent_action path_node with
  | None => []
  | Some RaphraseQuestionAction =>
      [ "- Rephrased Question: " +:+ Py.fmt (rephrased_question path_node) ]
  | Some SchemaSelectionAction =>
      match selected_schema_dict path_node with
      | Some (t :: ts) =>
          [ "- Selected Schema: "
              +:+ Py.str (Z.of_nat (length (t :: ts))) +:+ " tables" ]
      | _ => []
      end
  | Some IdentifyColumnValuesAction =>
      match nonempty (identified_column_values path_node) with
      | Some v =>
          [ "- Identified Column Values: " +:+ Py.take_chars 100 v +:+ "..." ]
      | None => []
      end
  | Some IdentifyColumnFunctionsAction =>
      match nonempty (identified_column_functions path_node) with
      | Some v => [ "- Identified Functions: " +:+ Py.take_chars 100 v +:+ "..." ]
      | None => []
      end
  | Some SQLGenerationAction =>
      ("- Generated SQL: " +:+ Py.fmt (sql_query path_node))
        :: sql_status_parts path_node (sql_query path_node)
  | Some SQLRevisionAction =>
      ("- Revised SQL: " +:+ Py.fmt (revised_sql_query path_node))
        :: sql_status_parts path_node (revised_sql_query path_node)
  | Some EndAction => []
  end.

Definition _build_context (node : MCTSNode) : string :=
  let executed_actions :=
    omap (λ pn : MCTSNodeData, class_name <$> parent_action pn)
         (tail (path_nodes node)) in
  Py.join nl
    ([ "Question: " +:+ original_question node ]
     ++ match nonempty (hint node) with
        | Some h => [ "Hint: " +:+ h ]
        | None => []
        end
     ++ flat_map node_context_parts (tail (path_nodes node))
     ++ match executed_actions with
        | [] => []
        | _ => [ nl +:+ "Executed Actions: " +:+ Py.join ", " executed_actions ]
        end
     ++ [ "Current Depth: " +:+ Py.str (depth node) ]).

(** [isinstance(pn.parent_action, cls)]. *)
Definition isinstance (o : option MCTSAction) (cls : MCTSAction) : bool :=
  bool_decide (o = Some cls).

(** [next(a for a in valid_actions if isinstance(a, cls))]. *)
Definition next_instance (cls : MCTSAction) (valid_actions : list MCTSAction)
  : Py.exn + MCTSAction :=
  match List.filter (λ a, isinstance (Some a) cls) valid_actions with
  | a :: _ => inr a
  | [] => inl Py.StopIteration
  end.

Definition _default_action_selection
    (node : MCTSNode) (valid_actions : list MCTSAction)
  : Py.exn + MCTSAction :=
  let action_classes := valid_actions in
  let has_sql_generation :=
    existsb (λ pn : MCTSNodeData,
               isinstance (parent_action pn) SQLGenerationAction)
            (path_nodes node) in
  let has_schema_selection :=
    existsb (λ pn : MCTSNodeData,
               isinstance (parent_action pn) SchemaSelectionAction)
            (path_nodes node) in
  if bool_decide (EndAction ∈ action_classes) && has_sql_generation then
    next_instance EndAction valid_actions
  else if bool_decide (SQLGenerationAction ∈ action_classes)
          && has_schema_selection then
    next_instance SQLGenerationAction valid_actions
  else if bool_decide (SchemaSelectionAction ∈ action_classes)
          && negb has_schema_selection then
    next_instance SchemaSelectionAction valid_actions
  else Py.index valid_actions 0.

(** [re.search(r"```json\n(.*?)```", response, flags=re.DOTALL)] and the
    group 1 of the match: the text between the first opening fence and
    the first closing fence after it. *)
Definition json_fence : string := "```json" +:+ nl.

Definition re_search_json_block (response : string) : option string :=
  match String.index 0 json_fence response with
  | None => None
  | Some i =>
      let start := (i + String.length json_fence)%nat in
      let rest := substring start (String.length response - start) response in
      match String.index 0 "```" rest with
      | None => None
      | Some j => Some (substring 0 j rest)
      end
  end.

(** The prompt of [select_action]. *)
Definition selection_prompt
    (schema_context context action_options_str : string) (n : nat) : string :=
  Py.join nl
    [ "You are an expert SQL query generator. Given the current state of SQL query generation process, select the most appropriate next action.";
      EmptyString;
      "Database Schema:";
      schema_context;
      EmptyString;
      "Current State:";
      context;
      EmptyString;
      "Available Actions:";
      action_options_str;
      EmptyString;
      "Please analyze the current state and choose the best next action. Consider:";
      "1. Have we done enough preparation to generate SQL? If done, feel free to generate SQL directly, If not, choose actions that help gather more information.";
      "2. What information is still missing?";
      "3. What is the logical next step in the SQL generation process?";
      "4. If SQL has been generated, check its compilation status to decide next steps.";
      EmptyString;
      "Respond in the following JSON format:";
      "```json";
      "{";
      "    " +:+ dq +:+ "reasoning" +:+ dq +:+ ": " +:+ dq
        +:+ "Your reasoning for choosing this action" +:+ dq +:+ ",";
      "    " +:+ dq +:+ "selected_action_number" +:+ dq
        +:+ ": <number between 1 and " +:+ Py.str (Z.of_nat n) +:+ ">";
      "}";
      "```";
      EmptyString ].

(** [d.get(key, default)] on a [Dict[str, Any]]. *)
Definition kwargs_get (d : gmap string Py.value) (key : string)
    (dflt : Py.value) : Py.value :=
  default dflt (d !! key).

(** The first part of [select_action]: the prompt for a node and its
    legal actions. *)
Definition build_prompt (node : MCTSNode) (valid_actions : list MCTSAction)
  : string :=
  let context := _build_context node in
  let action_options :=
    imap (λ idx action,
            Py.str (Z.of_nat idx + 1) +:+ ". " +:+ get_action_description action)
         valid_actions in
  let action_options_str := Py.join nl action_options in
  let schema_context :=
    match nonempty (selected_schema_context node) with
    | Some s => s
    | None => schema_context node
    end in
  selection_prompt schema_context context action_options_str
                   (length valid_actions).

(** The call of the model in [select_action]. *)
Definition model_call
    (llm_kwargs : gmap string Py.value) (prompt : string) (w : W)
  : (Py.exn + list string) * W :=
  call_openai prompt
    (kwargs_get llm_kwargs "model" Py.PNone)
    (kwargs_get llm_kwargs "temperature" (Py.PFloat (Q2Qc (3 # 10))))
    (kwargs_get llm_kwargs "max_tokens" (Py.PInt 512))
    1 w.

Definition select_action
    (llm_kwargs : gmap string Py.value)
    (node : MCTSNode) (valid_actions : list MCTSAction)
  : M state MCTSAction :=
  let prompt := build_prompt node valid_actions in
  let use_default :=
    print LogParseFailed ;;
    lift (_default_action_selection node valid_actions) in
  try_except
    (let model := kwargs_get llm_kwargs "model" Py.PNone in
     if negb (Py.truthy model) then raise Py.ValueError
     else
       let* responses := external (model_call llm_kwargs prompt) in
       let* response := lift (Py.index responses 0) in
       print (LogPrompt prompt) ;;
       match re_search_json_block response with
       | Some block =>
           let* result :=
             lift (match json_loads block with
                   | Some v => inr v
                   | None => inl Py.JSONDecodeError
                   end) in
           let* number :=
             lift (Py.get result "selected_action_number" (Py.PInt 1)) in
           let* selected_idx := lift (Py.sub1 number) in
           let* reasoning :=
             lift (Py.get result "reasoning" (Py.PStr EmptyString)) in
           if Py.in_range selected_idx (Z.of_nat (length valid_actions)) then
             print (LogReasoning reasoning) ;;
             let* selected := lift (Py.index_value valid_actions selected_idx) in
             print (LogSelected (get_action_description selected)) ;;
             ret selected
           else use_default
       | None => use_default
       end)
    (λ e,
       print (LogSelectionError e) ;;
       lift (_default_action_selection node valid_actions)).

End Selector.

(** ** [LLMGuidedSolver]  (llm_guided_solver.py) *)

(** The attributes of a solver object, [self.x] in the source.  The
    attribute [reward_model] is stored and never read; it is left out. *)
Record LLMGuidedSolver := {
  self_llm_kwargs : gmap string Py.value;
  self_task : Task;
  self_db_root_dir : string;
  self_max_steps : Z;
  self_max_depth : Z;
  self_save_root_dir : string;
  self_num_paths : Py.value
}.

(** The local variables of the loop of [generate_one_path]. *)
Record loop_state := {
  current : MCTSNode;
  path : list MCTSNode;
  step : Z
}.

(** [range(n)] for a Python value [n]. *)
Definition py_range (n : Py.value) : Py.exn + list Z :=
  match n with
  | Py.PInt z => inr (Z.of_nat <$> seq 0 (Z.to_nat z))
  | Py.PBool b => inr (Z.of_nat <$> seq 0 (if b then 1 else 0))
  | _ => inl Py.TypeError
  end.

Section Solver.
Context `{Externals}.
Local Open Scope py_scope.

(** The condition of the [while] loop. *)
Definition loop_condition (self : LLMGuidedSolver) (st : loop_state) : bool :=
  negb (is_terminal (current st))
  && (step st <? self_max_steps self)
  && (depth (current st) <? self_max_depth self).

(** The [while] loop of [generate_one_path], from the local variables
    [st].  A [break] returns the variables as they are. *)
Fixpoint generation_loop
    (self : LLMGuidedSolver) (fuel : nat) (st : loop_state)
  : M state loop_state :=
  if loop_condition self st then
    match fuel with
    | O => out_of_fuel
    | S fuel' =>
        let valid_action_space :=
          get_valid_action_space_for_node (current st) in
        match valid_action_space with
        | [] =>
            print (LogNoValidActions (depth (current st))) ;;
            ret st
        | _ :: _ =>
            let* selected_action :=
              select_action (self_llm_kwargs self) (current st)
                            valid_action_space in
            let* children_nodes :=
              external (create_children_nodes selected_action (current st)
                                              (self_llm_kwargs self)) in
            match children_nodes with
            | [] =>
                print (LogNoChildren (class_name selected_action)) ;;
                ret st
            | child :: _ =>
                generation_loop self fuel'
                  {| current := child;
                     path := path st ++ [child];
                     step := step st + 1 |}
            end
        end
    end
  else ret st.

(** The loop with the number of iterations that the step bound leaves:
    every iteration increments [step], and the loop condition asks for
    [step < self.max_steps]. *)
Definition run_generation_loop (self : LLMGuidedSolver) (st : loop_state)
  : M state loop_state :=
  generation_loop self (Z.to_nat (self_max_steps self - step st)) st.

Definition generate_one_path (self : LLMGuidedSolver) (root_node : MCTSNode)
  : M state (list MCTSNode) :=
  let* st :=
    run_generation_loop self
      {| current := root_node; path := [root_node]; step := 0 |} in
  if negb (is_terminal (current st)) then
    if bool_decide (node_type (current st) ∈ [SQL_GENERATION; SQL_REVISION])
    then
      let* end_nodes :=
        external (create_children_nodes EndAction (current st)
                                        (self_llm_kwargs self)) in
      match end_nodes with
      | end_node :: _ => ret (path st ++ [end_node])
      | [] => ret (path st)
      end
    else ret (path st)
  else ret (path st).

(** Modelled from the spec: [EndAction.create_children_nodes] of
    [mcts_action.py], which is not among the translated sources.  The
    spec says that a path is terminal iff its last node's type is End,
    and that End carries the last emitted SQL string forward: every node
    that applying End to a node produces has type End and the final SQL
    of that node. *)
Definition end_action_carries_sql : Prop :=
  ∀ (node : MCTSNode) (llm_kwargs : gmap string Py.value)
    (w w' : W) (children : list MCTSNode) (child : MCTSNode),
    create_children_nodes EndAction node llm_kwargs w = (inr children, w') →
    child ∈ children →
    node_type child = END ∧ final_sql_query child = final_sql_query node.

(** The root node that [solve] creates.  The attributes that the
    constructor is not given are [None]. *)
Definition make_root_node (self : LLMGuidedSolver) : MCTSNode :=
  let task := self_task self in
  let schema_context :=
    Py.join nl ((λ entry : string * Py.value, build_table_ddl_statement entry.2)
                  <$> task_table_schema_dict task) in
  let root :=
    {| node_type := ROOT;
       depth := 0;
       parent_action := None;
       db_id := task_db_id task;
       db_root_dir := self_db_root_dir self;
       original_question := question task;
       hint := evidence task;
       schema_context := schema_context;
       table_schema_dict := task_table_schema_dict task;
       selected_schema_context := None;
       rephrased_question := None;
       selected_schema_dict := None;
       identified_column_values := None;
       identified_column_functions := None;
       sql_query := None;
       revised_sql_query := None;
       final_sql_query := None |} in
  {| data := root; path_nodes := [root] |}.

(** The body of the [for path_idx in range(self.num_paths)] loop: one
    generation attempt, from the paths collected so far. *)
Definition solve_attempt
    (self : LLMGuidedSolver) (root_node : MCTSNode)
    (all_reasoning_paths : list (list MCTSNode)) (path_idx : Z)
  : M state (list (list MCTSNode)) :=
  try_except
    (let* path := generate_one_path self root_node in
     let* last := lift (Py.index path (-1)) in
     if is_terminal last then
       print (LogPathCompleted (path_idx + 1)) ;;
       print (LogFinalSQL (final_sql_query last)) ;;
       ret (all_reasoning_paths ++ [path])
     else
       print (LogPathNotTerminal (path_idx + 1)) ;;
       ret all_reasoning_paths)
    (λ e,
       print (LogPathError (path_idx + 1) e) ;;
       print (LogTraceback e) ;;
       ret all_reasoning_paths).

Fixpoint solve_loop
    (self : LLMGuidedSolver) (root_node : MCTSNode)
    (path_indices : list Z) (all_reasoning_paths : list (list MCTSNode))
  : M state (list (list MCTSNode)) :=
  match path_indices with
  | [] => ret all_reasoning_paths
  | path_idx :: rest =>
      let* paths :=
        solve_attempt self root_node all_reasoning_paths path_idx in
      solve_loop self root_node rest paths
  end.

(** [with open(directory / name, "wb") as f: dump(content, f)]. *)
Definition write_file (directory name : string) (content : file)
  : M state unit :=
  λ s, (Ret tt,
        {| world := world s;
           stdout := stdout s;
           files := <[(directory, name) := content]> (files s) |}).

(** The file name [f"{question_id}.pkl"]. *)
Definition artifact_name (question_id : Z) : string :=
  Py.str question_id +:+ ".pkl".

Definition solve (self : LLMGuidedSolver) : M state unit :=
  let root_node := make_root_node self in
  let* path_indices := lift (py_range (self_num_paths self)) in
  let* all_reasoning_paths := solve_loop self root_node path_indices [] in
  let question_id := question_id (self_task self) in
  print LogSeparator ;;
  print (LogTaskCompleted question_id) ;;
  print (LogGenerated (Z.of_nat (length all_reasoning_paths))) ;;
  print (LogSaving (self_save_root_dir self) (artifact_name question_id)) ;;
  print LogSeparator ;;
  write_file (self_save_root_dir self) (artifact_name question_id)
             (Pickle all_reasoning_paths).

End Solver.

(** ** [LLMGuidedRunner]  (llm_guided_runner.py) *)

(** [name.endswith(suffix)]. *)
Definition ends_with (suffix name : string) : bool :=
  let n := String.length name in
  let m := String.length suffix in
  (m <=? n)%nat && String.eqb (substring (n - m) m name) suffix.

(** [pkl_file.stem] for a file name that matches [*.pkl]: the name
    without its last suffix; a name that is only a suffix has none. *)
Definition stem (name : string) : string :=
  if String.eqb name ".pkl" then name
  else substring 0 (String.length name - 4) name.

(** The names that [Path(directory).glob("*.pkl")] yields. *)
Definition glob_pkl (directory : string) (fs : gmap (string * string) file)
  : list string :=
  omap (λ entry : string * string * file,
          if bool_decide (entry.1.1 = directory) && ends_with ".pkl" entry.1.2
          then Some entry.1.2 else None)
       (map_to_list fs).

(** [ProcessPoolExecutor(max_workers=n)]: the constructor refuses a
    number of workers that is not positive.  (On Windows it also refuses
    a number above 61; the model is of the other platforms.) *)
Definition process_pool (max_workers : Z) : Py.exn + unit :=
  if max_workers <=? 0 then inl Py.ValueError else inr tt.

Section Runner.
Context `{Externals}.
Local Open Scope py_scope.

(** The solver calls of one task.  The reward model that the source
    builds here is never used by the solver. *)
Definition run_one_task (config : MCTSConfig) (task : Task) : M state unit :=
  let* n :=
    lift (match mcts_model_kwargs config !! "n" with
          | Some v => inr v
          | None => inl Py.KeyError
          end) in
  let llm_guided_solver :=
    {| self_llm_kwargs := mcts_model_kwargs config;
       self_task := task;
       self_db_root_dir := config_db_root_dir config;
       self_max_steps := max_rollout_steps config;
       self_max_depth := max_depth config;
       self_save_root_dir := save_root_dir config;
       self_num_paths := n |} in
  try_except
    (solve llm_guided_solver)
    (λ e,
       print LogDashes ;;
       print (LogTaskError (question_id task) e) ;;
       print (LogTraceback e) ;;
       print (LogGivenUp (question_id task)) ;;
       print LogDashes) ;;
  print LogCostProfile.

(** [for pkl_file in ...glob("*.pkl"): done_task_ids.append(int(stem))]. *)
Fixpoint collect_done_task_ids (names : list string) : Py.exn + list Z :=
  match names with
  | [] => inr []
  | name :: rest =>
      match py_int (stem name) with
      | None => inl Py.ValueError
      | Some id =>
          match collect_done_task_ids rest with
          | inr ids => inr (id :: ids)
          | inl e => inl e
          end
      end
  end.

(** The tasks that are left after the done ones are removed. *)
Definition pending_tasks (done_task_ids : list Z) (tasks : list Task)
  : list Task :=
  List.filter (λ task, negb (bool_decide (question_id task ∈ done_task_ids)))
              tasks.

(** [executor.map(self.run_one_task, tasks)]: each task is run once; the
    model runs them one after the other. *)
Fixpoint map_run_one_task (config : MCTSConfig) (tasks : list Task)
  : M state unit :=
  match tasks with
  | [] => ret tt
  | task :: rest => run_one_task config task ;; map_run_one_task config rest
  end.

(** The last block of [run_all_tasks]:
    [with ProcessPoolExecutor(max_workers=self.config.n_processes) as
    executor: list(executor.map(self.run_one_task, tasks))].  The pool
    is built first; when its constructor raises no task is run. *)
Definition run_tasks (config : MCTSConfig) (tasks : list Task)
  : M state unit :=
  lift (process_pool (n_processes config)) ;;
  map_run_one_task config tasks.

(** [run_all_tasks], with [tasks] the unpickled content of
    [tasks_file_path] and [subset_ids] the identifiers listed in the
    subset file. *)
Definition run_all_tasks
    (config : MCTSConfig) (tasks : list Task) (subset_ids : list Z)
  : M state unit :=
  let* tasks :=
    match nonempty (subset_file_path config) with
    | Some p =>
        print (LogUsingSubset p) ;;
        let tasks :=
          List.filter (λ task, bool_decide (question_id task ∈ subset_ids))
                      tasks in
        print (LogFiltered (Z.of_nat (length tasks))) ;;
        ret tasks
    | None => ret tasks
    end in
  let* done_task_ids :=
    (λ s, lift (collect_done_task_ids
                  (glob_pkl (save_root_dir config) (files s))) s) in
  print (LogIgnoreDone done_task_ids) ;;
  let tasks := pending_tasks done_task_ids tasks in
  print (LogSavingConfig (save_root_dir config)) ;;
  write_file (save_root_dir config) "config.json" (ConfigJson config) ;;
  print (LogTasksToSolve (Z.of_nat (length tasks))) ;;
  print LogUsingSolver ;;
  run_tasks config tasks.

End Runner.

(** ** [select_final_sql_query]  (sql_selection.py) *)

Definition EXECUTION_TIME_REPEAT : Z := 20.

(** The dictionary that the selector returns. *)
Record selected_item := {
  item_question_id : Z;
  item_db_id : string;
  item_sql : option string
}.

(** [s.split(sep)[-1]]: the text after the last separator. *)
Fixpoint split_last (sep : ascii) (s : string) (piece : string) : string :=
  match s with
  | EmptyString => piece
  | String c s' =>
      if Ascii.eqb c sep then split_last sep s' EmptyString
      else split_last sep s' (piece +:+ String c EmptyString)
  end.

(** [s.split(sep)[0]]: the text before the first separator. *)
Fixpoint split_first (sep : ascii) (s : string) : string :=
  match s with
  | EmptyString => EmptyString
  | String c s' =>
      if Ascii.eqb c sep then EmptyString else String c (split_first sep s')
  end.

(** Computations of the selector can raise but have no other effect. *)
Definition bind_exn {A B} (m : Py.exn + A) (k : A → Py.exn + B)
  : Py.exn + B :=
  match m with
  | inr a => k a
  | inl e => inl e
  end.

Declare Scope exn_scope.
Delimit Scope exn_scope with exn.
Notation "'let?' x ':=' m 'in' k" := (bind_exn m (λ x, k))
  (at level 10, x name, m at level 100, k at level 200) : exn_scope.

(** [l[i]] for an index [i] that [enumerate] produced. *)
Definition index_nat {A} (l : list A) (i : nat) : Py.exn + A :=
  match l !! i with
  | Some x => inr x
  | None => inl Py.IndexError
  end.

Section Selection.
Context `{Externals}.
Local Open Scope exn_scope.

(** A [defaultdict(list)] from [frozenset(answer.result)] to path
    indices, in insertion order. *)
Definition groups : Type := list (gset row * list nat).

(** [d[key].append(idx)]: a missing key is inserted last. *)
Fixpoint group_append (key : gset row) (idx : nat) (d : groups) : groups :=
  match d with
  | [] => [(key, [idx])]
  | (k, path_indices) :: d' =>
      if decide (k = key) then (k, path_indices ++ [idx]) :: d'
      else (k, path_indices) :: group_append key idx d'
  end.

(** [result[-1].final_sql_query]. *)
Definition final_sql_of (a_result : list MCTSNode) : Py.exn + option string :=
  let? last := Py.index a_result (-1) in
  inr (final_sql_query last).

(** The loop [for idx, result in enumerate(results)], from index [idx]
    on ([a_result] is the loop variable [result]); the pair is [(result_groups, result_groups_with_invalid_result)]. *)
Fixpoint group_results
    (db_path : string) (idx : nat) (results : list (list MCTSNode))
    (acc : groups * groups) : Py.exn + groups * groups :=
  match results with
  | [] => inr acc
  | a_result :: rest =>
      let? sql_query := final_sql_of a_result in
      let answer := cached_execute_sql_with_timeout db_path sql_query in
      let acc' :=
        if String.eqb (result_type_value answer) "success" then
          let key : gset row := list_to_set (result answer) in
          ((if is_valid_execution_result answer
            then group_append key idx acc.1 else acc.1),
           group_append key idx acc.2)
        else acc in
      group_results db_path (S idx) rest acc'
  end.

(** [sum([len(v) for v in d.values()])]. *)
Definition total_size (d : groups) : Z :=
  foldr Z.add 0 ((λ g : gset row * list nat, Z.of_nat (length g.2)) <$> d).

(** One entry [(path_indices[0], sc_score, execution_time)]. *)
Definition scored : Type := nat * Qc * Qc.

(** The body of [for answer, path_indices in d.items()]. *)
Definition score_group
    (db_path : string) (results : list (list MCTSNode)) (d : groups)
    (path_indices : list nat) : Py.exn + scored :=
  let total := total_size d in
  if total =? 0 then inl Py.ZeroDivisionError
  else
    let sc_score :=
      (Q2Qc (inject_Z (Z.of_nat (length path_indices)))
       / Q2Qc (inject_Z total))%Qc in
    let? first := index_nat path_indices 0 in
    let? a_result := index_nat results first in
    let? sql := final_sql_of a_result in
    let execution_time :=
      measure_sql_execution_time db_path sql EXECUTION_TIME_REPEAT in
    inr (first, sc_score, execution_time).

Fixpoint score_groups
    (db_path : string) (results : list (list MCTSNode)) (d : groups)
    (items : groups) : Py.exn + list scored :=
  match items with
  | [] => inr []
  | (_, path_indices) :: rest =>
      let? entry := score_group db_path results d path_indices in
      let? entries := score_groups db_path results d rest in
      inr (entry :: entries)
  end.

(** [key=lambda x: (x[1], -x[2])]. *)
Definition sort_key (x : scored) : Qc * Qc := (x.1.2, (- x.2)%Qc).

(** [a < b] on two-element tuples. *)
Definition tuple_lt (a b : Qc * Qc) : bool :=
  if bool_decide (a.1 = b.1) then bool_decide (a.2 < b.2)%Qc
  else bool_decide (a.1 < b.1)%Qc.

(** [l.sort(key=sort_key, reverse=True)]: descending, and entries with
    equal keys keep their order. *)
Fixpoint insert_reverse (x : scored) (l : list scored) : list scored :=
  match l with
  | [] => [x]
  | y :: l' =>
      if tuple_lt (sort_key x) (sort_key y) then y :: insert_reverse x l'
      else x :: y :: l'
  end.

Definition sort_reverse (l : list scored) : list scored :=
  foldr insert_reverse [] l.

(** The scoring and ranking block, which the source has twice: once for
    [result_groups_with_invalid_result] and once for [result_groups]. *)
Definition select_from_groups
    (db_path : string) (results : list (list MCTSNode)) (d : groups)
  : Py.exn + option string :=
  let? path_idx_with_sc_score := score_groups db_path results d d in
  let path_idx_with_sc_score := sort_reverse path_idx_with_sc_score in
  let? top := index_nat path_idx_with_sc_score 0 in
  let path_idx := top.1.1 in
  let? a_result := index_nat results path_idx in
  final_sql_of a_result.

(** [int(results_file_path.split("/")[-1].split(".")[0])]. *)
Definition question_id_of (results_file_path : string) : Py.exn + Z :=
  match py_int (split_first "." (split_last "/" results_file_path EmptyString))
  with
  | Some z => inr z
  | None => inl Py.ValueError
  end.

(** [f"{db_root_dir}/{db_id}/{db_id}.sqlite"]. *)
Definition sqlite_path (db_root_dir db_id : string) : string :=
  db_root_dir +:+ "/" +:+ db_id +:+ "/" +:+ db_id +:+ ".sqlite".

Definition select_final_sql_query (results_file_path db_root_dir : string)
  : Py.exn + selected_item :=
  let? question_id := question_id_of results_file_path in
  match pickle_load results_file_path with
  | None | Some [] =>
      inr {| item_question_id := question_id;
             item_db_id := "financial";
             item_sql := Some "ERROR" |}
  | Some results =>
      let? first_path := index_nat results 0 in
      let? first_node := index_nat first_path 0 in
      let db_id := db_id first_node in
      let db_path := sqlite_path db_root_dir db_id in
      let? both := group_results db_path 0 results ([], []) in
      let result_groups := both.1 in
      let result_groups_with_invalid_result := both.2 in
      match result_groups with
      | [] =>
          let? final_selected_sql_query :=
            match result_groups_with_invalid_result with
            | _ :: _ =>
                select_from_groups db_path results
                                   result_groups_with_invalid_result
            | [] => inr (Some "ERROR")
            end in
          inr {| item_question_id := question_id;
                 item_db_id := db_id;
                 item_sql := final_selected_sql_query |}
      | _ :: _ =>
          let? final_selected_sql_query :=
            select_from_groups db_path results result_groups in
          inr {| item_question_id := question_id;
                 item_db_id := db_id;
                 item_sql := final_selected_sql_query |}
      end
  end.

End Selection.

(** ** [main]  (sql_selection.py) *)

(** The text between a query and its database name in an output line. *)
Definition bird_separator : string :=
  String "009" ("----- bird -----" +:+ String "009" EmptyString).

(** The line of a question without a selection. *)
Definition default_line : string := "ERROR" +:+ bird_separator +:+ "financial".

(** The dict [final_pred_sqls], from [str(question_id)] to the output
    line, in insertion order. *)
Definition pred_sqls : Type := list (string * string).

(** [d[key] = value]: a key that is present keeps its place. *)
Fixpoint dict_set (key value : string) (d : pred_sqls) : pred_sqls :=
  match d with
  | [] => [(key, value)]
  | (k, v) :: d' =>
      if String.eqb k key then (k, value) :: d'
      else (k, v) :: dict_set key value d'
  end.

(** [key in d]. *)
Definition dict_has (key : string) (d : pred_sqls) : bool :=
  existsb (λ kv : string * string, String.eqb kv.1 key) d.

(** A list comprehension whose element expression can raise. *)
Fixpoint map_exn {A B} (f : A → Py.exn + B) (l : list A)
  : Py.exn + list B :=
  match l with
  | [] => inr []
  | x :: l' =>
      match f x with
      | inl e => inl e
      | inr y =>
          match map_exn f l' with
          | inl e => inl e
          | inr ys => inr (y :: ys)
          end
      end
  end.

(** [sorted(items, key=...)] on items paired with their keys: ascending,
    and items with equal keys keep their order. *)
Fixpoint insert_sorted {A} (x : Z * A) (l : list (Z * A)) : list (Z * A) :=
  match l with
  | [] => [x]
  | y :: l' => if y.1 <? x.1 then y :: insert_sorted x l' else x :: y :: l'
  end.

Definition sorted_by_key {A} (l : list (Z * A)) : list (Z * A) :=
  foldr insert_sorted [] l.

Section Main.
Context `{Externals}.
Local Open Scope exn_scope.

(** [int(s)] for a string. *)
Definition py_int_exn (s : string) : Py.exn + Z :=
  match py_int s with
  | Some z => inr z
  | None => inl Py.ValueError
  end.

(** [selected_item["sql"] + '\t----- bird -----\t' + selected_item["db_id"]]:
    [None + str] raises. *)
Definition pred_line (selected : selected_item) : Py.exn + string :=
  match item_sql selected with
  | Some sql => inr (sql +:+ bird_separator +:+ item_db_id selected)
  | None => inl Py.TypeError
  end.

(** The loop [for future in as_completed(future_to_path)]: [completed]
    holds the result paths in the order in which their futures complete,
    and [future.result()] raises what the selection raised. *)
Fixpoint collect_pred_sqls
    (db_root_dir : string) (completed : list string)
    (final_pred_sqls : pred_sqls) : Py.exn + pred_sqls :=
  match completed with
  | [] => inr final_pred_sqls
  | path :: rest =>
      let? selected := select_final_sql_query path db_root_dir in
      let? line := pred_line selected in
      collect_pred_sqls db_root_dir rest
        (dict_set (Py.str (item_question_id selected)) line final_pred_sqls)
  end.

(** The loop [for qid in range(min_id, max_id + 1)]. *)
Definition fill_missing (min_id max_id : Z) (final_pred_sqls : pred_sqls)
  : pred_sqls :=
  foldl (λ d qid,
           if dict_has (Py.str qid) d then d
           else dict_set (Py.str qid) default_line d)
        final_pred_sqls (seqZ min_id (max_id + 1 - min_id)).

(** [main], for the result paths that [glob.glob] lists, in the order
    of completion of their selections.  The result is the dict
    [sorted_pred_sqls] that [json.dump] writes to the output path. *)
Definition main (completed : list string) (db_root_dir : string)
  : Py.exn + pred_sqls :=
  let? final_pred_sqls := collect_pred_sqls db_root_dir completed [] in
  let? final_pred_sqls :=
    match final_pred_sqls with
    | [] => inr final_pred_sqls
    | _ :: _ =>
        let? question_ids := map_exn py_int_exn final_pred_sqls.*1 in
        match question_ids with
        | [] => inl Py.ValueError
        | qid :: qids =>
            let min_id := foldr Z.min qid qids in
            let max_id := foldr Z.max qid qids in
            inr (fill_missing min_id max_id final_pred_sqls)
        end
    end in
  let? keyed :=
    map_exn (λ x : string * string,
               let? key := py_int_exn x.1 in inr (key, x))
            final_pred_sqls in
  inr (sorted_by_key keyed).*2.

End Main.

(** * The vocabulary of the properties *)

Section Vocabulary.
Context `{Externals}.



(** The integer that a decoded value stands for, in arithmetic and as
    an index: [bool] is a subclass of [int]; no other value is an
    integer. *)
Definition as_index (v : Py.value) : option Z :=
  match v with
  | Py.PInt z => Some z
  | Py.PBool b => Some (if b then 1 else 0)
  | _ => None
  end.

(** The model gives the usable choice [a], for the outside world [w] in
    which it is called: a model is configured, its first response holds
    a structured block that decodes to an object, and the selected
    number of the object (1 when the object has none) is an integer [k]
    between 1 and the number of legal actions; [a] is the [k]-th legal
    action. *)
Definition usable_choice
    (llm_kwargs : gmap string Py.value)
    (node : MCTSNode) (valid_actions : list MCTSAction) (w : W)
    (a : MCTSAction) : Prop :=
  ∃ (response : string) (others : list string) (w' : W)
    (block : string) (d : list (string * Py.value)) (k : Z),
    Py.truthy (kwargs_get llm_kwargs "model" Py.PNone) = true
    ∧ model_call llm_kwargs (build_prompt node valid_actions) w
      = (inr (response :: others), w')
    ∧ re_search_json_block response = Some block
    ∧ json_loads block = Some (Py.PDict d)
    ∧ as_index (Py.assoc_get "selected_action_number" d (Py.PInt 1)) = Some k
    ∧ 1 ≤ k ≤ Z.of_nat (length valid_actions)
    ∧ valid_actions !! Z.to_nat (k - 1) = Some a.

(** The situations in which the model gives no usable choice, for the
    outside world [w] in which the model is called: no model is
    configured; the call raises; the call returns no response; the
    response holds no structured block; the block is not JSON; the block
    is JSON but not an object; the selected number is not an integer;
    the selected number is an integer outside [1, number of legal
    actions]. *)
Inductive no_usable_choice
    (llm_kwargs : gmap string Py.value)
    (node : MCTSNode) (valid_actions : list MCTSAction) (w : W) : Prop :=
| model_not_configured :
    Py.truthy (kwargs_get llm_kwargs "model" Py.PNone) = false →
    no_usable_choice llm_kwargs node valid_actions w
| model_call_raises (e : Py.exn) (w' : W) :
    model_call llm_kwargs (build_prompt node valid_actions) w = (inl e, w') →
    no_usable_choice llm_kwargs node valid_actions w
| no_response (w' : W) :
    model_call llm_kwargs (build_prompt node valid_actions) w = (inr [], w') →
    no_usable_choice llm_kwargs node valid_actions w
| no_structured_block (response : string) (others : list string) (w' : W) :
    model_call llm_kwargs (build_prompt node valid_actions) w
    = (inr (response :: others), w') →
    re_search_json_block response = None →
    no_usable_choice llm_kwargs node valid_actions w
| block_not_json
    (response : string) (others : list string) (w' : W) (block : string) :
    model_call llm_kwargs (build_prompt node valid_actions) w
    = (inr (response :: others), w') →
    re_search_json_block response = Some block →
    json_loads block = None →
    no_usable_choice llm_kwargs node valid_actions w
| block_not_object
    (response : string) (others : list string) (w' : W)
    (block : string) (v : Py.value) :
    model_call llm_kwargs (build_prompt node valid_actions) w
    = (inr (response :: others), w') →
    re_search_json_block response = Some block →
    json_loads block = Some v →
    (∀ d, v ≠ Py.PDict d) →
    no_usable_choice llm_kwargs node valid_actions w
| index_not_integer
    (response : string) (others : list string) (w' : W)
    (block : string) (d : list (string * Py.value)) :
    model_call llm_kwargs (build_prompt node valid_actions) w
    = (inr (response :: others), w') →
    re_search_json_block response = Some block →
    json_loads block = Some (Py.PDict d) →
    as_index (Py.assoc_get "selected_action_number" d (Py.PInt 1)) = None →
    no_usable_choice llm_kwargs node valid_actions w
| index_out_of_range
    (response : string) (others : list string) (w' : W)
    (block : string) (d : list (string * Py.value)) (k : Z) :
    model_call llm_kwargs (build_prompt node valid_actions) w
    = (inr (response :: others), w') →
    re_search_json_block response = Some block →
    json_loads block = Some (Py.PDict d) →
    as_index (Py.assoc_get "selected_action_number" d (Py.PInt 1)) = Some k →
    ¬ (1 ≤ k ≤ Z.of_nat (length valid_actions)) →
    no_usable_choice llm_kwargs node valid_actions w.

(** A computation leaves the files alone and only adds to the output. *)
Definition quiet {A} (m : M state A) : Prop :=
  ∀ s r s', m s = (r, s') →
            files s' = files s ∧ stdout s `prefix_of` stdout s'.

(** A computation does not run out of recursion bound. *)
Definition productive {A} (m : M state A) : Prop :=
  ∀ s, (m s).1 ≠ OutOfFuel.

(** The final SQL of a path, and whether a path is terminal: those of
    its last node. *)
Definition path_final_sql (p : list MCTSNode) : option (option string) :=
  (λ n : MCTSNode, final_sql_query n) <$> list.last p.

Definition path_is_terminal (p : list MCTSNode) : bool :=
  match list.last p with
  | Some n => is_terminal n
  | None => false
  end.

(** The paths that an attempt hands to the collection: the path of an
    attempt that returned one whose last node is terminal. *)
Definition kept (r : outcome (list MCTSNode)) : option (list MCTSNode) :=
  match r with
  | Ret p => if path_is_terminal p then Some p else None
  | _ => None
  end.

(** The outcomes of the generation attempts of [solve], in order: each
    attempt starts in the state that the attempts before it have left. *)
Fixpoint attempt_outcomes
    (self : LLMGuidedSolver) (root_node : MCTSNode)
    (path_indices : list Z) (paths : list (list MCTSNode)) (s : state)
  : list (outcome (list MCTSNode)) :=
  match path_indices with
  | [] => []
  | path_idx :: rest =>
      (generate_one_path self root_node s).1
      :: match solve_attempt self root_node paths path_idx s with
         | (Ret paths', s') =>
             attempt_outcomes self root_node rest paths' s'
         | (_, s') => attempt_outcomes self root_node rest paths s'
         end
  end.

(** An attempt that is not kept is reported on standard output. *)
Definition reported (number : Z) (out : list event) : Prop :=
  LogPathNotTerminal number ∈ out ∨ ∃ e, LogPathError number e ∈ out.

(** The tasks that [run_all_tasks] starts from: those of the subset
    file, when the configuration names one. *)
Definition subset_tasks
    (config : MCTSConfig) (tasks : list Task) (subset_ids : list Z)
  : list Task :=
  match nonempty (subset_file_path config) with
  | Some _ =>
      List.filter (λ task, bool_decide (question_id task ∈ subset_ids)) tasks
  | None => tasks
  end.

(** An entry ranks before another: its score is higher, or the scores
    are equal and its latency is not higher. *)
Definition ranks_before (x y : scored) : Prop :=
  (y.1.2 < x.1.2)%Qc ∨ (x.1.2 = y.1.2 ∧ (x.2 ≤ y.2)%Qc).

(** An entry ranks strictly after another. *)
Definition ranks_after (x y : scored) : Prop :=
  (x.1.2 < y.1.2)%Qc ∨ (x.1.2 = y.1.2 ∧ (y.2 < x.2)%Qc).

(** The groups hold indices below [n]: the keys are distinct, and every
    group is a non-empty, increasing list of indices below [n]. *)
Definition groups_wf (n : nat) (d : groups) : Prop :=
  NoDup d.*1
  ∧ Forall (λ g : gset row * list nat,
              g.2 ≠ [] ∧ StronglySorted lt g.2 ∧ Forall (λ i, i < n)%nat g.2)
           d.

(** Index [i] is in the group of the row set [k]. *)
Definition in_group (d : groups) (k : gset row) (i : nat) : Prop :=
  ∃ l, (k, l) ∈ d ∧ i ∈ l.

(** The answer of the oracle for the final SQL of a path. *)
Definition answer_of (db_path : string) (p : list MCTSNode)
  : option (SQLExecutionResult row) :=
  (λ n : MCTSNode,
     cached_execute_sql_with_timeout db_path (final_sql_query n))
  <$> list.last p.

Definition succeeded (a : SQLExecutionResult row) : bool :=
  String.eqb (result_type_value a) "success".

(** The path [p] counts for the row set [k]: its query succeeded with
    the rows [k], and the result is valid if only valid ones count. *)
Definition counts_for
    (db_path : string) (valid_only : bool) (k : gset row)
    (p : list MCTSNode) : Prop :=
  ∃ a, answer_of db_path p = Some a
       ∧ succeeded a = true
       ∧ (valid_only = true → is_valid_execution_result a = true)
       ∧ list_to_set (result a) = k.

(** Index [i] is that of a path, among [results] numbered from [idx],
    that counts for [k]. *)
Definition member
    (db_path : string) (valid_only : bool) (k : gset row)
    (idx : nat) (results : list (list MCTSNode)) (i : nat) : Prop :=
  ∃ p, (idx ≤ i)%nat ∧ results !! (i - idx)%nat = Some p
       ∧ counts_for db_path valid_only k p.

(** The entry of the group [g] in the groups [d]: the representative is
    the first index of the group, which is its least; the score is the
    size of the group over the sum of the sizes of all groups of [d];
    the latency is the one measured for the final SQL of the
    representative. *)
Definition entry_for
    (db_path : string) (results : list (list MCTSNode)) (d : groups)
    (g : gset row * list nat) (e : scored) : Prop :=
  head g.2 = Some e.1.1
  ∧ (∀ i, i ∈ g.2 → (e.1.1 ≤ i)%nat)
  ∧ e.1.2 = (Q2Qc (inject_Z (Z.of_nat (length g.2)))
             / Q2Qc (inject_Z (total_size d)))%Qc
  ∧ ∃ (p : list MCTSNode) (n : MCTSNode),
      results !! e.1.1 = Some p ∧ list.last p = Some n
      ∧ e.2 = measure_sql_execution_time db_path (final_sql_query n)
                                         EXECUTION_TIME_REPEAT.

(** The scoring and ranking rule selects [sql] over the groups [d]:
    there is one entry per group; the ranking is a permutation of the
    entries in which every entry ranks before the ones after it (score
    descending, then latency ascending); its top is, among equally
    ranked entries, the one whose group was seen first; and [sql] is the
    final SQL of the path that the top entry represents. *)
Definition selects
    (db_path : string) (results : list (list MCTSNode)) (d : groups)
    (sql : option string) : Prop :=
  ∃ (entries : list scored) (top : scored) (rest before after : list scored),
    Forall2 (entry_for db_path results d) d entries
    ∧ Permutation (top :: rest) entries
    ∧ StronglySorted ranks_before (top :: rest)
    ∧ entries = before ++ top :: after
    ∧ Forall (λ y, ranks_after y top) before
    ∧ ∃ (p : list MCTSNode) (n : MCTSNode),
        results !! top.1.1 = Some p ∧ list.last p = Some n
        ∧ sql = final_sql_query n.

(** What the loop of the generator keeps true of its variables: the
    path starts at the root and ends at the current node, it has one
    node more than steps were made, and no node before the last one is
    terminal. *)
Definition loop_invariant (root_node : MCTSNode) (st : loop_state) : Prop :=
  head (path st) = Some root_node
  ∧ list.last (path st) = Some (current st)
  ∧ Z.of_nat (length (path st)) = step st + 1
  ∧ ∀ (i : nat) (n : MCTSNode),
      path st !! i = Some n → (S i < length (path st))%nat →
      is_terminal n = false.

(** The line of the last completed selection with a question id. *)
Definition latest (pairs : list (Z * string)) (q : Z) : option string :=
  snd <$> list.last (filter (λ p : Z * string, p.1 = q) pairs).

(** The output line of a question id: the default line when no
    selection has the id. *)
Definition line_for (pairs : list (Z * string)) (q : Z) : string :=
  default default_line (latest pairs q).

(** A dict whose keys are the decimal forms of integers. *)
Definition str_keyed (zd : list (Z * string)) : pred_sqls :=
  prod_map Py.str id <$> zd.

(** The selection of a result path succeeds, with the question id [p.1]
    and the output line [p.2]. *)
Definition selects_line
    (db_root_dir : string) (path : string) (p : Z * string) : Prop :=
  ∃ item, select_final_sql_query path db_root_dir = inr item
          ∧ item_question_id item = p.1
          ∧ pred_line item = inr p.2.

End Vocabulary.

(** * A small instance

    Stand-ins for the external collaborators, on which the definitions
    above can be run.  The outside world is the number of external calls
    made so far.  The model raises, answers without a structured block,
    answers with the index 9, or answers with the index 1, depending on
    the world; the stand-in for [json.loads] reads a bare integer [k] as
    the object with [selected_action_number = k]. *)

Module Toy.

Definition node
    (ty : MCTSNodeType) (d : Z) (a : option MCTSAction)
    (sql : option string) : MCTSNodeData :=
  {| node_type := ty;
     depth := d;
     parent_action := a;
     db_id := "california_schools";
     db_root_dir := "data";
     original_question := "How many schools are there?";
     hint := None;
     schema_context := EmptyString;
     table_schema_dict := [];
     selected_schema_context := None;
     rephrased_question := None;
     selected_schema_dict := None;
     identified_column_values := None;
     identified_column_functions := None;
     sql_query := sql;
     revised_sql_query := None;
     final_sql_query := sql |}.

Definition node_type_of (a : MCTSAction) : MCTSNodeType :=
  match a with
  | RaphraseQuestionAction => REPHRASE_QUESTION
  | SchemaSelectionAction => SCHEMA_SELECTION
  | IdentifyColumnValuesAction => IDENTIFY_COLUMN_VALUES
  | IdentifyColumnFunctionsAction => IDENTIFY_COLUMN_FUNCTIONS
  | SQLGenerationAction => SQL_GENERATION
  | SQLRevisionAction => SQL_REVISION
  | EndAction => END
  end.

(** The child that an action produces: a generation emits [SELECT 1],
    the other actions carry the final SQL forward. *)
Definition child (a : MCTSAction) (parent : MCTSNode) : MCTSNode :=
  let sql :=
    match a with
    | SQLGenerationAction => Some "SELECT 1"
    | _ => final_sql_query parent
    end in
  let d := node (node_type_of a) (depth parent + 1) (Some a) sql in
  {| data := d; path_nodes := path_nodes parent ++ [d] |}.

Definition reply (w : nat) : Py.exn + list string :=
  match w with
  | 1%nat => inr ["I would generate the SQL now."]
  | 2%nat => inr [json_fence +:+ "9" +:+ "```"]
  | 3%nat => inr [json_fence +:+ "1" +:+ "```"]
  | _ => inl (Py.OtherError "connection reset")
  end.

Definition parse_int (s : string) : option Z :=
  Z.of_int <$> NilZero.int_of_string s.

Definition loads (s : string) : option Py.value :=
  (λ k, Py.PDict [("selected_action_number", Py.PInt k);
                  ("reasoning", Py.PStr "it is the next step")])
  <$> parse_int s.

Definition legal (n : MCTSNode) : list MCTSAction :=
  match node_type n with
  | ROOT => [RaphraseQuestionAction; SchemaSelectionAction]
  | SCHEMA_SELECTION => [IdentifyColumnValuesAction; SQLGenerationAction]
  | SQL_GENERATION | SQL_REVISION => [SQLRevisionAction; EndAction]
  | END => []
  | _ => [SchemaSelectionAction]
  end.

(** A generation fails once seven external calls have been made. *)
Definition apply_action
    (a : MCTSAction) (n : MCTSNode) (kw : gmap string Py.value) (w : nat)
  : (Py.exn + list MCTSNode) * nat :=
  match a with
  | SQLGenerationAction =>
      if (7 <=? w)%nat then (inl (Py.OtherError "rate limit"), S w)
      else (inr [child a n], S w)
  | SQLRevisionAction => (inr [], S w)
  | _ => (inr [child a n], S w)
  end.

Definition execute (db_path : string) (sql : option string)
  : SQLExecutionResult Z :=
  let success rows :=
    {| result_type_value := "success"; result := rows;
       error_message := None |} in
  match sql with
  | Some "SELECT 1" => success [1]
  | Some "SELECT 1 + 0" => success [1]
  | Some "SELECT 2" => success [2]
  | Some "SELECT 3 WHERE 0" => success []
  | _ => {| result_type_value := "error"; result := [];
            error_message := Some "no such table" |}
  end.

Definition is_valid (a : SQLExecutionResult Z) : bool :=
  match result a with
  | [] => false
  | _ => true
  end.

Definition measure (db_path : string) (sql : option string) (repeat : Z)
  : Qc :=
  match sql with
  | Some "SELECT 1" => Q2Qc (3 # 1000)
  | Some "SELECT 1 + 0" => Q2Qc (2 # 1000)
  | _ => Q2Qc (1 # 1000)
  end.

(** A persisted path: the root and an End node with the final SQL. *)
Definition finished (sql : string) : list MCTSNode :=
  let root := node ROOT 0 None None in
  let last := node END 1 (Some EndAction) (Some sql) in
  [ {| data := root; path_nodes := [root] |};
    {| data := last; path_nodes := [root; last] |} ].

Definition load (path : string) : option (list (list MCTSNode)) :=
  if String.eqb path "results/7.pkl" then
    Some [finished "SELECT 2"; finished "SELECT 1"; finished "SELECT 1 + 0"]
  else if String.eqb path "results/8.pkl" then
    Some [finished "SELECT x"; finished "SELECT y"]
  else if String.eqb path "results/9.pkl" then
    Some [finished "SELECT x"; finished "SELECT 3 WHERE 0"]
  else if String.eqb path "results/10.pkl" then Some []
  else None.

#[export] Instance externals : Externals :=
  {| W := nat;
     row := Z;
     call_openai := λ _ _ _ _ _ w, (reply w, S w);
     json_loads := loads;
     cached_execute_sql_with_timeout := execute;
     format_execution_result := λ _ _ _, "(rows)";
     is_valid_execution_result := is_valid;
     measure_sql_execution_time := measure;
     get_valid_action_space_for_node := legal;
     create_children_nodes := apply_action;
     build_table_ddl_statement := λ _, "CREATE TABLE schools (id INTEGER)";
     py_int := parse_int;
     pickle_load := load |}.

Definition llm_kwargs : gmap string Py.value :=
  {[ "model" := Py.PStr "some-model"; "n" := Py.PInt 2 ]}.

Definition task : Task :=
  {| question_id := 7;
     task_db_id := "california_schools";
     question := "How many schools are there?";
     evidence := None;
     task_table_schema_dict := [("schools", Py.PDict [])] |}.

Definition solver (steps : Z) : LLMGuidedSolver :=
  {| self_llm_kwargs := llm_kwargs;
     self_task := task;
     self_db_root_dir := "data";
     self_max_steps := steps;
     self_max_depth := 16;
     self_save_root_dir := "results";
     self_num_paths := Py.PInt 2 |}.

Definition config : MCTSConfig :=
  {| tasks_file_path := "tasks.pkl";
     subset_file_path := None;
     config_db_root_dir := "data";
     save_root_dir := "results";
     max_rollout_steps := 5;
     max_depth := 16;
     mcts_model_kwargs := llm_kwargs;
     reward_model_kwargs := ∅;
     n_processes := 1;
     random_seed := 42 |}.

(** The start of a run: no external call made, no output, and the
    given files; and the same after [w] external calls. *)
Definition initial (fs : gmap (string * string) file) : state :=
  {| world := 0%nat; stdout := []; files := fs |}.

Definition after (w : nat) : state :=
  {| world := w; stdout := []; files := ∅ |}.

(** The root of the task, and the node after a schema selection and a
    generation. *)
Definition root : MCTSNode := make_root_node (solver 5).

Definition generated : MCTSNode :=
  child SQLGenerationAction (child SchemaSelectionAction root).

(** The value of an outcome that returned. *)
Definition value_of {A} (dflt : A) (r : outcome A) : A :=
  match r with
  | Ret a => a
  | _ => dflt
  end.

(** Where the loop of the generator stops within two steps. *)
Definition start : loop_state :=
  {| current := root; path := [root]; step := 0 |}.

Definition stopped : loop_state :=
  value_of start (run_generation_loop (solver 2) start (initial ∅)).1.

Definition stopped_state : state :=
  (run_generation_loop (solver 2) start (initial ∅)).2.

(** The persisted paths of the tasks 7, 8 and 9. *)
Definition results (question_id : Z) : list (list MCTSNode) :=
  default [] (load ("results/" +:+ Py.str question_id +:+ ".pkl")).

Definition db_path : string := sqlite_path "data" "california_schools".

(** The partitions of the paths of a task. *)
Definition partitions (question_id : Z) : groups * groups :=
  match group_results db_path 0 (results question_id) ([], []) with
  | inr g => g
  | inl _ => ([], [])
  end.

End Toy.

(** * Further cases of the small instance *)

Module Cases.
Import Toy.

(** A solver of the task with a given [num_paths]. *)
Definition solver_with (num_paths : Py.value) : LLMGuidedSolver :=
  {| self_llm_kwargs := llm_kwargs;
     self_task := task;
     self_db_root_dir := "data";
     self_max_steps := 5;
     self_max_depth := 16;
     self_save_root_dir := "results";
     self_num_paths := num_paths |}.

(** A configuration with a given subset file and given model
    parameters. *)
Definition config_with
    (subset : option string) (kwargs : gmap string Py.value) : MCTSConfig :=
  {| tasks_file_path := "tasks.pkl";
     subset_file_path := subset;
     config_db_root_dir := "data";
     save_root_dir := "results";
     max_rollout_steps := 5;
     max_depth := 16;
     mcts_model_kwargs := kwargs;
     reward_model_kwargs := ∅;
     n_processes := 1;
     random_seed := 42 |}.

(** The configuration with no worker process. *)
Definition config_without_workers : MCTSConfig :=
  {| tasks_file_path := "tasks.pkl";
     subset_file_path := None;
     config_db_root_dir := "data";
     save_root_dir := "results";
     max_rollout_steps := 5;
     max_depth := 16;
     mcts_model_kwargs := llm_kwargs;
     reward_model_kwargs := ∅;
     n_processes := 0;
     random_seed := 42 |}.

(** An output directory that holds a file of another program. *)
Definition foreign : gmap (string * string) file :=
  {[ ("results", "notes.pkl") := OtherFile "notes" ]}.

(** The persisted paths of task 11: the second path is empty. *)
Definition load_with_empty_path (path : string)
  : option (list (list MCTSNode)) :=
  if String.eqb path "results/11.pkl" then Some [finished "SELECT 1"; []]
  else load path.

(** The small instance with the paths of task 11. *)
Definition externals_with_empty_path : Externals :=
  {| W := nat;
     row := Z;
     call_openai := λ _ _ _ _ _ w, (reply w, S w);
     json_loads := loads;
     cached_execute_sql_with_timeout := execute;
     format_execution_result := λ _ _ _, "(rows)";
     is_valid_execution_result := is_valid;
     measure_sql_execution_time := measure;
     get_valid_action_space_for_node := legal;
     create_children_nodes := apply_action;
     build_table_ddl_statement := λ _, "CREATE TABLE schools (id INTEGER)";
     py_int := parse_int;
     pickle_load := load_with_empty_path |}.


(** A selection run over the tasks 7 and 9, and the lines of its two
    selections. *)
Definition completed : list string := ["results/7.pkl"; "results/9.pkl"].

Definition lines : list (Z * string) :=
  [ (7, "SELECT 1" +:+ bird_separator +:+ "california_schools");
    (9, "SELECT 3 WHERE 0" +:+ bird_separator +:+ "california_schools") ].

End Cases.

(** * Properties *)

(** ** The heuristic strategy *)


Lemma next_instance_elem (cls : MCTSAction) (valid_actions : list MCTSAction) :
  cls ∈ valid_actions → next_instance cls valid_actions = inr cls.
Proof.
  unfold next_instance, isinstance. induction valid_actions as [|a l IH].
  - intros Hin. by apply elem_of_nil in Hin.
  - intros Hin. simpl. case_bool_decide as Heq.
    + by inversion Heq.
    + apply IH. apply elem_of_cons in Hin as [->|Hin]; [done|exact Hin].
Qed.

Lemma index_0_head {A} (x : A) (l : list A) : Py.index (x :: l) 0 = inr x.
Proof.
  unfold Py.index. simpl.
  replace (0 <? Z.pos (Pos.of_succ_nat (length l))) with true; [done|].
  symmetry. apply Z.ltb_lt. lia.
Qed.



(** ** The model-driven strategy *)

Section SelectorProperties.
Context `{Externals}.

Lemma default_action_selection_total
    (node : MCTSNode) (valid_actions : list MCTSAction) :
  valid_actions ≠ [] →
  ∃ a, _default_action_selection node valid_actions = inr a
       ∧ a ∈ valid_actions.
Proof.
  intros Hne. unfold _default_action_selection.
  repeat case_match;
    repeat match goal with
      | H : _ && _ = true |- _ => apply andb_true_iff in H as [H _]
      | H : bool_decide _ = true |- _ => apply bool_decide_eq_true in H
      end.
  - eexists. split; [by apply next_instance_elem|done].
  - eexists. split; [by apply next_instance_elem|done].
  - eexists. split; [by apply next_instance_elem|done].
  - destruct valid_actions as [|a l]; [done|]. exists a.
    split; [apply index_0_head|apply elem_of_cons; by left].
Qed.

Lemma index_elem {A} (l : list A) (i : Z) (x : A) :
  Py.index l i = inr x → x ∈ l.
Proof.
  unfold Py.index. intros Hi. repeat case_match; simplify_eq;
    by eapply list_elem_of_lookup_2.
Qed.

Lemma index_value_elem {A} (l : list A) (v : Py.value) (x : A) :
  Py.index_value l v = inr x → x ∈ l.
Proof. destruct v; simpl; try done; apply index_elem. Qed.

Lemma in_range_int (k n : Z) :
  Py.in_range (Py.PInt (k - 1)) n = true ↔ 1 ≤ k ≤ n.
Proof. simpl. rewrite andb_true_iff, Z.leb_le, Z.ltb_lt. lia. Qed.

(** What [select_action] returns is either an element of the legal
    actions that the model chose, or what the heuristic returns. *)
Lemma select_action_cases
    (llm_kwargs : gmap string Py.value)
    (node : MCTSNode) (valid_actions : list MCTSAction) (s : state) :
  (∃ a s', select_action llm_kwargs node valid_actions s = (Ret a, s')
           ∧ a ∈ valid_actions)
  ∨ (select_action llm_kwargs node valid_actions s).1
    = (lift (_default_action_selection node valid_actions) s).1.
Proof.
  unfold select_action, try_except, bind, external, print, lift, ret, raise.
  destruct (_default_action_selection node valid_actions) as [e|a] eqn:Hd;
    simpl;
    repeat (case_match; simpl in *; simplify_eq);
    try (by right);
    left; eexists _, _; (split; [reflexivity|]);
    eapply index_value_elem; eassumption.
Qed.

(** The model-driven strategy returns for a non-empty list. *)
Lemma select_action_returns
    (llm_kwargs : gmap string Py.value)
    (node : MCTSNode) (valid_actions : list MCTSAction) (s : state) :
  valid_actions ≠ [] →
  ∃ a s', select_action llm_kwargs node valid_actions s = (Ret a, s')
          ∧ a ∈ valid_actions.
Proof.
  intros Hne.
  destruct (select_action_cases llm_kwargs node valid_actions s)
    as [Hmodel|Hdefault]; [exact Hmodel|].
  destruct (default_action_selection_total node valid_actions Hne)
    as (a & Ha & Hin).
  rewrite Ha in Hdefault. simpl in Hdefault.
  destruct (select_action llm_kwargs node valid_actions s) as [r s'].
  simpl in Hdefault. subst r. by exists a, s'.
Qed.

(** The result of the heuristic strategy, as an outcome. *)
Lemma default_outcome
    (node : MCTSNode) (valid_actions : list MCTSAction) (s : state) :
  (lift (_default_action_selection node valid_actions) s).1
  = match _default_action_selection node valid_actions with
    | inr a => Ret a
    | inl e => Raise e
    end.
Proof. unfold lift. by destruct (_default_action_selection _ _). Qed.

(** The model gives a usable choice or it gives none. *)
Lemma usable_choice_or_not
    (llm_kwargs : gmap string Py.value)
    (node : MCTSNode) (valid_actions : list MCTSAction) (w : W) :
  (∃ a, usable_choice llm_kwargs node valid_actions w a)
  ∨ no_usable_choice llm_kwargs node valid_actions w.
Proof.
  destruct (Py.truthy (kwargs_get llm_kwargs "model" Py.PNone)) eqn:Hmodel;
    [|right; by apply model_not_configured].
  destruct (model_call llm_kwargs (build_prompt node valid_actions) w)
    as [[e|[|response others]] w'] eqn:Hcall;
    [right; by eapply model_call_raises
    |right; by eapply no_response|].
  destruct (re_search_json_block response) as [block|] eqn:Hblock;
    [|right; by eapply no_structured_block].
  destruct (json_loads block) as [v|] eqn:Hjson;
    [|right; by eapply block_not_json].
  assert (Hcases : (∃ d, v = Py.PDict d) ∨ ∀ d, v ≠ Py.PDict d)
    by (destruct v; (by right) || (left; by eexists)).
  destruct Hcases as [[d ->]|Hobject];
    [|right; by eapply block_not_object].
  destruct (as_index (Py.assoc_get "selected_action_number" d (Py.PInt 1)))
    as [k|] eqn:Hk; [|right; by eapply index_not_integer].
  destruct (decide (1 ≤ k ≤ Z.of_nat (length valid_actions))) as [Hin|Hout];
    [|right; by eapply index_out_of_range].
  destruct (lookup_lt_is_Some_2 valid_actions (Z.to_nat (k - 1))) as [a Ha];
    [lia|].
  left. exists a, response, others, w', block, d, k. done.
Qed.

(** C3.  The model-driven strategy never raises to its caller: for a
    non-empty list of legal actions it returns one of them.  Whenever
    the model gives no usable choice (no model is configured, the call
    of the model raises or returns no response, the response holds no
    structured block, the block does not decode, it decodes to something
    that is not an object, the selected number is not an integer, or it
    is an integer outside [1, number of legal actions]) the result is
    the result of the heuristic strategy for the same node and the same
    legal actions.  When the model gives a usable choice the result is
    the legal action that it chose, and there is no third situation. *)
Theorem select_action_falls_back
    (llm_kwargs : gmap string Py.value)
    (node : MCTSNode) (valid_actions : list MCTSAction) (s : state) :
  (valid_actions ≠ [] →
   ∃ a s', select_action llm_kwargs node valid_actions s = (Ret a, s')
           ∧ a ∈ valid_actions)
  ∧ (no_usable_choice llm_kwargs node valid_actions (world s) →
     (select_action llm_kwargs node valid_actions s).1
     = match _default_action_selection node valid_actions with
       | inr a => Ret a
       | inl e => Raise e
       end)
  ∧ (∀ a, usable_choice llm_kwargs node valid_actions (world s) a →
          (select_action llm_kwargs node valid_actions s).1 = Ret a)
  ∧ ((∃ a, usable_choice llm_kwargs node valid_actions (world s) a)
     ∨ no_usable_choice llm_kwargs node valid_actions (world s)).
Proof.
  split; [apply select_action_returns|]. split.
  - intros Hcase. rewrite <- (default_outcome node valid_actions s).
    unfold select_action, try_except, bind, external, print, lift, ret, raise.
    destruct (Py.truthy (kwargs_get llm_kwargs "model" Py.PNone)) eqn:Hmodel;
      simpl; [|by destruct (_default_action_selection node valid_actions)].
    destruct Hcase
      as [Hfalse|e w' Hcall|w' Hcall|response others w' Hcall Hnone
         |response others w' block Hcall Hblock Hjson
         |response others w' block v Hcall Hblock Hjson Hobject
         |response others w' block d Hcall Hblock Hjson Hk
         |response others w' block d k Hcall Hblock Hjson Hk Hout].
    + by rewrite Hmodel in Hfalse.
    + rewrite Hcall. simpl.
      by destruct (_default_action_selection node valid_actions).
    + rewrite Hcall. simpl.
      by destruct (_default_action_selection node valid_actions).
    + rewrite Hcall. simpl. rewrite Hnone.
      by destruct (_default_action_selection node valid_actions).
    + rewrite Hcall. simpl. rewrite Hblock, Hjson. simpl.
      by destruct (_default_action_selection node valid_actions).
    + rewrite Hcall. simpl. rewrite Hblock, Hjson.
      destruct v; simpl;
        try (by destruct (_default_action_selection node valid_actions)).
      by destruct (Hobject d).
    + rewrite Hcall. simpl. rewrite Hblock, Hjson. simpl.
      destruct (Py.assoc_get "selected_action_number" d (Py.PInt 1));
        simpl in Hk; try discriminate Hk; simpl;
        destruct (_default_action_selection node valid_actions);
        simpl; try done;
        destruct (bool_decide _ && bool_decide _); done.
    + rewrite Hcall. simpl. rewrite Hblock, Hjson. simpl.
      assert (Hsub :
        Py.sub1 (Py.assoc_get "selected_action_number" d (Py.PInt 1))
        = inr (Py.PInt (k - 1))).
      { destruct (Py.assoc_get "selected_action_number" d (Py.PInt 1));
          simpl in Hk; try discriminate Hk; by injection Hk as <-. }
      rewrite Hsub. simpl.
      rewrite <- in_range_int, not_true_iff_false in Hout.
      simpl in Hout. rewrite Hout.
      by destruct (_default_action_selection node valid_actions).
  - split; [|apply usable_choice_or_not]. intros a Hchoice.
    destruct Hchoice
      as (response & others & w' & block & d & k
          & Hmodel & Hcall & Hblock & Hjson & Hk & Hin & Ha).
    assert (Hsub :
      Py.sub1 (Py.assoc_get "selected_action_number" d (Py.PInt 1))
      = inr (Py.PInt (k - 1))).
    { destruct (Py.assoc_get "selected_action_number" d (Py.PInt 1));
        simpl in Hk; try discriminate Hk; by injection Hk as <-. }
    unfold select_action, try_except, bind, external, print, lift, ret, raise.
    rewrite Hmodel. simpl. rewrite Hcall. simpl. rewrite Hblock, Hjson.
    simpl. rewrite Hsub. simpl.
    replace ((0 <=? k - 1) && (k - 1 <? Z.of_nat (length valid_actions)))
      with true by (symmetry; apply andb_true_iff; split;
                    [apply Z.leb_le|apply Z.ltb_lt]; lia).
    unfold Py.index.
    replace (k - 1 <? 0) with false by (symmetry; apply Z.ltb_ge; lia).
    replace ((0 <=? k - 1) && (k - 1 <? Z.of_nat (length valid_actions)))
      with true by (symmetry; apply andb_true_iff; split;
                    [apply Z.leb_le|apply Z.ltb_lt]; lia).
    by rewrite Ha.
Qed.

End SelectorProperties.

(** ** Effects of the monadic operations *)

Section Effects.
Context `{Externals}.

Lemma quiet_ret {A} (a : A) : quiet (ret a).
Proof. intros s r s' [= <- <-]. done. Qed.

Lemma quiet_raise {A} (e : Py.exn) : quiet (raise (A:=A) e).
Proof. intros s r s' [= <- <-]. done. Qed.

Lemma quiet_lift {A} (r : Py.exn + A) : quiet (lift r).
Proof. destruct r; [apply quiet_raise|apply quiet_ret]. Qed.

Lemma quiet_print (e : event) : quiet (print e).
Proof.
  intros s r s' [= <- <-]. simpl. split; [done|]. by apply prefix_app_r.
Qed.

Lemma quiet_external {A} (f : W → (Py.exn + A) * W) : quiet (external f).
Proof.
  intros s r s'. unfold external. destruct (f (world s)) as [[e|a] w];
    intros [= <- <-]; done.
Qed.

Lemma quiet_bind {A B} (m : M state A) (k : A → M state B) :
  quiet m → (∀ a, quiet (k a)) → quiet (bind m k).
Proof.
  intros Hm Hk s r s'. unfold bind.
  destruct (m s) as [[a|e|] s1] eqn:Hms; specialize (Hm _ _ _ Hms) as [Hf Hp].
  - intros Hks. specialize (Hk _ _ _ _ Hks) as [Hf' Hp']. split.
    + congruence.
    + by etrans.
  - by intros [= <- <-].
  - by intros [= <- <-].
Qed.

Lemma quiet_try_except {A} (m : M state A) (h : Py.exn → M state A) :
  quiet m → (∀ e, quiet (h e)) → quiet (try_except m h).
Proof.
  intros Hm Hh s r s'. unfold try_except.
  destruct (m s) as [[a|e|] s1] eqn:Hms; specialize (Hm _ _ _ Hms) as [Hf Hp].
  - by intros [= <- <-].
  - intros Hhs. specialize (Hh _ _ _ _ Hhs) as [Hf' Hp']. split.
    + congruence.
    + by etrans.
  - by intros [= <- <-].
Qed.

Lemma productive_ret {A} (a : A) : productive (ret (S:=state) a).
Proof. by intros s. Qed.

Lemma productive_raise {A} (e : Py.exn) : productive (raise (S:=state) (A:=A) e).
Proof. by intros s. Qed.

Lemma productive_lift {A} (r : Py.exn + A) : productive (lift (S:=state) r).
Proof. destruct r; [apply productive_raise|apply productive_ret]. Qed.

Lemma productive_print (e : event) : productive (print e).
Proof. by intros s. Qed.

Lemma productive_external {A} (f : W → (Py.exn + A) * W) :
  productive (external f).
Proof. intros s. unfold external. by destruct (f (world s)) as [[e|a] w]. Qed.

Lemma productive_bind {A B} (m : M state A) (k : A → M state B) :
  productive m → (∀ a, productive (k a)) → productive (bind m k).
Proof.
  intros Hm Hk s. unfold bind. specialize (Hm s).
  destruct (m s) as [[a|e|] s1]; simpl in *; [apply Hk|done|done].
Qed.

Lemma productive_try_except {A} (m : M state A) (h : Py.exn → M state A) :
  productive m → (∀ e, productive (h e)) → productive (try_except m h).
Proof.
  intros Hm Hh s. unfold try_except. specialize (Hm s).
  destruct (m s) as [[a|e|] s1]; simpl in *; [done|apply Hh|done].
Qed.

End Effects.

Create HintDb effects discriminated.
#[global] Hint Resolve quiet_ret quiet_raise quiet_lift quiet_print
  quiet_external productive_ret productive_raise productive_lift
  productive_print productive_external : effects.

(** Goes through a computation built from the operations above. *)
Ltac effects :=
  cbv beta zeta;
  repeat match goal with
    | |- quiet (bind _ _) => apply quiet_bind; [|intros ?; cbv beta zeta]
    | |- quiet (try_except _ _) =>
        apply quiet_try_except; [|intros ?; cbv beta zeta]
    | |- productive (bind _ _) =>
        apply productive_bind; [|intros ?; cbv beta zeta]
    | |- productive (try_except _ _) =>
        apply productive_try_except; [|intros ?; cbv beta zeta]
    | |- quiet (match ?x with _ => _ end) => destruct x eqn:?
    | |- productive (match ?x with _ => _ end) => destruct x eqn:?
    | |- _ => solve [auto with effects]
    end.

Section SelectorEffects.
Context `{Externals}.

Lemma select_action_quiet
    (llm_kwargs : gmap string Py.value)
    (node : MCTSNode) (valid_actions : list MCTSAction) :
  quiet (select_action llm_kwargs node valid_actions).
Proof. unfold select_action. effects. Qed.

Lemma select_action_productive
    (llm_kwargs : gmap string Py.value)
    (node : MCTSNode) (valid_actions : list MCTSAction) :
  productive (select_action llm_kwargs node valid_actions).
Proof. unfold select_action. effects. Qed.

End SelectorEffects.

#[global] Hint Resolve select_action_quiet select_action_productive : effects.


(** ** The path generator *)

Section SolverProperties.
Context `{Externals}.
Local Open Scope py_scope.

Lemma generation_loop_quiet
    (self : LLMGuidedSolver) (fuel : nat) (st : loop_state) :
  quiet (generation_loop self fuel st).
Proof.
  revert st. induction fuel as [|fuel IH]; intros st; simpl.
  - destruct (loop_condition self st); [by intros s r s' [= <- <-]|].
    auto with effects.
  - effects.
Qed.

Lemma loop_condition_true (self : LLMGuidedSolver) (st : loop_state) :
  loop_condition self st = true ↔
  is_terminal (current st) = false
  ∧ step st < self_max_steps self
  ∧ depth (current st) < self_max_depth self.
Proof.
  unfold loop_condition.
  rewrite !andb_true_iff, negb_true_iff, !Z.ltb_lt. tauto.
Qed.

Lemma loop_condition_false (self : LLMGuidedSolver) (st : loop_state) :
  loop_condition self st = false ↔
  is_terminal (current st) = true
  ∨ self_max_steps self ≤ step st
  ∨ self_max_depth self ≤ depth (current st).
Proof.
  rewrite <- not_true_iff_false, loop_condition_true.
  destruct (is_terminal (current st)).
  - split; [by left|]. intros _ (? & _). done.
  - split.
    + intros Hn. right.
      destruct (decide (step st < self_max_steps self)) as [Hs|Hs];
        [|left; lia].
      destruct (decide (depth (current st) < self_max_depth self)) as [Hd|Hd];
        [|right; lia].
      exfalso. by apply Hn.
    + intros [?|[?|?]] (? & ? & ?); [done|lia|lia].
Qed.

Lemma generation_loop_productive
    (self : LLMGuidedSolver) (fuel : nat) (st : loop_state) :
  (Z.to_nat (self_max_steps self - step st) ≤ fuel)%nat →
  productive (generation_loop self fuel st).
Proof.
  revert st. induction fuel as [|fuel IH]; intros st Hfuel; simpl.
  - destruct (loop_condition self st) eqn:Hc; [|auto with effects].
    apply loop_condition_true in Hc. lia.
  - destruct (loop_condition self st) eqn:Hc; [|auto with effects].
    apply loop_condition_true in Hc.
    effects; try (apply IH; simpl; lia).
Qed.

(** The loop satisfies the equation of a [while] loop. *)
Lemma run_generation_loop_unfold (self : LLMGuidedSolver) (st : loop_state) :
  run_generation_loop self st =
  if loop_condition self st then
    match get_valid_action_space_for_node (current st) with
    | [] =>
        print (LogNoValidActions (depth (current st))) ;;
        ret st
    | _ :: _ =>
        let* selected_action :=
          select_action (self_llm_kwargs self) (current st)
                        (get_valid_action_space_for_node (current st)) in
        let* children_nodes :=
          external (create_children_nodes selected_action (current st)
                                          (self_llm_kwargs self)) in
        match children_nodes with
        | [] =>
            print (LogNoChildren (class_name selected_action)) ;;
            ret st
        | child :: _ =>
            run_generation_loop self
              {| current := child;
                 path := path st ++ [child];
                 step := step st + 1 |}
        end
    end
  else ret st.
Proof.
  unfold run_generation_loop.
  destruct (loop_condition self st) eqn:Hc.
  - pose proof (proj1 (loop_condition_true self st) Hc) as (_ & Hstep & _).
    replace (Z.to_nat (self_max_steps self - step st))
      with (S (Z.to_nat (self_max_steps self - (step st + 1)))) by lia.
    simpl. rewrite Hc.
    by destruct (get_valid_action_space_for_node (current st)).
  - destruct (Z.to_nat (self_max_steps self - step st)); simpl; by rewrite Hc.
Qed.

Lemma run_generation_loop_productive
    (self : LLMGuidedSolver) (st : loop_state) :
  productive (run_generation_loop self st).
Proof. by apply generation_loop_productive. Qed.

Lemma generate_one_path_productive
    (self : LLMGuidedSolver) (root_node : MCTSNode) :
  productive (generate_one_path self root_node).
Proof.
  unfold generate_one_path. apply productive_bind.
  - apply run_generation_loop_productive.
  - intros st. effects.
Qed.

Lemma generate_one_path_quiet
    (self : LLMGuidedSolver) (root_node : MCTSNode) :
  quiet (generate_one_path self root_node).
Proof.
  unfold generate_one_path. apply quiet_bind.
  - apply generation_loop_quiet.
  - intros st. effects.
Qed.

(** C7.  The loop of the path generator terminates on every input: its
    model never runs out of recursion bound, and neither does
    [generate_one_path].  From a state in which the current node is
    terminal, or the step count has reached [max_steps], or the depth of
    the node has reached [max_depth], the loop stops at once.  Otherwise
    an empty set of legal actions stops it without an exception; with
    legal actions the selector returns one of them, and then an empty
    list of children stops the loop without an exception, a non-empty
    one makes it go on from the first child with the step count
    incremented, and an exception of the action leaves the loop. *)
Theorem generation_loop_terminates
    (self : LLMGuidedSolver) (st : loop_state) (s : state) :
  (run_generation_loop self st s).1 ≠ OutOfFuel
  ∧ (∀ root_node, (generate_one_path self root_node s).1 ≠ OutOfFuel)
  ∧ (is_terminal (current st) = true
     ∨ self_max_steps self ≤ step st
     ∨ self_max_depth self ≤ depth (current st) →
     run_generation_loop self st s = (Ret st, s))
  ∧ (loop_condition self st = true →
     let valid_action_space := get_valid_action_space_for_node (current st) in
     (valid_action_space = [] →
      run_generation_loop self st s
      = (Ret st, add_output s (LogNoValidActions (depth (current st)))))
     ∧ (valid_action_space ≠ [] →
        ∃ selected_action s1,
          select_action (self_llm_kwargs self) (current st)
                        valid_action_space s
          = (Ret selected_action, s1)
          ∧ selected_action ∈ valid_action_space
          ∧ ∀ w',
              (create_children_nodes selected_action (current st)
                                     (self_llm_kwargs self) (world s1)
               = (inr [], w') →
               run_generation_loop self st s
               = (Ret st,
                  add_output (set_world s1 w')
                             (LogNoChildren (class_name selected_action))))
              ∧ (∀ child others,
                   create_children_nodes selected_action (current st)
                                         (self_llm_kwargs self) (world s1)
                   = (inr (child :: others), w') →
                   run_generation_loop self st s
                   = run_generation_loop self
                       {| current := child;
                          path := path st ++ [child];
                          step := step st + 1 |}
                       (set_world s1 w'))
              ∧ (∀ e,
                   create_children_nodes selected_action (current st)
                                         (self_llm_kwargs self) (world s1)
                   = (inl e, w') →
                   run_generation_loop self st s
                   = (Raise e, set_world s1 w')))).
Proof.
  split; [apply run_generation_loop_productive|].
  split; [intros root_node; apply generate_one_path_productive|].
  split.
  - intros Hstop. apply loop_condition_false in Hstop.
    rewrite run_generation_loop_unfold, Hstop. done.
  - intros Hc valid_action_space. rewrite run_generation_loop_unfold, Hc.
    subst valid_action_space. split.
    + intros ->. done.
    + intros Hne.
      destruct (select_action_returns (self_llm_kwargs self) (current st)
                  (get_valid_action_space_for_node (current st)) s Hne)
        as (a & s1 & Hsel & Hin).
      exists a, s1. split; [done|]. split; [done|].
      destruct (get_valid_action_space_for_node (current st)) as [|v l];
        [done|].
      intros w'.
      repeat split; [intros Hcr|intros child others Hcr|intros e Hcr];
        unfold bind at 1; rewrite Hsel; unfold bind at 1, external;
        rewrite Hcr; done.
Qed.

Lemma generation_loop_last
    (self : LLMGuidedSolver) (fuel : nat) (st st' : loop_state)
    (s s' : state) :
  list.last (path st) = Some (current st) →
  generation_loop self fuel st s = (Ret st', s') →
  list.last (path st') = Some (current st').
Proof.
  revert st s. induction fuel as [|fuel IH]; intros st s Hlast; simpl.
  - destruct (loop_condition self st); [done|]. by intros [= <- <-].
  - destruct (loop_condition self st); [|by intros [= <- <-]].
    destruct (get_valid_action_space_for_node (current st)) as [|v l];
      [by intros [= <- <-]|].
    unfold bind at 1.
    destruct (select_action _ _ _ s) as [[a|e|] s1]; [|done..].
    unfold bind at 1.
    destruct (external _ s1) as [[[|child others]|e|] s2]; [| |done..].
    + by intros [= <- <-].
    + apply IH. simpl. by rewrite last_snoc.
Qed.

(** C6.  Forced closure.  Let the loop of the path generator stop in the
    state [st], whose last path element is the current node.  If that
    node is not terminal and its type is SQLGeneration or SQLRevision,
    the generator applies one End action to it: a produced node is
    appended, it is terminal and carries the final SQL of the node
    before it, so the final SQL of the closed path is the final SQL
    before the closure; if no node is produced the path is returned as
    it is, not terminal.  For a terminal node, and for a node of any
    other type, the path is returned as it is and no action is
    applied. *)
Theorem forced_closure
    (self : LLMGuidedSolver) (root_node : MCTSNode)
    (s s1 : state) (st : loop_state) :
  end_action_carries_sql →
  run_generation_loop self
    {| current := root_node; path := [root_node]; step := 0 |} s
  = (Ret st, s1) →
  list.last (path st) = Some (current st)
  ∧ (is_terminal (current st) = false →
     node_type (current st) ∈ [SQL_GENERATION; SQL_REVISION] →
     ∀ end_nodes w',
       create_children_nodes EndAction (current st) (self_llm_kwargs self)
                             (world s1)
       = (inr end_nodes, w') →
       match end_nodes with
       | end_node :: _ =>
           generate_one_path self root_node s
           = (Ret (path st ++ [end_node]), set_world s1 w')
           ∧ is_terminal end_node = true
           ∧ path_final_sql (path st ++ [end_node])
             = path_final_sql (path st)
       | [] =>
           generate_one_path self root_node s
           = (Ret (path st), set_world s1 w')
           ∧ path_is_terminal (path st) = false
       end)
  ∧ (is_terminal (current st) = true
     ∨ node_type (current st) ∉ [SQL_GENERATION; SQL_REVISION] →
     generate_one_path self root_node s = (Ret (path st), s1)).
Proof.
  intros Hend Hloop.
  assert (Hlast : list.last (path st) = Some (current st)).
  { eapply generation_loop_last; [|exact Hloop]. done. }
  split; [exact Hlast|]. split.
  - intros Hterm Htype end_nodes w' Hcreate.
    assert (Hgen :
      generate_one_path self root_node s
      = (Ret match end_nodes with
             | end_node :: _ => path st ++ [end_node]
             | [] => path st
             end, set_world s1 w')).
    { unfold generate_one_path, bind at 1. rewrite Hloop, Hterm. simpl.
      rewrite bool_decide_eq_true_2 by done.
      unfold bind, external. rewrite Hcreate. by destruct end_nodes. }
    destruct end_nodes as [|end_node others].
    + split; [done|]. unfold path_is_terminal. by rewrite Hlast.
    + destruct (Hend _ _ _ _ _ end_node Hcreate) as [Hty Hsql];
        [apply elem_of_cons; by left|].
      split; [done|]. split.
      * unfold is_terminal. by apply bool_decide_eq_true.
      * unfold path_final_sql. rewrite last_snoc, Hlast. simpl.
        by rewrite Hsql.
  - intros Hno. unfold generate_one_path, bind at 1. rewrite Hloop.
    destruct Hno as [Hterm|Htype].
    + by rewrite Hterm.
    + destruct (is_terminal (current st)); [done|]. simpl.
      by rewrite bool_decide_eq_false_2.
Qed.

(** ** The batch of generation attempts *)

Lemma index_last {A} (l : list A) :
  Py.index l (-1) = match list.last l with
                    | Some x => inr x
                    | None => inl Py.IndexError
                    end.
Proof.
  unfold Py.index. rewrite last_lookup. simpl.
  destruct l as [|x l]; [done|].
  replace (-1 + Z.of_nat (length (x :: l))) with (Z.of_nat (length l))
    by (simpl; lia).
  rewrite Nat2Z.id.
  replace (0 <=? Z.of_nat (length l)) with true
    by (symmetry; apply Z.leb_le; lia).
  replace (Z.of_nat (length l) <? Z.of_nat (length (x :: l))) with true
    by (symmetry; apply Z.ltb_lt; simpl; lia).
  simpl. by destruct (_ !! _).
Qed.

Lemma solve_attempt_spec
    (self : LLMGuidedSolver) (root_node : MCTSNode)
    (paths : list (list MCTSNode)) (path_idx : Z) (s : state) :
  let r := (generate_one_path self root_node s).1 in
  ∃ s',
    solve_attempt self root_node paths path_idx s
    = (Ret (paths ++ option_list (kept r)), s')
    ∧ files s' = files s
    ∧ stdout s `prefix_of` stdout s'
    ∧ (kept r = None → reported (path_idx + 1) (stdout s')).
Proof.
  pose proof (generate_one_path_productive self root_node s) as Hprod.
  pose proof (generate_one_path_quiet self root_node s) as Hquiet.
  unfold solve_attempt, try_except, bind at 1.
  destruct (generate_one_path self root_node s) as [[p|e|] s1];
    [| |done]; specialize (Hquiet _ _ eq_refl) as [Hf Hp]; simpl.
  - unfold bind at 1. rewrite index_last. unfold path_is_terminal.
    destruct (list.last p) as [n|]; simpl.
    + destruct (is_terminal n); simpl.
      * eexists. split; [done|]. simpl. split; [done|].
        split; [|done]. etrans; [exact Hp|].
        rewrite <- (assoc_L (++)). by apply prefix_app_r.
      * eexists. split; [by rewrite app_nil_r|]. simpl. split; [done|].
        split; [etrans; [exact Hp|]; by apply prefix_app_r|].
        intros _. left. apply elem_of_app. right. by apply list_elem_of_singleton.
    + eexists. split; [by rewrite app_nil_r|]. simpl. split; [done|].
      split.
      * etrans; [exact Hp|]. rewrite <- (assoc_L (++)). by apply prefix_app_r.
      * intros _. right. exists Py.IndexError.
        apply elem_of_app. left. apply elem_of_app. right.
        by apply list_elem_of_singleton.
  - eexists. split; [by rewrite app_nil_r|]. simpl. split; [done|].
    split.
    + etrans; [exact Hp|]. rewrite <- (assoc_L (++)). by apply prefix_app_r.
    + intros _. right. exists e.
      apply elem_of_app. left. apply elem_of_app. right.
      by apply list_elem_of_singleton.
Qed.

Lemma reported_mono (number : Z) (out out' : list event) :
  out `prefix_of` out' → reported number out → reported number out'.
Proof.
  intros [k ->] [Hin|[e Hin]]; [left|right; exists e];
    apply elem_of_app; by left.
Qed.

Lemma attempt_outcomes_length
    (self : LLMGuidedSolver) (root_node : MCTSNode)
    (path_indices : list Z) (paths : list (list MCTSNode)) (s : state) :
  length (attempt_outcomes self root_node path_indices paths s)
  = length path_indices.
Proof.
  revert paths s. induction path_indices as [|i rest IH]; intros paths s;
    simpl; [done|].
  f_equal. destruct (solve_attempt _ _ _ _ _) as [[?|?|] ?]; apply IH.
Qed.

Lemma solve_loop_spec
    (self : LLMGuidedSolver) (root_node : MCTSNode)
    (path_indices : list Z) (paths : list (list MCTSNode)) (s : state) :
  let outcomes := attempt_outcomes self root_node path_indices paths s in
  ∃ s',
    solve_loop self root_node path_indices paths s
    = (Ret (paths ++ omap kept outcomes), s')
    ∧ files s' = files s
    ∧ stdout s `prefix_of` stdout s'
    ∧ (∀ k i r,
         path_indices !! k = Some i → outcomes !! k = Some r →
         kept r = None → reported (i + 1) (stdout s')).
Proof.
  revert paths s. induction path_indices as [|i rest IH]; intros paths s.
  - exists s. simpl. rewrite app_nil_r. repeat split; try done.
  - destruct (solve_attempt_spec self root_node paths i s)
      as (s1 & Hsa & Hf1 & Hp1 & Hr1).
    simpl. unfold bind at 1. rewrite Hsa.
    destruct (IH (paths ++ option_list (kept (generate_one_path self root_node s).1)) s1)
      as (s' & Hloop & Hf & Hp & Hr).
    exists s'. split.
    { rewrite Hloop. f_equal. f_equal. rewrite <- (assoc_L (++)). f_equal.
      by destruct (kept (generate_one_path self root_node s).1). }
    split; [congruence|]. split; [by etrans|].
    intros [|k] j r Hj Hk Hkept; simpl in *; simplify_eq.
    + eapply reported_mono; [exact Hp|]. by apply Hr1.
    + by eapply Hr.
Qed.

(** What [solve] does, for the value of [num_paths]. *)
Lemma solve_spec (self : LLMGuidedSolver) (s : state) :
  match py_range (self_num_paths self) with
  | inr path_indices =>
      let outcomes :=
        attempt_outcomes self (make_root_node self) path_indices [] s in
      ∃ s',
        solve self s = (Ret tt, s')
        ∧ files s'
          = <[(self_save_root_dir self,
               artifact_name (question_id (self_task self)))
              := Pickle (omap kept outcomes)]> (files s)
        ∧ stdout s `prefix_of` stdout s'
        ∧ (∀ k i r,
             path_indices !! k = Some i → outcomes !! k = Some r →
             kept r = None → reported (i + 1) (stdout s'))
  | inl e => solve self s = (Raise e, s)
  end.
Proof.
  unfold solve. destruct (py_range (self_num_paths self)) as [e|idxs];
    [done|].
  cbv zeta. unfold bind at 1. simpl.
  destruct (solve_loop_spec self (make_root_node self) idxs [] s)
    as (s1 & Hloop & Hf & Hp & Hr).
  unfold bind at 1. rewrite Hloop. simpl.
  eexists. split; [reflexivity|]. simpl. split; [by rewrite Hf|].
  split.
  - etrans; [exact Hp|]. rewrite <- !(assoc_L (++)). by apply prefix_app_r.
  - intros k i r Hi Hk Hkept. eapply reported_mono; [|by eapply Hr].
    rewrite <- !(assoc_L (++)). by apply prefix_app_r.
Qed.

Lemma elem_of_omap_kept
    (outcomes : list (outcome (list MCTSNode))) (p : list MCTSNode) :
  p ∈ omap kept outcomes ↔ Ret p ∈ outcomes ∧ path_is_terminal p = true.
Proof.
  rewrite list_elem_of_omap. split.
  - intros (r & Hin & Hk). destruct r as [q| |]; simpl in Hk; [|done..].
    destruct (path_is_terminal q) eqn:Hq; simplify_eq. done.
  - intros [Hin Ht]. exists (Ret p). split; [done|]. simpl. by rewrite Ht.
Qed.

(** C8.  For a batch of [n] generation attempts for one task, [solve]
    makes all [n] attempts and returns normally.  The list that it
    persists holds, in order, exactly the generated paths whose last
    node is terminal.  An attempt whose path does not end in a terminal
    node, or that raises, is left out and is reported on standard
    output; the attempts after it are made all the same. *)
Theorem solve_keeps_terminal_paths
    (self : LLMGuidedSolver) (n : Z) (s : state) :
  self_num_paths self = Py.PInt n →
  let outcomes :=
    attempt_outcomes self (make_root_node self)
                     (Z.of_nat <$> seq 0 (Z.to_nat n)) [] s in
  length outcomes = Z.to_nat n
  ∧ ∃ s',
      solve self s = (Ret tt, s')
      ∧ files s'
        = <[(self_save_root_dir self,
             artifact_name (question_id (self_task self)))
            := Pickle (omap kept outcomes)]> (files s)
      ∧ (∀ p, p ∈ omap kept outcomes
              ↔ Ret p ∈ outcomes ∧ path_is_terminal p = true)
      ∧ (∀ k r, outcomes !! k = Some r → kept r = None →
                reported (Z.of_nat k + 1) (stdout s')).
Proof.
  intros Hn outcomes. split.
  { subst outcomes. by rewrite attempt_outcomes_length, length_fmap, length_seq. }
  pose proof (solve_spec self s) as Hspec. rewrite Hn in Hspec. simpl in Hspec.
  destruct Hspec as (s' & Hsolve & Hfiles & _ & Hrep).
  exists s'. split; [done|]. split; [done|].
  split; [apply elem_of_omap_kept|].
  intros k r Hk Hkept. eapply Hrep; [|exact Hk|exact Hkept].
  rewrite list_lookup_fmap.
  assert (k < Z.to_nat n)%nat as Hlt.
  { apply lookup_lt_Some in Hk. subst outcomes.
    by rewrite attempt_outcomes_length, length_fmap, length_seq in Hk. }
  by rewrite lookup_seq_lt.
Qed.

End SolverProperties.

(** ** File names *)

Lemma str_nonempty (z : Z) : Py.str z ≠ EmptyString.
Proof.
  unfold Py.str. destruct (Z.to_int z) as [d|d]; destruct d; simpl; done.
Qed.

Lemma substring_length_app (s t : string) (m : nat) :
  substring (String.length s) m (s +:+ t) = substring 0 m t.
Proof. induction s as [|c s IH]; simpl; [done|exact IH]. Qed.

Lemma substring_0_length_app (s t : string) :
  substring 0 (String.length s) (s +:+ t) = s.
Proof.
  induction s as [|c s IH]; simpl; [by destruct t|]. by rewrite IH.
Qed.

Lemma length_app_string (s t : string) :
  String.length (s +:+ t) = (String.length s + String.length t)%nat.
Proof. induction s as [|c s IH]; simpl; [done|]. by rewrite IH. Qed.

Lemma ends_with_app (s suffix : string) : ends_with suffix (s +:+ suffix) = true.
Proof.
  unfold ends_with. rewrite length_app_string. apply andb_true_iff. split.
  - apply Nat.leb_le. lia.
  - replace (String.length s + String.length suffix - String.length suffix)%nat
      with (String.length s) by lia.
    rewrite substring_length_app.
    replace suffix with (suffix +:+ EmptyString) at 2.
    + rewrite substring_0_length_app. apply String.eqb_refl.
    + clear. induction suffix as [|c t IH]; [done|].
      rewrite <- IH at 2. reflexivity.
Qed.

Lemma stem_app (s : string) : s ≠ EmptyString → stem (s +:+ ".pkl") = s.
Proof.
  intros Hne. unfold stem.
  destruct (String.eqb_spec (s +:+ ".pkl") ".pkl") as [Heq|_].
  - apply (f_equal String.length) in Heq. rewrite length_app_string in Heq.
    destruct s; [done|]. simpl in Heq. lia.
  - rewrite length_app_string. simpl.
    replace (String.length s + 4 - 4)%nat with (String.length s) by lia.
    apply substring_0_length_app.
Qed.

Lemma artifact_name_ends_with (question_id : Z) :
  ends_with ".pkl" (artifact_name question_id) = true.
Proof. apply ends_with_app. Qed.

Lemma artifact_name_stem (question_id : Z) :
  stem (artifact_name question_id) = Py.str question_id.
Proof. apply stem_app, str_nonempty. Qed.

Lemma artifact_name_not_config (question_id : Z) :
  artifact_name question_id ≠ "config.json".
Proof.
  intros Heq. pose proof (artifact_name_ends_with question_id) as He.
  rewrite Heq in He. done.
Qed.

(** ** The runner *)

Section RunnerProperties.
Context `{Externals}.
Local Open Scope py_scope.

Lemma artifact_name_inj `{!IntOfStr} (a b : Z) :
  artifact_name a = artifact_name b → a = b.
Proof.
  intros Heq. apply (f_equal stem) in Heq. rewrite !artifact_name_stem in Heq.
  pose proof (py_int_str a) as Ha. rewrite Heq, py_int_str in Ha. congruence.
Qed.

Lemma glob_pkl_elem
    (directory name : string) (fs : gmap (string * string) file) :
  name ∈ glob_pkl directory fs
  ↔ is_Some (fs !! (directory, name)) ∧ ends_with ".pkl" name = true.
Proof.
  unfold glob_pkl. rewrite list_elem_of_omap. split.
  - intros ([[d n] c] & Hin & Hsome). simpl in Hsome.
    apply elem_of_map_to_list in Hin.
    case_bool_decide as Hd; simpl in Hsome; [|done].
    destruct (ends_with ".pkl" n) eqn:He; simplify_eq. eauto.
  - intros [[c Hc] He]. exists (directory, name, c). split.
    + by apply elem_of_map_to_list.
    + simpl. rewrite bool_decide_eq_true_2 by done. by rewrite He.
Qed.

Lemma collect_done_task_ids_elem
    (names : list string) (ids : list Z) (name : string) :
  collect_done_task_ids names = inr ids → name ∈ names →
  ∃ id, py_int (stem name) = Some id ∧ id ∈ ids.
Proof.
  revert ids. induction names as [|n rest IH]; intros ids Hc Hin.
  - by apply elem_of_nil in Hin.
  - simpl in Hc. destruct (py_int (stem n)) as [id|] eqn:Hn; [|done].
    destruct (collect_done_task_ids rest) as [e|ids'] eqn:Hrest; [done|].
    simplify_eq. apply elem_of_cons in Hin as [->|Hin].
    + exists id. split; [done|]. apply elem_of_cons. by left.
    + destruct (IH ids' eq_refl Hin) as (id' & Hid' & Hin').
      exists id'. split; [done|]. apply elem_of_cons. by right.
Qed.

(** A task whose artifact is in the directory is among the done ones. *)
Lemma artifact_is_done `{!IntOfStr}
    (directory : string) (fs : gmap (string * string) file)
    (question_id : Z) (done_task_ids : list Z) :
  is_Some (fs !! (directory, artifact_name question_id)) →
  collect_done_task_ids (glob_pkl directory fs) = inr done_task_ids →
  question_id ∈ done_task_ids.
Proof.
  intros Hfile Hc.
  destruct (collect_done_task_ids_elem _ _ (artifact_name question_id) Hc)
    as (id & Hid & Hin).
  - apply glob_pkl_elem. split; [done|apply artifact_name_ends_with].
  - rewrite artifact_name_stem, py_int_str in Hid. by simplify_eq.
Qed.

Lemma pending_tasks_elem
    (done_task_ids : list Z) (tasks : list Task) (task : Task) :
  task ∈ pending_tasks done_task_ids tasks
  ↔ task ∈ tasks ∧ question_id task ∉ done_task_ids.
Proof.
  unfold pending_tasks.
  rewrite list_elem_of_In, filter_In, <- list_elem_of_In.
  rewrite negb_true_iff, bool_decide_eq_false. done.
Qed.

(** [solve] writes no file but the artifact of its task. *)
Lemma solve_frame
    (self : LLMGuidedSolver) (s s' : state) (r : outcome unit)
    (key : string * string) :
  solve self s = (r, s') →
  key ≠ (self_save_root_dir self,
         artifact_name (question_id (self_task self))) →
  files s' !! key = files s !! key.
Proof.
  intros Hsolve Hkey. pose proof (solve_spec self s) as Hspec.
  destruct (py_range (self_num_paths self)) as [e|idxs].
  - rewrite Hspec in Hsolve. by simplify_eq.
  - destruct Hspec as (s0 & Hs0 & Hfiles & _). rewrite Hs0 in Hsolve.
    simplify_eq. rewrite Hfiles. by apply lookup_insert_ne.
Qed.

Lemma run_one_task_frame
    (config : MCTSConfig) (task : Task) (s s' : state) (r : outcome unit)
    (key : string * string) :
  run_one_task config task s = (r, s') →
  key ≠ (save_root_dir config, artifact_name (question_id task)) →
  files s' !! key = files s !! key.
Proof.
  unfold run_one_task. intros Hrun Hkey.
  destruct (mcts_model_kwargs config !! "n") as [n|];
    [|by unfold bind, lift, raise in Hrun; simplify_eq].
  unfold bind at 1 in Hrun. simpl in Hrun.
  unfold bind at 1, try_except in Hrun.
  match type of Hrun with
  | context [solve ?self s] =>
      destruct (solve self s) as [[[]|e|] s1] eqn:Hsolve;
      apply (solve_frame _ _ _ _ key) in Hsolve; [|done| |done| |done]
  end; unfold bind, print in Hrun; simpl in Hrun; simplify_eq; done.
Qed.

Lemma map_run_one_task_frame
    (config : MCTSConfig) (tasks : list Task) (s s' : state)
    (r : outcome unit) (key : string * string) :
  map_run_one_task config tasks s = (r, s') →
  (∀ task, task ∈ tasks →
           key ≠ (save_root_dir config, artifact_name (question_id task))) →
  files s' !! key = files s !! key.
Proof.
  revert s. induction tasks as [|task rest IH]; intros s Hrun Hkey; simpl in *.
  - unfold ret in Hrun. by simplify_eq.
  - unfold bind at 1 in Hrun.
    destruct (run_one_task config task s) as [[[]|e|] s1] eqn:Hone;
      apply (run_one_task_frame _ _ _ _ _ key) in Hone;
      try (apply Hkey, elem_of_cons; by left).
    + rewrite <- Hone. apply IH; [done|].
      intros t Ht. apply Hkey, elem_of_cons. by right.
    + by simplify_eq.
    + by simplify_eq.
Qed.

Lemma run_tasks_frame
    (config : MCTSConfig) (tasks : list Task) (s s' : state)
    (r : outcome unit) (key : string * string) :
  run_tasks config tasks s = (r, s') →
  (∀ task, task ∈ tasks →
           key ≠ (save_root_dir config, artifact_name (question_id task))) →
  files s' !! key = files s !! key.
Proof.
  unfold run_tasks, bind, lift.
  destruct (process_pool (n_processes config)) as [e|[]].
  - by intros [= <- <-] _.
  - apply map_run_one_task_frame.
Qed.

(** [run_all_tasks] solves the pending tasks, in a state that differs
    from the initial one in the output and in [config.json]; if a
    [*.pkl] file has no integer stem it raises and solves nothing. *)
Lemma run_all_tasks_spec
    (config : MCTSConfig) (tasks : list Task) (subset_ids : list Z)
    (s : state) :
  match collect_done_task_ids (glob_pkl (save_root_dir config) (files s)) with
  | inr done_task_ids =>
      ∃ s1,
        run_all_tasks config tasks subset_ids s
        = run_tasks config
            (pending_tasks done_task_ids
                           (subset_tasks config tasks subset_ids)) s1
        ∧ files s1
          = <[(save_root_dir config, "config.json") := ConfigJson config]>
              (files s)
  | inl e =>
      ∃ s1, run_all_tasks config tasks subset_ids s = (Raise e, s1)
            ∧ files s1 = files s
  end.
Proof.
  unfold run_all_tasks, subset_tasks.
  destruct (collect_done_task_ids _) as [e|ids] eqn:Hc;
    destruct (nonempty (subset_file_path config)) as [p|];
    unfold bind, print, write_file, lift, ret, raise; simpl;
    rewrite Hc; simpl; eauto.
Qed.

(** C9.  Re-invoking the batch skips what is done.  Let the artifact
    named after the identifier of [task] exist in the output directory
    when [run_all_tasks] starts.  Then the identifier is among the done
    ones, the tasks that are solved are the pending ones, [task] is not
    one of them, and when [run_all_tasks] ends the artifact holds what it
    held before: the task is not solved again and its output is not
    overwritten. *)
Theorem done_tasks_are_skipped {int_of_str : IntOfStr}
    (config : MCTSConfig) (tasks : list Task) (subset_ids : list Z)
    (task : Task) (content : file) (s : state) :
  files s !! (save_root_dir config, artifact_name (question_id task))
  = Some content →
  (∀ done_task_ids,
     collect_done_task_ids (glob_pkl (save_root_dir config) (files s))
     = inr done_task_ids →
     question_id task ∈ done_task_ids
     ∧ ∃ s1,
         run_all_tasks config tasks subset_ids s
         = run_tasks config
             (pending_tasks done_task_ids
                            (subset_tasks config tasks subset_ids)) s1
         ∧ task ∉ pending_tasks done_task_ids
                                (subset_tasks config tasks subset_ids))
  ∧ (∀ r s',
       run_all_tasks config tasks subset_ids s = (r, s') →
       files s' !! (save_root_dir config, artifact_name (question_id task))
       = Some content).
Proof.
  intros Hfile.
  pose proof (run_all_tasks_spec config tasks subset_ids s) as Hspec.
  assert (Hdone : ∀ ids,
    collect_done_task_ids (glob_pkl (save_root_dir config) (files s))
    = inr ids → question_id task ∈ ids).
  { intros ids Hc. eapply artifact_is_done; [|exact Hc]. by rewrite Hfile. }
  split.
  - intros ids Hc. rewrite Hc in Hspec. destruct Hspec as (s1 & Hrun & _).
    split; [by apply Hdone|]. exists s1. split; [done|].
    rewrite pending_tasks_elem. intros [_ Hnot]. by apply Hnot, Hdone.
  - intros r s' Hrun.
    destruct (collect_done_task_ids _) as [e|ids] eqn:Hc.
    + destruct Hspec as (s1 & Hraise & Hfiles).
      rewrite Hraise in Hrun. simplify_eq. by rewrite Hfiles.
    + destruct Hspec as (s1 & Hsplit & Hfiles). rewrite Hsplit in Hrun.
      erewrite run_tasks_frame; [|exact Hrun|].
      * rewrite Hfiles, lookup_insert_ne; [done|].
        intros [= Heq]. by eapply artifact_name_not_config.
      * intros t Ht [= Heq]. apply pending_tasks_elem in Ht as [_ Hnot].
        apply artifact_name_inj in Heq. apply Hnot. rewrite <- Heq.
        by apply Hdone.
Qed.

Lemma omap_kept_none (outcomes : list (outcome (list MCTSNode))) :
  (∀ r, r ∈ outcomes → kept r = None) → omap kept outcomes = [].
Proof.
  induction outcomes as [|r rest IH]; intros Hall; simpl; [done|].
  rewrite (Hall r) by (apply elem_of_cons; by left).
  apply IH. intros r' Hr'. apply Hall, elem_of_cons. by right.
Qed.

(** C10.  Whenever [solve] returns normally it has written the artifact
    of its task: the artifact holds the kept paths, and the empty list
    when no attempt was kept.  A later [run_all_tasks] on the same
    output directory that still finds the artifact does not solve the
    task again, whatever the artifact holds. *)
Theorem solve_always_persists {int_of_str : IntOfStr}
    (self : LLMGuidedSolver) (s s' : state) :
  solve self s = (Ret tt, s') →
  ∃ path_indices,
    py_range (self_num_paths self) = inr path_indices
    ∧ let outcomes :=
        attempt_outcomes self (make_root_node self) path_indices [] s in
      let key := (self_save_root_dir self,
                  artifact_name (question_id (self_task self))) in
      files s' !! key = Some (Pickle (omap kept outcomes))
      ∧ ((∀ r, r ∈ outcomes → kept r = None) →
         files s' !! key = Some (Pickle []))
      ∧ ∀ (config : MCTSConfig) (tasks : list Task) (subset_ids : list Z)
          (s2 : state) (done_task_ids : list Z),
          save_root_dir config = self_save_root_dir self →
          files s2 !! key = files s' !! key →
          collect_done_task_ids (glob_pkl (save_root_dir config) (files s2))
          = inr done_task_ids →
          ∃ s3,
            run_all_tasks config tasks subset_ids s2
            = run_tasks config
                (pending_tasks done_task_ids
                               (subset_tasks config tasks subset_ids)) s3
            ∧ self_task self
              ∉ pending_tasks done_task_ids
                              (subset_tasks config tasks subset_ids).
Proof.
  intros Hsolve. pose proof (solve_spec self s) as Hspec.
  destruct (py_range (self_num_paths self)) as [e|idxs].
  { rewrite Hspec in Hsolve. done. }
  exists idxs. split; [done|]. cbv zeta in *.
  destruct Hspec as (s0 & Hs0 & Hfiles & _). rewrite Hs0 in Hsolve.
  simplify_eq.
  assert (Hkey :
    files s' !! (self_save_root_dir self,
                 artifact_name (question_id (self_task self)))
    = Some (Pickle (omap kept
        (attempt_outcomes self (make_root_node self) idxs [] s)))).
  { rewrite Hfiles. apply lookup_insert_eq. }
  split; [exact Hkey|]. split.
  - intros Hnone. by rewrite Hkey, omap_kept_none.
  - intros config tasks subset_ids s2 ids Hdir Hsame Hc.
    pose proof (run_all_tasks_spec config tasks subset_ids s2) as Hrun.
    rewrite Hc in Hrun. destruct Hrun as (s3 & Hrun & _).
    exists s3. split; [done|].
    rewrite pending_tasks_elem. intros [_ Hnot]. apply Hnot.
    eapply artifact_is_done; [|exact Hc].
    rewrite Hdir, Hsame, Hkey. done.
Qed.

End RunnerProperties.

(** ** The self-consistency selector *)

Lemma Qcopp_lt_iff (a b : Qc) : (- a < - b)%Qc ↔ (b < a)%Qc.
Proof.
  rewrite !Qclt_nge. split; intros Hn Hle; apply Hn.
  - by apply Qcopp_le_compat.
  - apply Qcopp_le_compat in Hle. by rewrite !Qcopp_involutive in Hle.
Qed.

Lemma tuple_lt_true (x y : scored) :
  tuple_lt (sort_key x) (sort_key y) = true ↔ ranks_after x y.
Proof.
  unfold tuple_lt, sort_key, ranks_after. simpl.
  case_bool_decide as Heq; rewrite bool_decide_eq_true.
  - rewrite Qcopp_lt_iff. split; [by right|].
    intros [Hlt|[_ Hlt]]; [|done]. rewrite Heq in Hlt.
    exfalso. eapply Qclt_not_le; [exact Hlt|apply Qcle_refl].
  - split; [by left|]. by intros [Hlt|[Heq' _]].
Qed.

Lemma ranks_before_or_after (x y : scored) :
  ranks_before x y ↔ ¬ ranks_after x y.
Proof.
  unfold ranks_before, ranks_after. split.
  - intros [Hlt|[Heq Hle]] [Hlt'|[Heq' Hlt']].
    + eapply Qclt_not_le; [exact Hlt|]. by apply Qclt_le_weak.
    + rewrite Heq' in Hlt. eapply Qclt_not_le; [exact Hlt|apply Qcle_refl].
    + rewrite Heq in Hlt'. eapply Qclt_not_le; [exact Hlt'|apply Qcle_refl].
    + by eapply Qclt_not_le.
  - intros Hn. destruct (Qclt_le_dec y.1.2 x.1.2) as [Hlt|Hle]; [by left|].
    right. apply Qcle_lt_or_eq in Hle as [Hlt|Heq].
    + exfalso. apply Hn. by left.
    + split; [done|]. apply Qcnot_lt_le. intros Hlt. apply Hn. by right.
Qed.

Lemma tuple_lt_false (x y : scored) :
  tuple_lt (sort_key x) (sort_key y) = false ↔ ranks_before x y.
Proof.
  rewrite ranks_before_or_after, <- tuple_lt_true.
  symmetry. apply not_true_iff_false.
Qed.

Lemma ranks_after_before (x y : scored) : ranks_after x y → ranks_before y x.
Proof.
  intros [Hlt|[Heq Hlt]]; [by left|]. right. split; [done|].
  by apply Qclt_le_weak.
Qed.

Lemma ranks_before_refl (x : scored) : ranks_before x x.
Proof. right. split; [done|apply Qcle_refl]. Qed.

Lemma ranks_before_trans (x y z : scored) :
  ranks_before x y → ranks_before y z → ranks_before x z.
Proof.
  intros [Hxy|[Exy Hxy]] [Hyz|[Eyz Hyz]].
  - left. by eapply Qclt_trans.
  - left. by rewrite <- Eyz.
  - left. by rewrite Exy.
  - right. split; [congruence|]. by eapply Qcle_trans.
Qed.

Lemma insert_reverse_perm (x : scored) (l : list scored) :
  Permutation (insert_reverse x l) (x :: l).
Proof.
  induction l as [|y l IH]; simpl; [done|].
  destruct (tuple_lt _ _); [|done].
  rewrite IH. apply perm_swap.
Qed.

Lemma sort_reverse_perm (l : list scored) : Permutation (sort_reverse l) l.
Proof.
  induction l as [|x l IH]; simpl; [done|].
  rewrite insert_reverse_perm. by constructor.
Qed.

Lemma insert_reverse_sorted (x : scored) (l : list scored) :
  StronglySorted ranks_before l →
  StronglySorted ranks_before (insert_reverse x l).
Proof.
  induction 1 as [|y l Hs IH Hall]; simpl.
  - repeat constructor.
  - destruct (tuple_lt (sort_key x) (sort_key y)) eqn:Hlt.
    + constructor; [done|].
      rewrite insert_reverse_perm. constructor; [|done].
      by apply ranks_after_before, tuple_lt_true.
    + apply tuple_lt_false in Hlt. constructor.
      * by constructor.
      * constructor; [done|].
        eapply List.Forall_impl; [|exact Hall]. intros z Hz. simpl in Hz.
        by eapply ranks_before_trans.
Qed.

Lemma sort_reverse_sorted (l : list scored) :
  StronglySorted ranks_before (sort_reverse l).
Proof.
  induction l as [|x l IH]; simpl; [constructor|].
  by apply insert_reverse_sorted.
Qed.

(** The top of the ranking is the first entry, in the order of the
    input, among the best ones: what stands before it ranks strictly
    after it. *)
Lemma sort_reverse_head (l : list scored) :
  l ≠ [] →
  ∃ top rest before after,
    sort_reverse l = top :: rest
    ∧ l = before ++ top :: after
    ∧ Forall (λ y, ranks_after y top) before
    ∧ Forall (ranks_before top) after.
Proof.
  induction l as [|x l IH]; [done|]. intros _. simpl.
  destruct l as [|x' l'].
  { exists x, [], [], []. simpl. repeat split; constructor. }
  destruct IH as (top & rest & before & after & Hs & Hl & Hb & Ha); [done|].
  rewrite Hs. simpl.
  destruct (tuple_lt (sort_key x) (sort_key top)) eqn:Hlt.
  - exists top, (insert_reverse x rest), (x :: before), after.
    split; [done|]. split; [by rewrite Hl|]. split; [|done].
    constructor; [|done]. by apply tuple_lt_true.
  - apply tuple_lt_false in Hlt.
    exists x, (top :: rest), [], (x' :: l').
    split; [done|]. split; [done|]. split; [constructor|].
    rewrite Hl. apply Forall_app. split; [|constructor].
    + eapply List.Forall_impl; [|exact Hb]. intros z Hz. simpl in Hz.
      eapply ranks_before_trans; [exact Hlt|]. by apply ranks_after_before.
    + done.
    + eapply List.Forall_impl; [|exact Ha]. intros z Hz. simpl in Hz.
      by eapply ranks_before_trans.
Qed.

Section SelectionProperties.
Context `{Externals}.
Local Open Scope exn_scope.

Lemma groups_wf_nil (n : nat) : groups_wf n [].
Proof. split; constructor. Qed.

Lemma groups_wf_mono (n m : nat) (d : groups) :
  (n ≤ m)%nat → groups_wf n d → groups_wf m d.
Proof.
  intros Hle [Hnd Hall]. split; [done|].
  eapply List.Forall_impl; [|exact Hall]. intros g (Hne & Hs & Hb).
  repeat split; [done..|].
  eapply List.Forall_impl; [|exact Hb]. simpl. lia.
Qed.

Lemma group_append_keys (key : gset row) (idx : nat) (d : groups) :
  (group_append key idx d).*1
  = if bool_decide (key ∈ d.*1) then d.*1 else d.*1 ++ [key].
Proof.
  induction d as [|[k l] d IH]; [done|]. simpl group_append.
  destruct (decide (k = key)) as [->|Hne]; rewrite !fmap_cons; simpl fst.
  - rewrite bool_decide_eq_true_2; [done|]. apply elem_of_cons. by left.
  - rewrite IH. case_bool_decide as Hin.
    + rewrite bool_decide_eq_true_2; [done|]. apply elem_of_cons. by right.
    + rewrite bool_decide_eq_false_2; [done|].
      intros [?|?]%elem_of_cons; congruence.
Qed.

Lemma sorted_snoc (l : list nat) (idx : nat) :
  StronglySorted lt l → Forall (λ i, i < idx)%nat l →
  StronglySorted lt (l ++ [idx]).
Proof.
  induction 1 as [|x l Hs IH Hall]; intros Hb; simpl.
  - repeat constructor.
  - apply List.Forall_cons_iff in Hb as [Hx Hb]. constructor; [by apply IH|].
    apply Forall_app. split; [done|]. by repeat constructor.
Qed.

Lemma group_append_wf (key : gset row) (idx : nat) (d : groups) :
  groups_wf idx d → groups_wf (S idx) (group_append key idx d).
Proof.
  intros [Hnd Hall]. split.
  - rewrite group_append_keys. case_bool_decide as Hin; [done|].
    apply list.NoDup_app. split; [done|]. split; [|apply NoDup_singleton].
    intros k Hk ->%list_elem_of_singleton. done.
  - clear Hnd. induction Hall as [|[k l] d (Hne & Hs & Hb) Hall IH]; simpl.
    + constructor; [|constructor]. simpl. split; [done|].
      split; [apply SSorted_cons; constructor|].
      constructor; [lia|constructor].
    + destruct (decide (k = key)) as [->|Hk].
      * constructor.
        -- simpl in *. split; [by destruct l|].
           split; [by apply sorted_snoc|].
           apply Forall_app. split.
           ++ eapply List.Forall_impl; [|exact Hb]. simpl. lia.
           ++ constructor; [lia|constructor].
        -- eapply List.Forall_impl; [|exact Hall].
           intros g (? & ? & Hg). repeat split; [done..|].
           eapply List.Forall_impl; [|exact Hg]. simpl. lia.
      * constructor; [|done]. simpl in *. repeat split; [done..|].
        eapply List.Forall_impl; [|exact Hb]. simpl. lia.
Qed.

Lemma group_append_in_group
    (key : gset row) (idx : nat) (d : groups) (k : gset row) (i : nat) :
  in_group (group_append key idx d) k i
  ↔ in_group d k i ∨ (k = key ∧ i = idx).
Proof.
  unfold in_group. induction d as [|[k' l'] d IH]; simpl.
  - setoid_rewrite list_elem_of_singleton. setoid_rewrite elem_of_nil.
    split.
    + intros (l & [= -> ->] & Hi). apply list_elem_of_singleton in Hi.
      by right.
    + intros [(l & [] & _)|[-> ->]]. exists [idx].
      split; [done|]. by apply list_elem_of_singleton.
  - destruct (decide (k' = key)) as [->|Hne];
      setoid_rewrite elem_of_cons.
    + split.
      * intros (l & [[= -> ->]|Hin] & Hi).
        -- apply elem_of_app in Hi as [Hi|Hi].
           ++ left. exists l'. split; [by left|done].
           ++ apply list_elem_of_singleton in Hi. by right.
        -- left. exists l. split; [by right|done].
      * intros [(l & [[= -> ->]|Hin] & Hi)|[-> ->]].
        -- exists (l' ++ [idx]). split; [by left|]. apply elem_of_app. by left.
        -- exists l. split; [by right|done].
        -- exists (l' ++ [idx]). split; [by left|].
           apply elem_of_app. right. by apply list_elem_of_singleton.
    + split.
      * intros (l & [[= -> ->]|Hin] & Hi).
        -- left. exists l'. split; [by left|done].
        -- destruct (proj1 IH) as [(l0 & Hin0 & Hi0)|Hnew];
             [by eauto| |by right].
           left. exists l0. split; [by right|done].
      * intros [(l & [[= -> ->]|Hin] & Hi)|Hnew].
        -- exists l'. split; [by left|done].
        -- destruct (proj2 IH) as (l0 & Hin0 & Hi0); [left; by eauto|].
           exists l0. split; [by right|done].
        -- destruct (proj2 IH) as (l0 & Hin0 & Hi0); [by right|].
           exists l0. split; [by right|done].
Qed.

Lemma final_sql_of_last (p : list MCTSNode) :
  final_sql_of p = match list.last p with
                   | Some n => inr (final_sql_query n)
                   | None => inl Py.IndexError
                   end.
Proof.
  unfold final_sql_of, bind_exn. rewrite index_last.
  by destruct (list.last p).
Qed.

(** The grouping loop keeps the groups well formed, and returns only if
    every path has a last node. *)
Lemma group_results_wf
    (db_path : string) (idx : nat) (results : list (list MCTSNode))
    (acc g : groups * groups) :
  group_results db_path idx results acc = inr g →
  groups_wf idx acc.1 → groups_wf idx acc.2 →
  groups_wf (idx + length results) g.1
  ∧ groups_wf (idx + length results) g.2
  ∧ Forall (λ p, is_Some (list.last p)) results.
Proof.
  revert idx acc. induction results as [|p rest IH]; intros idx acc; simpl.
  - intros [= <-] H1 H2. rewrite Nat.add_0_r.
    split; [done|]. split; [done|constructor].
  - rewrite final_sql_of_last. destruct (list.last p) as [n|] eqn:Hlast;
      simpl; [|done].
    intros Hg H1 H2. apply IH in Hg as (Hg1 & Hg2 & Hall).
    + replace (idx + S (length rest))%nat with (S idx + length rest)%nat
        by lia.
      split; [done|]. split; [done|].
      constructor; [by rewrite Hlast|done].
    + repeat case_match; simpl;
        try apply group_append_wf; try done;
        by eapply groups_wf_mono; [|eassumption]; lia.
    + repeat case_match; simpl;
        try apply group_append_wf; try done;
        by eapply groups_wf_mono; [|eassumption]; lia.
Qed.

Lemma member_nil db_path valid_only k idx i :
  ¬ member db_path valid_only k idx [] i.
Proof. by intros (p & _ & Hp & _). Qed.

Lemma member_cons db_path valid_only k idx (p : list MCTSNode) rest i :
  member db_path valid_only k idx (p :: rest) i
  ↔ (i = idx ∧ counts_for db_path valid_only k p)
    ∨ member db_path valid_only k (S idx) rest i.
Proof.
  unfold member. split.
  - intros (q & Hle & Hq & Hc). destruct (decide (i = idx)) as [->|Hne].
    + left. rewrite Nat.sub_diag in Hq. simpl in Hq. by simplify_eq.
    + right. exists q. split; [lia|]. split; [|done].
      replace (i - idx)%nat with (S (i - S idx)) in Hq by lia. done.
  - intros [[-> Hc]|(q & Hle & Hq & Hc)].
    + exists p. split; [done|]. by rewrite Nat.sub_diag.
    + exists q. split; [lia|]. split; [|done].
      replace (i - idx)%nat with (S (i - S idx)) by lia. done.
Qed.

Lemma counts_for_last db_path valid_only k (p : list MCTSNode) (n : MCTSNode) :
  list.last p = Some n →
  let a := cached_execute_sql_with_timeout db_path (final_sql_query n) in
  counts_for db_path valid_only k p
  ↔ succeeded a = true
    ∧ (valid_only = true → is_valid_execution_result a = true)
    ∧ list_to_set (result a) = k.
Proof.
  intros Hlast a. unfold counts_for, answer_of. rewrite Hlast. simpl.
  split.
  - intros (a' & Ha & Hrest). by simplify_eq.
  - intros Hrest. by exists a.
Qed.

(** Which indices the grouping loop puts into which group: a path is in
    the group of its row set if its query succeeded, and it is in the
    primary group only if the result is valid. *)
Lemma group_results_in_group
    (db_path : string) (idx : nat) (results : list (list MCTSNode))
    (acc g : groups * groups) (k : gset row) (i : nat) :
  group_results db_path idx results acc = inr g →
  (in_group g.1 k i
   ↔ in_group acc.1 k i ∨ member db_path true k idx results i)
  ∧ (in_group g.2 k i
     ↔ in_group acc.2 k i ∨ member db_path false k idx results i).
Proof.
  revert idx acc. induction results as [|p rest IH]; intros idx acc; simpl.
  - intros [= <-].
    pose proof (member_nil db_path true k idx i).
    pose proof (member_nil db_path false k idx i). tauto.
  - rewrite final_sql_of_last. destruct (list.last p) as [n|] eqn:Hlast;
      simpl; [|done].
    intros Hg. apply IH in Hg as [Hg1 Hg2]. clear IH.
    rewrite Hg1, Hg2, !member_cons. clear Hg1 Hg2.
    rewrite !(counts_for_last _ _ _ _ _ Hlast). cbv zeta. unfold succeeded.
    destruct (String.eqb (result_type_value _) "success");
      [destruct (is_valid_execution_result _)|];
      simpl; rewrite ?group_append_in_group; split; split;
      intros; intuition congruence.
Qed.

Lemma total_size_cons (g : gset row * list nat) (d : groups) :
  total_size (g :: d) = Z.of_nat (length g.2) + total_size d.
Proof. done. Qed.

Lemma total_size_nonneg (d : groups) : 0 ≤ total_size d.
Proof.
  induction d as [|g d IH]; [done|]. rewrite total_size_cons. lia.
Qed.

Lemma total_size_pos (n : nat) (d : groups) :
  d ≠ [] → groups_wf n d → 0 < total_size d.
Proof.
  destruct d as [|g d]; [done|]. intros _ [_ Hall].
  apply List.Forall_cons_iff in Hall as [(Hne & _) _].
  rewrite total_size_cons. pose proof (total_size_nonneg d).
  destruct g.2; [done|]. simpl. lia.
Qed.

Lemma sorted_head_min (x : nat) (l : list nat) :
  StronglySorted lt (x :: l) → ∀ i, i ∈ x :: l → (x ≤ i)%nat.
Proof.
  intros Hs i Hin. apply StronglySorted_inv in Hs as [_ Hall].
  apply elem_of_cons in Hin as [->|Hin]; [lia|].
  rewrite List.Forall_forall in Hall. apply list_elem_of_In, Hall in Hin. lia.
Qed.

Lemma score_group_spec
    (db_path : string) (results : list (list MCTSNode)) (d : groups)
    (g : gset row * list nat) :
  total_size d ≠ 0 →
  Forall (λ p, is_Some (list.last p)) results →
  g.2 ≠ [] → StronglySorted lt g.2 →
  Forall (λ i, i < length results)%nat g.2 →
  ∃ e, score_group db_path results d g.2 = inr e
       ∧ entry_for db_path results d g e.
Proof.
  intros Htot Hlast Hne Hs Hb. unfold score_group.
  rewrite (proj2 (Z.eqb_neq _ _) Htot).
  destruct g.2 as [|first l] eqn:Hg; [done|]. simpl.
  apply List.Forall_cons_iff in Hb as [Hfirst _].
  destruct (lookup_lt_is_Some_2 results first Hfirst) as [p Hp].
  unfold index_nat at 1. rewrite Hp. simpl.
  rewrite final_sql_of_last.
  rewrite List.Forall_forall in Hlast.
  destruct (Hlast p) as [n Hn]; [by eapply list_elem_of_In, list_elem_of_lookup_2|].
  rewrite Hn. simpl. eexists. split; [done|].
  unfold entry_for. rewrite Hg. simpl.
  split; [done|]. split; [by apply sorted_head_min|]. split; [done|].
  by exists p, n.
Qed.

Lemma score_groups_spec
    (db_path : string) (results : list (list MCTSNode)) (d items : groups) :
  total_size d ≠ 0 →
  Forall (λ p, is_Some (list.last p)) results →
  Forall (λ g : gset row * list nat,
            g.2 ≠ [] ∧ StronglySorted lt g.2
            ∧ Forall (λ i, i < length results)%nat g.2) items →
  ∃ entries, score_groups db_path results d items = inr entries
             ∧ Forall2 (entry_for db_path results d) items entries.
Proof.
  intros Htot Hlast. induction 1 as [|[k l] items (Hne & Hs & Hb) Hall IH];
    simpl.
  - exists []. split; [done|constructor].
  - destruct (score_group_spec db_path results d (k, l)) as (e & He & Hentry);
      [done..|].
    destruct IH as (entries & Hes & Hentries). simpl in He.
    rewrite He, Hes. simpl. exists (e :: entries). split; [done|].
    by constructor.
Qed.

Lemma select_from_groups_spec
    (db_path : string) (results : list (list MCTSNode)) (d : groups) :
  d ≠ [] → groups_wf (length results) d →
  Forall (λ p, is_Some (list.last p)) results →
  ∃ sql, select_from_groups db_path results d = inr sql
         ∧ selects db_path results d sql.
Proof.
  intros Hne Hwf Hlast.
  destruct (score_groups_spec db_path results d d) as (entries & Hsc & Hent).
  { pose proof (total_size_pos _ _ Hne Hwf). lia. }
  { done. }
  { apply Hwf. }
  assert (Hentries : entries ≠ []).
  { intros ->. apply Forall2_nil_inv_r in Hent. done. }
  destruct (sort_reverse_head entries Hentries)
    as (top & rest & before & after & Hsort & Hsplit & Hbefore & _).
  assert (Htop : top ∈ entries).
  { rewrite Hsplit. apply elem_of_app. right. apply elem_of_cons. by left. }
  destruct (proj1 (list_elem_of_lookup _ _) Htop) as [j Hj].
  destruct (Forall2_lookup_r _ _ _ _ _ Hent Hj)
    as (g & _ & _ & _ & _ & p & n & Hp & Hn & _).
  unfold select_from_groups. rewrite Hsc. simpl. rewrite Hsort. simpl.
  unfold index_nat. rewrite Hp. simpl. rewrite final_sql_of_last, Hn.
  eexists. split; [done|].
  exists entries, top, rest, before, after.
  split; [done|]. split; [by rewrite <- Hsort; apply sort_reverse_perm|].
  split; [by rewrite <- Hsort; apply sort_reverse_sorted|].
  split; [done|]. split; [done|]. by exists p, n.
Qed.

(** What the selector returns for a non-empty list of paths, from the
    two partitions. *)
Lemma select_final_sql_query_spec
    (results_file_path db_root_dir : string) (question_id : Z)
    (results : list (list MCTSNode))
    (first_path : list MCTSNode) (first_node : MCTSNode)
    (primary fallback : groups) :
  question_id_of results_file_path = inr question_id →
  pickle_load results_file_path = Some results →
  results !! 0%nat = Some first_path →
  first_path !! 0%nat = Some first_node →
  group_results (sqlite_path db_root_dir (db_id first_node)) 0 results
                ([], [])
  = inr (primary, fallback) →
  select_final_sql_query results_file_path db_root_dir
  = let? sql :=
      match primary, fallback with
      | [], [] => inr (Some "ERROR")
      | [], _ :: _ =>
          select_from_groups (sqlite_path db_root_dir (db_id first_node))
                             results fallback
      | _ :: _, _ =>
          select_from_groups (sqlite_path db_root_dir (db_id first_node))
                             results primary
      end in
    inr {| item_question_id := question_id;
           item_db_id := db_id first_node;
           item_sql := sql |}.
Proof.
  intros Hid Hload Hfirst Hnode Hgroups. unfold select_final_sql_query.
  rewrite Hid, Hload.
  destruct results as [|r0 rs]; [done|].
  cbn -[group_results select_from_groups sqlite_path].
  simpl in Hfirst. simplify_eq. unfold index_nat. rewrite Hnode.
  cbn -[group_results select_from_groups sqlite_path].
  rewrite Hgroups.
  destruct primary, fallback; reflexivity.
Qed.

(** C1.  Self-consistency selection over a non-empty primary partition.
    The selector returns the task identifier, the database identifier of
    the first node of the first path, and the SQL that the scoring and
    ranking rule selects over the primary groups: every group has one
    entry, whose representative is the first-seen (least) index of the
    group, whose score is the size of the group divided by the sum of
    the sizes of all primary groups, and whose latency is the one
    measured for the final SQL of the representative; the entries are
    ranked by score descending, then latency ascending; and the SQL is
    the final SQL of the representative of the top-ranked entry. *)
Theorem select_over_primary
    (results_file_path db_root_dir : string) (question_id : Z)
    (results : list (list MCTSNode))
    (first_path : list MCTSNode) (first_node : MCTSNode)
    (primary fallback : groups) :
  question_id_of results_file_path = inr question_id →
  pickle_load results_file_path = Some results →
  results !! 0%nat = Some first_path →
  first_path !! 0%nat = Some first_node →
  group_results (sqlite_path db_root_dir (db_id first_node)) 0 results
                ([], [])
  = inr (primary, fallback) →
  primary ≠ [] →
  ∃ sql,
    select_final_sql_query results_file_path db_root_dir
    = inr {| item_question_id := question_id;
             item_db_id := db_id first_node;
             item_sql := sql |}
    ∧ selects (sqlite_path db_root_dir (db_id first_node)) results
              primary sql.
Proof.
  intros Hid Hload Hfirst Hnode Hgroups Hne.
  rewrite (select_final_sql_query_spec _ _ _ _ _ _ _ _
             Hid Hload Hfirst Hnode Hgroups).
  destruct (group_results_wf _ _ _ _ _ Hgroups)
    as (Hwf1 & _ & Hlast); [apply groups_wf_nil..|].
  destruct (select_from_groups_spec
              (sqlite_path db_root_dir (db_id first_node)) results primary)
    as (sql & Hsel & Hsql); [done..|].
  exists sql. split; [|done].
  destruct primary; [done|]. by rewrite Hsel.
Qed.

(** C4, as the code has it.  When both partitions are empty the selector
    returns the marker ["ERROR"]; the database identifier is the default
    ["financial"] when no paths were persisted, and the database
    identifier of the first node of the first path otherwise. *)
Theorem select_error_marker
    (results_file_path db_root_dir : string) (question_id : Z) :
  question_id_of results_file_path = inr question_id →
  (pickle_load results_file_path = None
   ∨ pickle_load results_file_path = Some [] →
   select_final_sql_query results_file_path db_root_dir
   = inr {| item_question_id := question_id;
            item_db_id := "financial";
            item_sql := Some "ERROR" |})
  ∧ (∀ (results : list (list MCTSNode))
       (first_path : list MCTSNode) (first_node : MCTSNode),
       pickle_load results_file_path = Some results →
       results !! 0%nat = Some first_path →
       first_path !! 0%nat = Some first_node →
       group_results (sqlite_path db_root_dir (db_id first_node)) 0 results
                     ([], [])
       = inr ([], []) →
       select_final_sql_query results_file_path db_root_dir
       = inr {| item_question_id := question_id;
                item_db_id := db_id first_node;
                item_sql := Some "ERROR" |}).
Proof.
  intros Hid. split.
  - unfold select_final_sql_query. rewrite Hid. simpl.
    by intros [->| ->].
  - intros results first_path first_node Hload Hfirst Hnode Hgroups.
    by rewrite (select_final_sql_query_spec _ _ _ _ _ _ _ _
                  Hid Hload Hfirst Hnode Hgroups).
Qed.

(** C5.  The fallback partition holds the paths whose query succeeded,
    the primary partition those among them whose result is valid.  When
    the primary partition is non-empty the selector returns what the
    rule selects over it, whatever the fallback partition holds; when
    the primary partition is empty and the fallback partition is not,
    it returns what the same rule selects over the fallback partition. *)
Theorem select_over_fallback
    (results_file_path db_root_dir : string) (question_id : Z)
    (results : list (list MCTSNode))
    (first_path : list MCTSNode) (first_node : MCTSNode)
    (primary fallback : groups) :
  question_id_of results_file_path = inr question_id →
  pickle_load results_file_path = Some results →
  results !! 0%nat = Some first_path →
  first_path !! 0%nat = Some first_node →
  let db_path := sqlite_path db_root_dir (db_id first_node) in
  group_results db_path 0 results ([], []) = inr (primary, fallback) →
  (∀ k i, (in_group primary k i ↔ member db_path true k 0 results i)
          ∧ (in_group fallback k i ↔ member db_path false k 0 results i))
  ∧ (primary ≠ [] →
     select_final_sql_query results_file_path db_root_dir
     = let? sql := select_from_groups db_path results primary in
       inr {| item_question_id := question_id;
              item_db_id := db_id first_node;
              item_sql := sql |})
  ∧ (primary = [] → fallback ≠ [] →
     ∃ sql,
       select_final_sql_query results_file_path db_root_dir
       = inr {| item_question_id := question_id;
                item_db_id := db_id first_node;
                item_sql := sql |}
       ∧ selects db_path results fallback sql).
Proof.
  intros Hid Hload Hfirst Hnode db_path Hgroups.
  rewrite (select_final_sql_query_spec _ _ _ _ _ _ _ _
             Hid Hload Hfirst Hnode Hgroups). fold db_path.
  split; [|split].
  - intros k i.
    destruct (group_results_in_group _ _ _ _ _ k i Hgroups) as [H1 H2].
    simpl in H1, H2. rewrite H1, H2. unfold in_group.
    split; (split; [intros [(l & Hin & _)|Hm]; [by apply elem_of_nil in Hin|done]
                   |by right]).
  - intros Hne. by destruct primary.
  - intros -> Hne.
    destruct (group_results_wf _ _ _ _ _ Hgroups)
      as (_ & Hwf2 & Hlast); [apply groups_wf_nil..|].
    destruct (select_from_groups_spec db_path results fallback)
      as (sql & Hsel & Hsql); [done..|].
    exists sql. split; [|done].
    destruct fallback; [done|]. by rewrite Hsel.
Qed.

End SelectionProperties.

(** * Further properties *)

(** ** The selector *)

Section MoreSelectorProperties.
Context `{Externals}.

(** X1.  When a model is configured and its response holds a structured
    block with an integer index [k] between 1 and the number of legal
    actions (a block without the key counts as index 1), the selector
    returns the [k]-th legal action, after printing the prompt, the
    reasoning and the description of the action. *)
Theorem select_action_honours_choice
    (llm_kwargs : gmap string Py.value)
    (node : MCTSNode) (valid_actions : list MCTSAction) (s : state)
    (response : string) (others : list string) (w' : W)
    (block : string) (d : list (string * Py.value)) (k : Z) :
  Py.truthy (kwargs_get llm_kwargs "model" Py.PNone) = true →
  model_call llm_kwargs (build_prompt node valid_actions) (world s)
  = (inr (response :: others), w') →
  re_search_json_block response = Some block →
  json_loads block = Some (Py.PDict d) →
  Py.assoc_get "selected_action_number" d (Py.PInt 1) = Py.PInt k →
  1 ≤ k ≤ Z.of_nat (length valid_actions) →
  ∃ a,
    valid_actions !! Z.to_nat (k - 1) = Some a
    ∧ select_action llm_kwargs node valid_actions s
      = (Ret a,
         add_output
           (add_output
              (add_output (set_world s w')
                          (LogPrompt (build_prompt node valid_actions)))
              (LogReasoning (Py.assoc_get "reasoning" d
                                          (Py.PStr EmptyString))))
           (LogSelected (get_action_description a))).
Proof.
  intros Hmodel Hcall Hblock Hjson Hk Hrange.
  destruct (lookup_lt_is_Some_2 valid_actions (Z.to_nat (k - 1))) as [a Ha];
    [lia|].
  exists a. split; [done|].
  unfold select_action, try_except, bind, external, print, lift, ret, raise.
  rewrite Hmodel. simpl. rewrite Hcall. simpl. rewrite Hblock, Hjson. simpl.
  rewrite Hk. simpl.
  replace ((0 <=? k - 1) && (k - 1 <? Z.of_nat (length valid_actions)))
    with true
    by (symmetry; apply andb_true_iff; rewrite Z.leb_le, Z.ltb_lt; lia).
  simpl. unfold Py.index.
  replace (k - 1 <? 0) with false by (symmetry; apply Z.ltb_ge; lia).
  replace ((0 <=? k - 1) && (k - 1 <? Z.of_nat (length valid_actions)))
    with true
    by (symmetry; apply andb_true_iff; rewrite Z.leb_le, Z.ltb_lt; lia).
  rewrite Ha. done.
Qed.

(** X2.  The heuristic returns one of the legal actions whenever there
    is one, and raises [IndexError] on an empty list of legal actions. *)
Theorem default_action_selection_member
    (node : MCTSNode) (valid_actions : list MCTSAction) :
  (valid_actions ≠ [] →
   ∃ a, _default_action_selection node valid_actions = inr a
        ∧ a ∈ valid_actions)
  ∧ _default_action_selection node [] = inl Py.IndexError.
Proof.
  split; [apply default_action_selection_total|].
  unfold _default_action_selection.
  rewrite !bool_decide_eq_false_2 by apply not_elem_of_nil. done.
Qed.

(** X3.  The selector writes no file, only adds to the output, does not
    run out of recursion bound, and calls the model at most once: the
    outside world afterwards is the one before, or the one that the
    single call of the model leaves. *)
Theorem select_action_frame
    (llm_kwargs : gmap string Py.value)
    (node : MCTSNode) (valid_actions : list MCTSAction)
    (s s' : state) (r : outcome MCTSAction) :
  select_action llm_kwargs node valid_actions s = (r, s') →
  files s' = files s
  ∧ stdout s `prefix_of` stdout s'
  ∧ r ≠ OutOfFuel
  ∧ (world s' = world s
     ∨ world s'
       = (model_call llm_kwargs (build_prompt node valid_actions)
                     (world s)).2).
Proof.
  intros Hsel.
  destruct (select_action_quiet llm_kwargs node valid_actions s r s' Hsel)
    as [Hf Hp].
  pose proof (select_action_productive llm_kwargs node valid_actions s)
    as Hprod.
  rewrite Hsel in Hprod. simpl in Hprod.
  split; [done|]. split; [done|]. split; [done|].
  revert Hsel.
  unfold select_action, try_except, bind, external, print, lift, ret, raise.
  destruct (negb (Py.truthy (kwargs_get llm_kwargs "model" Py.PNone))).
  { simpl. destruct (_default_action_selection node valid_actions);
      intros [= <- <-]; by left. }
  destruct (model_call llm_kwargs (build_prompt node valid_actions)
                       (world s)) as [[e|responses] w'] eqn:Hcall; simpl.
  { destruct (_default_action_selection node valid_actions);
      intros [= <- <-]; by right. }
  destruct (_default_action_selection node valid_actions);
    repeat (case_match; simpl in *; simplify_eq);
    intros; simplify_eq; by right.
Qed.

(** X4.  When no model is configured (the key is missing, or its value
    is empty) the model is not called: the selector prints the error and
    returns what the heuristic returns. *)
Theorem select_action_without_model
    (llm_kwargs : gmap string Py.value)
    (node : MCTSNode) (valid_actions : list MCTSAction) (s : state) :
  Py.truthy (kwargs_get llm_kwargs "model" Py.PNone) = false →
  select_action llm_kwargs node valid_actions s
  = lift (_default_action_selection node valid_actions)
         (add_output s (LogSelectionError Py.ValueError)).
Proof.
  intros Hmodel.
  unfold select_action, try_except, bind, external, print, lift, ret, raise.
  rewrite Hmodel. simpl.
  by destruct (_default_action_selection node valid_actions).
Qed.

(** X22.  Every action of the catalogue has a description of its own:
    the fallback to the class name is never taken, and two different
    actions never share a description, so a numbered option of the
    prompt names one action. *)
Theorem get_action_description_distinct (a b : MCTSAction) :
  get_action_description a = action_descriptions a
  ∧ get_action_description a ≠ class_name a
  ∧ (get_action_description a = get_action_description b → a = b).
Proof. by destruct a, b. Qed.

End MoreSelectorProperties.

(** ** The generator and the solver *)

Section MoreSolverProperties.
Context `{Externals}.
Local Open Scope py_scope.

Lemma loop_invariant_advance
    (self : LLMGuidedSolver) (root_node child : MCTSNode) (st : loop_state) :
  loop_invariant root_node st →
  loop_condition self st = true →
  loop_invariant root_node
    {| current := child; path := path st ++ [child]; step := step st + 1 |}.
Proof.
  intros (Hhead & Hlast & Hlen & Hterm) Hc.
  apply loop_condition_true in Hc as (Hnt & _ & _).
  unfold loop_invariant. simpl. rewrite length_app. simpl.
  split; [|split; [|split]].
  - destruct (path st); [done|]. done.
  - apply last_snoc.
  - lia.
  - intros i n Hi Hlt.
    assert (i < length (path st))%nat as Hi' by lia.
    rewrite lookup_app_l in Hi by done.
    destruct (decide (S i = length (path st))) as [Heq|Hne].
    + rewrite last_lookup in Hlast.
      replace (pred (length (path st))) with i in Hlast by lia.
      rewrite Hi in Hlast. by simplify_eq.
    + apply (Hterm i n Hi). lia.
Qed.

Lemma generation_loop_invariant
    (self : LLMGuidedSolver) (root_node : MCTSNode) (fuel : nat)
    (st st' : loop_state) (s s' : state) :
  loop_invariant root_node st →
  generation_loop self fuel st s = (Ret st', s') →
  loop_invariant root_node st'
  ∧ step st' ≤ Z.max (step st) (self_max_steps self).
Proof.
  revert st s. induction fuel as [|fuel IH]; intros st s Hinv; simpl.
  - destruct (loop_condition self st); [done|].
    intros [= <- <-]. split; [done|lia].
  - destruct (loop_condition self st) eqn:Hc;
      [|intros [= <- <-]; split; [done|lia]].
    destruct (get_valid_action_space_for_node (current st)) as [|v l];
      [intros [= <- <-]; split; [done|lia]|].
    unfold bind at 1.
    destruct (select_action _ _ _ s) as [[a|e|] s1]; [|done..].
    unfold bind at 1.
    destruct (external _ s1) as [[[|child others]|e|] s2]; [| |done..].
    + intros [= <- <-]. split; [done|lia].
    + intros Hloop. apply IH in Hloop as [Hinv' Hstep].
      * split; [done|]. simpl in Hstep.
        apply loop_condition_true in Hc as (_ & Hs & _). lia.
      * by eapply loop_invariant_advance.
Qed.

(** The shape of a path that the generator returns. *)
Lemma generate_one_path_shape_aux
    (self : LLMGuidedSolver) (root_node : MCTSNode)
    (s s' : state) (p : list MCTSNode) :
  generate_one_path self root_node s = (Ret p, s') →
  head p = Some root_node
  ∧ Z.of_nat (length p) ≤ Z.max 0 (self_max_steps self) + 2
  ∧ ∀ (i : nat) (n : MCTSNode),
      p !! i = Some n → (S i < length p)%nat → is_terminal n = false.
Proof.
  unfold generate_one_path, bind at 1.
  destruct (run_generation_loop self _ s) as [[st|e|] s1] eqn:Hloop;
    [|done..].
  unfold run_generation_loop in Hloop.
  apply (generation_loop_invariant self root_node) in Hloop
    as [(Hhead & Hlast & Hlen & Hterm) Hstep];
    [|by repeat split; intros [|i] n Hi Hlt; simpl in *; try lia].
  simpl in Hstep.
  assert (Hkeep :
    head (path st) = Some root_node
    ∧ Z.of_nat (length (path st)) ≤ Z.max 0 (self_max_steps self) + 2
    ∧ ∀ (i : nat) (n : MCTSNode),
        path st !! i = Some n → (S i < length (path st))%nat →
        is_terminal n = false).
  { split; [done|]. split; [lia|done]. }
  destruct (is_terminal (current st)) eqn:Hcur; simpl;
    [by intros [= <- <-]|].
  case_bool_decide; [|by intros [= <- <-]].
  unfold bind, external.
  destruct (create_children_nodes _ _ _ _) as [[e|[|end_node others]] w'];
    [done|by intros [= <- <-]|].
  intros [= <- <-]. rewrite length_app. simpl.
  split; [by destruct (path st)|]. split; [lia|].
  intros i n Hi Hlt.
  assert (i < length (path st))%nat as Hi' by lia.
  rewrite lookup_app_l in Hi by done.
  destruct (decide (S i = length (path st))) as [Heq|Hne].
  - rewrite last_lookup in Hlast.
    replace (pred (length (path st))) with i in Hlast by lia.
    rewrite Hi in Hlast. by simplify_eq.
  - apply (Hterm i n Hi). lia.
Qed.

(** X5.  The shape of a generated path.  A path that
    [generate_one_path] returns starts with the root node, has at most
    [max_steps + 2] nodes (the root, one node per step, and the node of
    the forced closure), and none of its nodes before the last one is
    terminal. *)
Theorem generate_one_path_shape
    (self : LLMGuidedSolver) (root_node : MCTSNode)
    (s s' : state) (p : list MCTSNode) :
  generate_one_path self root_node s = (Ret p, s') →
  head p = Some root_node
  ∧ Z.of_nat (length p) ≤ Z.max 0 (self_max_steps self) + 2
  ∧ ∀ (i : nat) (n : MCTSNode),
      p !! i = Some n → (S i < length p)%nat → is_terminal n = false.
Proof. apply generate_one_path_shape_aux. Qed.

(** X6.  A value of [num_paths] that is not an integer makes [solve]
    raise [TypeError] before any attempt: nothing is printed, written or
    asked of the model. *)
Theorem solve_rejects_non_integer (self : LLMGuidedSolver) (s : state) :
  (∀ z, self_num_paths self ≠ Py.PInt z) →
  (∀ b, self_num_paths self ≠ Py.PBool b) →
  solve self s = (Raise Py.TypeError, s).
Proof.
  intros Hz Hb. unfold solve, bind at 1.
  destruct (self_num_paths self) as [|b|z| | | | |]; try done.
  - by destruct (Hb b).
  - by destruct (Hz z).
Qed.

(** X7.  With [num_paths] zero or negative [solve] makes no attempt and
    no external call, and persists the empty list. *)
Theorem solve_without_attempts
    (self : LLMGuidedSolver) (n : Z) (s : state) :
  self_num_paths self = Py.PInt n → n ≤ 0 →
  ∃ s',
    solve self s = (Ret tt, s')
    ∧ world s' = world s
    ∧ files s'
      = <[(self_save_root_dir self,
           artifact_name (question_id (self_task self)))
          := Pickle []]> (files s)
    ∧ stdout s'
      = stdout s
        ++ [LogSeparator;
            LogTaskCompleted (question_id (self_task self));
            LogGenerated 0;
            LogSaving (self_save_root_dir self)
                      (artifact_name (question_id (self_task self)));
            LogSeparator].
Proof.
  intros Hn Hle. unfold solve, bind at 1. rewrite Hn. simpl.
  replace (Z.to_nat n) with 0%nat by lia. simpl.
  eexists. split; [reflexivity|]. simpl. split; [done|]. split; [done|].
  by rewrite <- !(assoc_L (++)).
Qed.

Lemma omap_kept_length (outcomes : list (outcome (list MCTSNode))) :
  (length (omap kept outcomes) ≤ length outcomes)%nat.
Proof.
  induction outcomes as [|r rest IH]; [done|]. cbn.
  destruct (kept r); cbn; lia.
Qed.

(** Every outcome of an attempt is an outcome of [generate_one_path]
    from the root. *)
Lemma attempt_outcomes_elem
    (self : LLMGuidedSolver) (root_node : MCTSNode)
    (path_indices : list Z) (paths : list (list MCTSNode)) (s : state)
    (r : outcome (list MCTSNode)) :
  r ∈ attempt_outcomes self root_node path_indices paths s →
  ∃ s0, r = (generate_one_path self root_node s0).1.
Proof.
  revert paths s. induction path_indices as [|i rest IH]; intros paths s;
    simpl.
  - by intros Hin%elem_of_nil.
  - intros [->|Hin]%elem_of_cons; [by exists s|].
    destruct (solve_attempt _ _ _ _ _) as [[?|?|] ?]; by eapply IH.
Qed.

(** X8.  What [solve] persists.  When [solve] returns normally the
    artifact of its task holds at most [num_paths] paths, and each of
    them starts with the root node of the task, ends in a terminal node
    and has at most [max_steps + 2] nodes. *)
Theorem solve_persists_complete_paths
    (self : LLMGuidedSolver) (s s' : state) :
  solve self s = (Ret tt, s') →
  ∃ paths path_indices,
    files s' !! (self_save_root_dir self,
                 artifact_name (question_id (self_task self)))
    = Some (Pickle paths)
    ∧ py_range (self_num_paths self) = inr path_indices
    ∧ (length paths ≤ length path_indices)%nat
    ∧ ∀ p, p ∈ paths →
           head p = Some (make_root_node self)
           ∧ path_is_terminal p = true
           ∧ Z.of_nat (length p) ≤ Z.max 0 (self_max_steps self) + 2.
Proof.
  intros Hsolve. pose proof (solve_spec self s) as Hspec.
  destruct (py_range (self_num_paths self)) as [e|idxs].
  { rewrite Hspec in Hsolve. done. }
  cbv zeta in Hspec. destruct Hspec as (s0 & Hs0 & Hfiles & _).
  rewrite Hs0 in Hsolve. simplify_eq.
  eexists _, idxs. split; [rewrite Hfiles; apply lookup_insert_eq|].
  split; [done|]. split.
  - etrans; [apply omap_kept_length|]. by rewrite attempt_outcomes_length.
  - intros p Hp. apply elem_of_omap_kept in Hp as [Hin Hterm].
    apply attempt_outcomes_elem in Hin as [s0 Hr].
    destruct (generate_one_path self (make_root_node self) s0)
      as [r s1] eqn:Hgen.
    simpl in Hr. subst r.
    destruct (generate_one_path_shape_aux
                self (make_root_node self) s0 s1 p Hgen)
      as (Hhead & Hlen & _).
    done.
Qed.

End MoreSolverProperties.

(** ** The runner *)

Section MoreRunnerProperties.
Context `{Externals}.
Local Open Scope py_scope.

(** X9.  Without the key ["n"] in the model parameters [run_one_task]
    raises [KeyError] before it builds the solver: nothing is printed,
    written or asked of the model, and the cost profile is not
    printed. *)
Theorem run_one_task_missing_n
    (config : MCTSConfig) (task : Task) (s : state) :
  mcts_model_kwargs config !! "n" = None →
  run_one_task config task s = (Raise Py.KeyError, s).
Proof. intros Hn. unfold run_one_task, bind at 1. by rewrite Hn. Qed.

(** With the key present [run_one_task] returns normally, and the cost
    profile is the last line that it prints; if the solver raised, the
    files are as before and the task is reported as given up. *)
Lemma run_one_task_returns
    (config : MCTSConfig) (task : Task) (n : Py.value) (s : state) :
  mcts_model_kwargs config !! "n" = Some n →
  ∃ s',
    run_one_task config task s = (Ret tt, s')
    ∧ list.last (stdout s') = Some LogCostProfile
    ∧ stdout s `prefix_of` stdout s'
    ∧ ∀ e, py_range n = inl e →
           files s' = files s
           ∧ world s' = world s
           ∧ LogTaskError (question_id task) e ∈ stdout s'
           ∧ LogGivenUp (question_id task) ∈ stdout s'.
Proof.
  intros Hn. unfold run_one_task, bind at 1. rewrite Hn. simpl.
  unfold bind at 1, try_except.
  match goal with
  | |- context [solve ?self s] =>
      pose proof (solve_spec self s) as Hspec; simpl in Hspec;
      destruct (py_range n) as [e|idxs]
  end.
  - rewrite Hspec. simpl. eexists. split; [reflexivity|]. simpl.
    split; [apply last_snoc|]. split.
    + rewrite <- !(assoc_L (++)). by apply prefix_app_r.
    + intros e' [= <-]. split; [done|]. split; [done|].
      rewrite <- !(assoc_L (++)). split.
      * apply elem_of_app. right. apply elem_of_cons. right.
        apply elem_of_cons. by left.
      * apply elem_of_app. right. do 3 (apply elem_of_cons; right).
        apply elem_of_cons. by left.
  - destruct Hspec as (s0 & Hs0 & _ & Hp & _). rewrite Hs0. simpl.
    eexists. split; [reflexivity|]. simpl.
    split; [apply last_snoc|]. split; [|done].
    etrans; [exact Hp|]. by apply prefix_app_r.
Qed.

(** X10.  A failure of the solver does not leave [run_one_task]: with
    the key ["n"] present it returns normally and prints the cost
    profile last; when the solver raises, no file is written, the model
    is not called, and the task is reported as given up. *)
Theorem run_one_task_contains_failures
    (config : MCTSConfig) (task : Task) (n : Py.value) (s : state) :
  mcts_model_kwargs config !! "n" = Some n →
  ∃ s',
    run_one_task config task s = (Ret tt, s')
    ∧ list.last (stdout s') = Some LogCostProfile
    ∧ stdout s `prefix_of` stdout s'
    ∧ ∀ e, py_range n = inl e →
           files s' = files s
           ∧ world s' = world s
           ∧ LogTaskError (question_id task) e ∈ stdout s'
           ∧ LogGivenUp (question_id task) ∈ stdout s'.
Proof. apply run_one_task_returns. Qed.

Lemma map_run_one_task_returns
    (config : MCTSConfig) (tasks : list Task) (n : Py.value) (s : state) :
  mcts_model_kwargs config !! "n" = Some n →
  ∃ s', map_run_one_task config tasks s = (Ret tt, s').
Proof.
  intros Hn. revert s. induction tasks as [|task rest IH]; intros s; simpl.
  - by exists s.
  - destruct (run_one_task_returns config task n s Hn) as (s1 & Hone & _).
    unfold bind at 1. rewrite Hone. apply IH.
Qed.

Lemma process_pool_built (max_workers : Z) :
  0 < max_workers → process_pool max_workers = inr tt.
Proof.
  intros Hpos. unfold process_pool.
  by destruct (Z.leb_spec max_workers 0); [lia|].
Qed.

Lemma process_pool_refused (max_workers : Z) :
  max_workers ≤ 0 → process_pool max_workers = inl Py.ValueError.
Proof.
  intros Hle. unfold process_pool.
  by destruct (Z.leb_spec max_workers 0); [|lia].
Qed.

Lemma run_tasks_returns
    (config : MCTSConfig) (tasks : list Task) (n : Py.value) (s : state) :
  0 < n_processes config →
  mcts_model_kwargs config !! "n" = Some n →
  ∃ s', run_tasks config tasks s = (Ret tt, s').
Proof.
  intros Hpos Hn. unfold run_tasks, bind, lift.
  rewrite (process_pool_built _ Hpos).
  by eapply map_run_one_task_returns.
Qed.

Lemma collect_done_task_ids_fails (names : list string) (name : string) :
  name ∈ names → py_int (stem name) = None →
  collect_done_task_ids names = inl Py.ValueError.
Proof.
  induction names as [|n rest IH]; [by intros Hin%elem_of_nil|].
  intros [->|Hin]%elem_of_cons Hnone; simpl.
  - by rewrite Hnone.
  - destruct (py_int (stem n)); [|done]. by rewrite IH.
Qed.

(** X11.  A file of the output directory whose name ends in [.pkl] and
    whose stem is not an integer makes [run_all_tasks] raise
    [ValueError] before any task is solved: no file is written, not even
    [config.json], and the model is not called. *)
Theorem run_all_tasks_foreign_artifact
    (config : MCTSConfig) (tasks : list Task) (subset_ids : list Z)
    (s : state) (name : string) :
  is_Some (files s !! (save_root_dir config, name)) →
  ends_with ".pkl" name = true →
  py_int (stem name) = None →
  ∃ s1,
    run_all_tasks config tasks subset_ids s = (Raise Py.ValueError, s1)
    ∧ files s1 = files s
    ∧ world s1 = world s.
Proof.
  intros Hfile Hpkl Hnone.
  assert (Hc :
    collect_done_task_ids (glob_pkl (save_root_dir config) (files s))
    = inl Py.ValueError).
  { eapply collect_done_task_ids_fails; [|exact Hnone].
    by apply glob_pkl_elem. }
  unfold run_all_tasks.
  destruct (nonempty (subset_file_path config)) as [p|];
    unfold bind, print, write_file, lift, ret, raise; simpl;
    rewrite Hc; simpl; eauto.
Qed.

(** X12.  [run_all_tasks] writes nothing outside the output directory,
    whatever its outcome. *)
Theorem run_all_tasks_stays_in_directory
    (config : MCTSConfig) (tasks : list Task) (subset_ids : list Z)
    (s s' : state) (r : outcome unit) (directory name : string) :
  run_all_tasks config tasks subset_ids s = (r, s') →
  directory ≠ save_root_dir config →
  files s' !! (directory, name) = files s !! (directory, name).
Proof.
  intros Hrun Hdir.
  pose proof (run_all_tasks_spec config tasks subset_ids s) as Hspec.
  destruct (collect_done_task_ids _) as [e|ids].
  - destruct Hspec as (s1 & Hraise & Hfiles). rewrite Hraise in Hrun.
    simplify_eq. by rewrite Hfiles.
  - destruct Hspec as (s1 & Hsplit & Hfiles). rewrite Hsplit in Hrun.
    erewrite run_tasks_frame; [|exact Hrun|].
    + rewrite Hfiles. apply lookup_insert_ne. congruence.
    + intros t _. congruence.
Qed.

(** X13.  When every [*.pkl] file of the output directory has an
    integer stem, [run_all_tasks] leaves the configuration in
    [config.json] of the output directory, whatever the solver calls
    do. *)
Theorem run_all_tasks_saves_config
    (config : MCTSConfig) (tasks : list Task) (subset_ids : list Z)
    (s s' : state) (r : outcome unit) (done_task_ids : list Z) :
  collect_done_task_ids (glob_pkl (save_root_dir config) (files s))
  = inr done_task_ids →
  run_all_tasks config tasks subset_ids s = (r, s') →
  files s' !! (save_root_dir config, "config.json")
  = Some (ConfigJson config).
Proof.
  intros Hc Hrun.
  pose proof (run_all_tasks_spec config tasks subset_ids s) as Hspec.
  rewrite Hc in Hspec. destruct Hspec as (s1 & Hsplit & Hfiles).
  rewrite Hsplit in Hrun.
  erewrite run_tasks_frame; [|exact Hrun|].
  - rewrite Hfiles. apply lookup_insert_eq.
  - intros t _ [= Heq]. symmetry in Heq.
    by eapply artifact_name_not_config.
Qed.

(** X14.  The batch does not abort: when every [*.pkl] file of the
    output directory has an integer stem, the number of worker processes
    is positive and the model parameters hold the key ["n"],
    [run_all_tasks] returns normally, whatever the solver calls do. *)
Theorem run_all_tasks_returns
    (config : MCTSConfig) (tasks : list Task) (subset_ids : list Z)
    (s : state) (done_task_ids : list Z) (n : Py.value) :
  collect_done_task_ids (glob_pkl (save_root_dir config) (files s))
  = inr done_task_ids →
  0 < n_processes config →
  mcts_model_kwargs config !! "n" = Some n →
  ∃ s', run_all_tasks config tasks subset_ids s = (Ret tt, s').
Proof.
  intros Hc Hpos Hn.
  pose proof (run_all_tasks_spec config tasks subset_ids s) as Hspec.
  rewrite Hc in Hspec. destruct Hspec as (s1 & Hsplit & _).
  rewrite Hsplit. by eapply run_tasks_returns.
Qed.

(** X23.  A number of worker processes that is not positive makes
    [run_all_tasks] raise [ValueError] when it builds the pool, after
    it has saved the configuration and before any task is solved: of the
    files only [config.json] has changed, and the model has not been
    called. *)
Theorem run_all_tasks_refused_pool
    (config : MCTSConfig) (tasks : list Task) (subset_ids : list Z)
    (s : state) (done_task_ids : list Z) :
  collect_done_task_ids (glob_pkl (save_root_dir config) (files s))
  = inr done_task_ids →
  n_processes config ≤ 0 →
  ∃ s',
    run_all_tasks config tasks subset_ids s = (Raise Py.ValueError, s')
    ∧ files s'
      = <[(save_root_dir config, "config.json") := ConfigJson config]>
          (files s)
    ∧ world s' = world s.
Proof.
  intros Hc Hle. unfold run_all_tasks, run_tasks.
  destruct (nonempty (subset_file_path config)) as [p|];
    unfold bind, print, write_file, lift, ret, raise; simpl;
    rewrite Hc; simpl; rewrite (process_pool_refused _ Hle);
    by eexists.
Qed.

(** X15.  With a subset file configured, a task whose identifier is not
    listed in it is not solved: the artifact named after its identifier
    is as before when [run_all_tasks] ends. *)
Theorem run_all_tasks_respects_subset {int_of_str : IntOfStr}
    (config : MCTSConfig) (tasks : list Task) (subset_ids : list Z)
    (s s' : state) (r : outcome unit) (p : string) (question_id : Z) :
  nonempty (subset_file_path config) = Some p →
  question_id ∉ subset_ids →
  run_all_tasks config tasks subset_ids s = (r, s') →
  files s' !! (save_root_dir config, artifact_name question_id)
  = files s !! (save_root_dir config, artifact_name question_id).
Proof.
  intros Hsubset Hnot Hrun.
  pose proof (run_all_tasks_spec config tasks subset_ids s) as Hspec.
  destruct (collect_done_task_ids _) as [e|ids].
  - destruct Hspec as (s1 & Hraise & Hfiles). rewrite Hraise in Hrun.
    simplify_eq. by rewrite Hfiles.
  - destruct Hspec as (s1 & Hsplit & Hfiles). rewrite Hsplit in Hrun.
    erewrite run_tasks_frame; [|exact Hrun|].
    + rewrite Hfiles. apply lookup_insert_ne.
      intros [= Heq]. symmetry in Heq. by eapply artifact_name_not_config.
    + intros t Ht [= Heq]. apply artifact_name_inj in Heq. subst question_id.
      apply pending_tasks_elem in Ht as [Ht _].
      unfold subset_tasks in Ht. rewrite Hsubset in Ht.
      apply list_elem_of_In, filter_In in Ht as [_ Ht].
      by apply bool_decide_eq_true in Ht.
Qed.

End MoreRunnerProperties.

(** ** The selector of the final SQL *)

Lemma Q2Qc_inject_Z (n : Z) : Q2Qc (inject_Z n) = Qc_of_Z n.
Proof. apply Qc_is_canon. simpl. apply Qred_correct. Qed.

Lemma Qcdiv_le_iff (a b t : Z) :
  0 < t →
  (Qc_of_Z a / Qc_of_Z t ≤ Qc_of_Z b / Qc_of_Z t)%Qc ↔ a ≤ b.
Proof.
  intros Ht. unfold Qcdiv.
  rewrite <- Qcmult_le_mono_pos_r, <- Z2Qc_inj_le; [done|].
  apply Qcinv_pos. rewrite <- Z2Qc_inj_0. by apply (proj1 (Z2Qc_inj_lt 0 t)).
Qed.

Lemma Qcdiv_same (t : Z) : t ≠ 0 → (Qc_of_Z t / Qc_of_Z t)%Qc = 1%Qc.
Proof.
  intros Ht. unfold Qcdiv. apply Qcmult_inv_r.
  rewrite <- Z2Qc_inj_0. by intros ?%Z2Qc_inj.
Qed.

Section MoreSelectionProperties.
Context `{Externals}.
Local Open Scope exn_scope.

Lemma group_size_le_total (d : groups) (g : gset row * list nat) :
  g ∈ d → Z.of_nat (length g.2) ≤ total_size d.
Proof.
  induction d as [|g' d IH]; [by intros Hin%elem_of_nil|].
  rewrite total_size_cons. pose proof (total_size_nonneg d).
  intros [->|Hin]%elem_of_cons; [lia|]. apply IH in Hin. lia.
Qed.

(** The groups that the grouping loop builds, from empty groups. *)
Lemma group_results_groups_wf
    (db_path : string) (results : list (list MCTSNode))
    (both : groups * groups) :
  group_results db_path 0 results ([], []) = inr both →
  groups_wf (length results) both.1
  ∧ groups_wf (length results) both.2
  ∧ Forall (λ p, is_Some (list.last p)) results.
Proof.
  intros Hg. apply group_results_wf in Hg; [done|apply groups_wf_nil..].
Qed.

(** X16.  The two partitions.  Every path index of a primary group is
    in the fallback group of the same row set; no path index is in two
    groups of a partition; the indices of the groups are indices of
    paths; and every path whose query succeeded is in the fallback group
    of its row set. *)
Theorem group_results_partitions
    (db_path : string) (results : list (list MCTSNode))
    (primary fallback : groups) :
  group_results db_path 0 results ([], []) = inr (primary, fallback) →
  (∀ k i, in_group primary k i → in_group fallback k i)
  ∧ (∀ k k' i, in_group fallback k i → in_group fallback k' i → k = k')
  ∧ (∀ k i, in_group fallback k i → (i < length results)%nat)
  ∧ (∀ i p a, results !! i = Some p → answer_of db_path p = Some a →
              succeeded a = true →
              in_group fallback (list_to_set (result a)) i).
Proof.
  intros Hg.
  assert (Hmem : ∀ k i,
    (in_group primary k i ↔ member db_path true k 0 results i)
    ∧ (in_group fallback k i ↔ member db_path false k 0 results i)).
  { intros k i.
    destruct (group_results_in_group _ _ _ _ _ k i Hg) as [H1 H2].
    simpl in H1, H2. rewrite H1, H2. unfold in_group.
    split; (split; [intros [(l & Hin & _)|Hm];
                      [by apply elem_of_nil in Hin|done]
                   |by right]). }
  split; [|split; [|split]].
  - intros k i Hin. apply Hmem. apply Hmem in Hin.
    destruct Hin as (p & Hle & Hp & a & Ha & Hs & _ & Hk).
    exists p. split; [done|]. split; [done|]. exists a. done.
  - intros k k' i Hin Hin'. apply Hmem in Hin, Hin'.
    destruct Hin as (p & _ & Hp & a & Ha & _ & _ & Hk).
    destruct Hin' as (p' & _ & Hp' & a' & Ha' & _ & _ & Hk').
    by simplify_eq.
  - intros k i Hin. apply Hmem in Hin. destruct Hin as (p & _ & Hp & _).
    apply lookup_lt_Some in Hp. lia.
  - intros i p a Hp Ha Hs. apply Hmem. exists p. split; [lia|].
    rewrite Nat.sub_0_r. split; [done|]. by exists a.
Qed.

Lemma group_results_empty_path
    (db_path : string) (idx : nat) (results : list (list MCTSNode))
    (acc : groups * groups) :
  [] ∈ results → group_results db_path idx results acc = inl Py.IndexError.
Proof.
  revert idx acc. induction results as [|p rest IH]; intros idx acc;
    [by intros Hin%elem_of_nil|].
  intros Hin. simpl. rewrite final_sql_of_last.
  destruct (list.last p) as [n|] eqn:Hlast; simpl; [|done].
  apply IH. apply elem_of_cons in Hin as [<-|Hin]; [done|exact Hin].
Qed.

(** X17.  An empty path among the persisted ones makes the selector
    raise [IndexError], whatever the other paths are. *)
Theorem select_rejects_empty_path
    (results_file_path db_root_dir : string) (question_id : Z)
    (results : list (list MCTSNode)) :
  question_id_of results_file_path = inr question_id →
  pickle_load results_file_path = Some results →
  [] ∈ results →
  select_final_sql_query results_file_path db_root_dir
  = inl Py.IndexError.
Proof.
  intros Hid Hload Hin. unfold select_final_sql_query.
  rewrite Hid, Hload. destruct results as [|first_path rest];
    [by apply elem_of_nil in Hin|].
  cbn -[group_results select_from_groups sqlite_path].
  destruct first_path as [|first_node nodes]; [done|].
  cbn -[group_results select_from_groups sqlite_path].
  by rewrite group_results_empty_path.
Qed.

(** X18.  The consistency scores of a non-empty partition follow the
    sizes of its groups: there is one score per group, every score is
    above 0 and at most 1, and the score of a group is at most the score
    of another group exactly when it has at most as many paths.  (A
    score is the quotient of two lengths; the bounds and the order are
    what the rounding of the quotient to a float keeps.) *)
Theorem consistency_scores_follow_sizes
    (db_path : string) (results : list (list MCTSNode))
    (both : groups * groups) (d : groups) :
  group_results db_path 0 results ([], []) = inr both →
  d = both.1 ∨ d = both.2 →
  d ≠ [] →
  ∃ entries,
    score_groups db_path results d d = inr entries
    ∧ length entries = length d
    ∧ Forall (λ e : scored, (0 < e.1.2)%Qc ∧ (e.1.2 ≤ 1)%Qc) entries
    ∧ ∀ (i j : nat) (g g' : gset row * list nat) (e e' : scored),
        d !! i = Some g → d !! j = Some g' →
        entries !! i = Some e → entries !! j = Some e' →
        (e.1.2 ≤ e'.1.2)%Qc ↔ (length g.2 ≤ length g'.2)%nat.
Proof.
  intros Hg Hd Hne.
  destruct (group_results_groups_wf _ _ _ Hg) as (Hwf1 & Hwf2 & Hlast).
  assert (Hwf : groups_wf (length results) d) by (by destruct Hd as [->| ->]).
  pose proof (total_size_pos _ _ Hne Hwf) as Hpos.
  destruct (score_groups_spec db_path results d d) as (entries & Hsc & Hent);
    [lia|done|apply Hwf|].
  exists entries. split; [done|].
  split; [symmetry; by eapply Forall2_length|]. split.
  - apply list.Forall_forall. intros e He.
    apply list_elem_of_lookup in He as [j Hj].
    destruct (Forall2_lookup_r _ _ _ _ _ Hent Hj)
      as (g & Hg' & Hhead & _ & Hscore & _).
    apply list_elem_of_lookup_2 in Hg'.
    rewrite Hscore, !Q2Qc_inject_Z.
    rewrite <- (Qcdiv_same (total_size d)) by lia. split.
    + apply Qclt_nge. rewrite <- (Z2Qc_inj_0).
      replace (Qc_of_Z 0) with (Qc_of_Z 0 / Qc_of_Z (total_size d))%Qc
        by (unfold Qcdiv; rewrite Z2Qc_inj_0; ring).
      rewrite Qcdiv_le_iff by done.
      destruct g.2; [done|]. simpl. lia.
    + apply Qcdiv_le_iff; [done|]. by apply group_size_le_total.
  - intros i j g g' e e' Hi Hj Hei Hej.
    destruct (Forall2_lookup_l _ _ _ _ _ Hent Hi)
      as (e0 & He0 & _ & _ & Hscore & _).
    destruct (Forall2_lookup_l _ _ _ _ _ Hent Hj)
      as (e1 & He1 & _ & _ & Hscore' & _).
    rewrite Hei in He0. rewrite Hej in He1.
    injection He0 as <-. injection He1 as <-.
    rewrite Hscore, Hscore', !Q2Qc_inject_Z, Qcdiv_le_iff by done. lia.
Qed.

(** The top of a ranking stands for a group that is as large as every
    other group, and whose representative is a path that counts for the
    group. *)
Lemma selects_top_group
    (db_path : string) (results : list (list MCTSNode)) (d : groups)
    (sql : option string) :
  0 < total_size d →
  selects db_path results d sql →
  ∃ (k : gset row) (l : list nat) (i : nat)
    (p : list MCTSNode) (n : MCTSNode),
    (k, l) ∈ d ∧ head l = Some i
    ∧ results !! i = Some p ∧ list.last p = Some n
    ∧ sql = final_sql_query n
    ∧ ∀ g, g ∈ d → (length g.2 ≤ length l)%nat.
Proof.
  intros Hpos (entries & top & rest & before & after
               & Hent & Hperm & Hsorted & Hsplit & _ & p & n & Hp & Hn & Hsql).
  assert (Htop : top ∈ entries).
  { rewrite <- Hperm. apply elem_of_cons. by left. }
  assert (Hbest : ∀ e, e ∈ entries → (e.1.2 ≤ top.1.2)%Qc).
  { intros e He. rewrite <- Hperm in He.
    apply StronglySorted_inv in Hsorted as [_ Hall].
    apply elem_of_cons in He as [->|He]; [apply Qcle_refl|].
    rewrite List.Forall_forall in Hall.
    apply list_elem_of_In, Hall in He.
    destruct He as [Hlt|[Heq _]]; [by apply Qclt_le_weak|].
    rewrite Heq. apply Qcle_refl. }
  apply list_elem_of_lookup in Htop as [j Hj].
  destruct (Forall2_lookup_r _ _ _ _ _ Hent Hj)
    as ([k l] & Hg & Hhead & _ & Hscore & _).
  simpl in Hhead, Hscore.
  exists k, l, top.1.1, p, n.
  split; [by eapply list_elem_of_lookup_2|].
  split; [done|]. split; [done|]. split; [done|]. split; [done|].
  intros g Hin. apply list_elem_of_lookup in Hin as [j' Hj'].
  destruct (Forall2_lookup_l _ _ _ _ _ Hent Hj')
    as (e & He & _ & _ & Hscore' & _).
  apply list_elem_of_lookup_2, Hbest in He.
  rewrite Hscore, Hscore', !Q2Qc_inject_Z in He.
  apply Qcdiv_le_iff in He; [lia|done].
Qed.

(** X19.  Majority vote.  Over a non-empty primary partition the
    selector returns the final SQL of the first-seen path of a primary
    group that is as large as every other primary group; the query of
    that path succeeded with a valid result. *)
Theorem select_majority
    (results_file_path db_root_dir : string) (question_id : Z)
    (results : list (list MCTSNode))
    (first_path : list MCTSNode) (first_node : MCTSNode)
    (primary fallback : groups) :
  question_id_of results_file_path = inr question_id →
  pickle_load results_file_path = Some results →
  results !! 0%nat = Some first_path →
  first_path !! 0%nat = Some first_node →
  let db_path := sqlite_path db_root_dir (db_id first_node) in
  group_results db_path 0 results ([], []) = inr (primary, fallback) →
  primary ≠ [] →
  ∃ (k : gset row) (l : list nat) (i : nat)
    (p : list MCTSNode) (n : MCTSNode) (a : SQLExecutionResult row),
    (k, l) ∈ primary ∧ head l = Some i
    ∧ (∀ g, g ∈ primary → (length g.2 ≤ length l)%nat)
    ∧ results !! i = Some p ∧ list.last p = Some n
    ∧ answer_of db_path p = Some a
    ∧ succeeded a = true ∧ is_valid_execution_result a = true
    ∧ list_to_set (result a) = k
    ∧ select_final_sql_query results_file_path db_root_dir
      = inr {| item_question_id := question_id;
               item_db_id := db_id first_node;
               item_sql := final_sql_query n |}.
Proof.
  intros Hid Hload Hfirst Hnode db_path Hgroups Hne.
  rewrite (select_final_sql_query_spec _ _ _ _ _ _ _ _
             Hid Hload Hfirst Hnode Hgroups). fold db_path.
  destruct (group_results_groups_wf _ _ _ Hgroups) as (Hwf1 & _ & Hlast).
  simpl in Hwf1.
  destruct (select_from_groups_spec db_path results primary)
    as (sql & Hsel & Hsql); [done..|].
  pose proof (total_size_pos _ _ Hne Hwf1) as Hpos.
  destruct (selects_top_group _ _ _ _ Hpos Hsql)
    as (k & l & i & p & n & Hin & Hhead & Hp & Hn & -> & Hmax).
  assert (Hmember : in_group primary k i).
  { exists l. split; [done|]. destruct l; [done|]. simpl in Hhead.
    simplify_eq. apply elem_of_cons. by left. }
  destruct (group_results_in_group _ _ _ _ _ k i Hgroups) as [H1 _].
  simpl in H1. apply H1 in Hmember as [(l0 & Hnil & _)|Hmember];
    [by apply elem_of_nil in Hnil|].
  destruct Hmember as (p' & _ & Hp' & a & Ha & Hs & Hv & Hk).
  rewrite Nat.sub_0_r in Hp'. simplify_eq.
  exists (list_to_set (result a)), l, i, p, n, a.
  repeat (split; [done|]). split; [by apply Hv|]. split; [done|].
  destruct primary; [done|]. by rewrite Hsel.
Qed.

End MoreSelectionProperties.

(** ** The output of the selection run *)

Lemma insert_sorted_perm {A} (x : Z * A) (l : list (Z * A)) :
  insert_sorted x l ≡ₚ x :: l.
Proof.
  induction l as [|y l IH]; simpl; [done|].
  destruct (y.1 <? x.1); [|done]. rewrite IH. apply Permutation_swap.
Qed.

Lemma sorted_by_key_perm {A} (l : list (Z * A)) : sorted_by_key l ≡ₚ l.
Proof.
  induction l as [|x l IH]; simpl; [done|].
  by rewrite insert_sorted_perm, IH.
Qed.

Lemma insert_sorted_sorted {A} (x : Z * A) (l : list (Z * A)) :
  StronglySorted (λ a b, a.1 ≤ b.1) l →
  StronglySorted (λ a b, a.1 ≤ b.1) (insert_sorted x l).
Proof.
  induction 1 as [|y l Hsorted IH Hall]; simpl.
  - by repeat constructor.
  - destruct (Z.ltb_spec y.1 x.1) as [Hlt|Hle].
    + constructor; [done|]. rewrite insert_sorted_perm.
      constructor; [lia|done].
    + constructor; [by constructor|]. constructor; [done|].
      eapply List.Forall_impl; [|exact Hall]. simpl. intros. lia.
Qed.

Lemma sorted_by_key_sorted {A} (l : list (Z * A)) :
  StronglySorted (λ a b, a.1 ≤ b.1) (sorted_by_key l).
Proof.
  induction l as [|x l IH]; simpl; [constructor|].
  by apply insert_sorted_sorted.
Qed.

Lemma sorted_strictly {A} (l : list (Z * A)) :
  StronglySorted (λ a b, a.1 ≤ b.1) l → NoDup l.*1 →
  StronglySorted (λ a b, a.1 < b.1) l.
Proof.
  induction 1 as [|x l Hsorted IH Hall]; [constructor|].
  rewrite fmap_cons. intros [Hx Hnd]%list.NoDup_cons.
  constructor; [by apply IH|].
  rewrite List.Forall_forall in Hall. apply List.Forall_forall.
  intros y Hy. specialize (Hall y Hy). apply list_elem_of_In in Hy.
  assert (x.1 ≠ y.1); [|lia].
  intros Heq. apply Hx. rewrite Heq. by apply list_elem_of_fmap_2.
Qed.

Lemma strictly_sorted_unique {A} (l1 l2 : list (Z * A)) :
  StronglySorted (λ a b, a.1 < b.1) l1 →
  StronglySorted (λ a b, a.1 < b.1) l2 →
  (∀ x, x ∈ l1 ↔ x ∈ l2) →
  l1 = l2.
Proof.
  intros H1. revert l2. induction H1 as [|x1 l1 Hs1 IH Hall1].
  - intros [|x2 l2] _ Heq; [done|].
    exfalso. apply (proj1 (elem_of_nil x2)), Heq. by left.
  - intros [|x2 l2] H2 Heq.
    { exfalso. apply (proj1 (elem_of_nil x1)), Heq. by left. }
    apply StronglySorted_inv in H2 as [Hs2 Hall2].
    rewrite List.Forall_forall in Hall1, Hall2.
    assert (x1 = x2) as <-.
    { assert (x1 ∈ x2 :: l2) as [|Hin1]%elem_of_cons
        by (apply Heq; by left); [done|].
      assert (x2 ∈ x1 :: l1) as [|Hin2]%elem_of_cons
        by (apply Heq; by left); [done|].
      apply list_elem_of_In, Hall2 in Hin1.
      apply list_elem_of_In, Hall1 in Hin2. lia. }
    f_equal. apply IH; [done|]. intros y. split; intros Hy.
    + assert (y ∈ x1 :: l2) as [->|Hin]%elem_of_cons
        by (apply Heq; by right); [|done].
      apply list_elem_of_In, Hall1 in Hy. lia.
    + assert (y ∈ x1 :: l1) as [->|Hin]%elem_of_cons
        by (apply Heq; by right); [|done].
      apply list_elem_of_In, Hall2 in Hy. lia.
Qed.

Lemma seqZ_sorted {A} (f : Z → A) (m n : Z) :
  StronglySorted (λ a b : Z * A, a.1 < b.1) ((λ q, (q, f q)) <$> seqZ m n).
Proof.
  remember (Z.to_nat n) as k eqn:Hk. revert m n Hk.
  induction k as [|k IH]; intros m n Hk.
  - unfold seqZ. rewrite <- Hk. simpl. constructor.
  - rewrite seqZ_cons by lia. rewrite fmap_cons.
    constructor; [apply IH; lia|].
    apply List.Forall_forall. intros y Hy.
    apply list_elem_of_In, list_elem_of_fmap in Hy as (q & -> & Hq).
    apply elem_of_seqZ in Hq. simpl. lia.
Qed.

Lemma foldr_min_spec (x : Z) (l : list Z) :
  foldr Z.min x l ∈ x :: l ∧ ∀ y, y ∈ x :: l → foldr Z.min x l ≤ y.
Proof.
  induction l as [|z l [IHin IHle]]; simpl.
  - split; [by left|]. intros y ->%list_elem_of_singleton. lia.
  - split.
    + destruct (Z.min_spec z (foldr Z.min x l)) as [[_ ->]|[_ ->]].
      * right. by left.
      * apply elem_of_cons in IHin as [->|Hin]; [by left|].
        right. by right.
    + intros y Hy. assert (foldr Z.min x l ≤ y ∨ y = z) as [Hle| ->]; [|lia..].
      apply elem_of_cons in Hy as [->|[->|Hy]%elem_of_cons].
      * left. apply IHle. by left.
      * by right.
      * left. apply IHle. by right.
Qed.

Lemma foldr_max_spec (x : Z) (l : list Z) :
  foldr Z.max x l ∈ x :: l ∧ ∀ y, y ∈ x :: l → y ≤ foldr Z.max x l.
Proof.
  induction l as [|z l [IHin IHle]]; simpl.
  - split; [by left|]. intros y ->%list_elem_of_singleton. lia.
  - split.
    + destruct (Z.max_spec z (foldr Z.max x l)) as [[_ ->]|[_ ->]].
      * apply elem_of_cons in IHin as [->|Hin]; [by left|].
        right. by right.
      * right. by left.
    + intros y Hy. assert (y ≤ foldr Z.max x l ∨ y = z) as [Hle| ->]; [|lia..].
      apply elem_of_cons in Hy as [->|[->|Hy]%elem_of_cons].
      * left. apply IHle. by left.
      * by right.
      * left. apply IHle. by right.
Qed.

Lemma elem_of_keys (zd : list (Z * string)) (q : Z) :
  q ∈ zd.*1 ↔ ∃ v, (q, v) ∈ zd.
Proof.
  rewrite list_elem_of_fmap. split.
  - intros ([q' v] & -> & Hin). by exists v.
  - intros (v & Hin). by exists (q, v).
Qed.

Lemma latest_cons (p : Z * string) (pairs : list (Z * string)) (q : Z) :
  latest (p :: pairs) q
  = if decide (p.1 = q) then Some (default p.2 (latest pairs q))
    else latest pairs q.
Proof.
  unfold latest. rewrite filter_cons. destruct (decide (p.1 = q)); [|done].
  rewrite last_cons. by destruct (list.last _).
Qed.

Lemma latest_is_Some (pairs : list (Z * string)) (q : Z) :
  is_Some (latest pairs q) ↔ q ∈ pairs.*1.
Proof.
  induction pairs as [|p pairs IH].
  - split; [by intros [? [=]]|by intros ?%elem_of_nil].
  - rewrite latest_cons, fmap_cons, elem_of_cons, <- IH.
    destruct (decide (p.1 = q)) as [->|Hne].
    + split; [by left|]. by eexists.
    + split; [by right|]. by intros [?|?].
Qed.

Section MainProperties.
Context `{Externals}.
Local Open Scope exn_scope.

Lemma str_inj {int_of_str : IntOfStr} (q q' : Z) : Py.str q = Py.str q' → q = q'.
Proof.
  intros Heq. apply (f_equal py_int) in Heq.
  rewrite !py_int_str in Heq. by injection Heq.
Qed.

Lemma str_eqb {int_of_str : IntOfStr} (q q' : Z) :
  String.eqb (Py.str q) (Py.str q') = bool_decide (q = q').
Proof.
  destruct (decide (q = q')) as [->|Hne].
  - by rewrite String.eqb_refl, bool_decide_eq_true_2.
  - rewrite bool_decide_eq_false_2 by done.
    apply String.eqb_neq. by intros ?%str_inj.
Qed.

Lemma dict_set_str_keyed {int_of_str : IntOfStr} (q : Z) (v : string) (zd : list (Z * string)) :
  NoDup zd.*1 →
  ∃ zd', dict_set (Py.str q) v (str_keyed zd) = str_keyed zd'
    ∧ NoDup zd'.*1
    ∧ ∀ q' v', (q', v') ∈ zd'
               ↔ (q' = q ∧ v' = v) ∨ (q' ≠ q ∧ (q', v') ∈ zd).
Proof.
  induction zd as [|[k w] zd IH]; intros Hnd.
  - exists [(q, v)]. split; [done|]. split; [apply list.NoDup_singleton|].
    intros q' v'. rewrite list_elem_of_singleton.
    split; [intros [= -> ->]; by left|].
    intros [[-> ->]|[_ []%elem_of_nil]]. done.
  - rewrite fmap_cons in Hnd. apply list.NoDup_cons in Hnd as [Hk Hnd].
    simpl in Hk. unfold str_keyed. rewrite fmap_cons. simpl.
    rewrite str_eqb. destruct (decide (k = q)) as [->|Hne].
    + rewrite bool_decide_eq_true_2 by done.
      exists ((q, v) :: zd). split; [done|].
      split; [rewrite fmap_cons; by apply list.NoDup_cons|].
      intros q' v'. rewrite !elem_of_cons. split.
      * intros [[= -> ->]|Hin]; [by left|]. right.
        split; [|by right]. intros ->. apply Hk, elem_of_keys. by exists v'.
      * intros [[-> ->]|[Hne [[= ? ?]|Hin]]]; [by left|done|by right].
    + rewrite bool_decide_eq_false_2 by done.
      destruct (IH Hnd) as (zd' & Heq & Hnd' & Hin').
      fold (str_keyed zd). rewrite Heq.
      exists ((k, w) :: zd'). split; [done|]. split.
      * rewrite fmap_cons. apply list.NoDup_cons. split; [|done].
        simpl. intros (x & Hx)%elem_of_keys.
        apply Hin' in Hx as [[? _]|[_ Hx]]; [done|].
        apply Hk, elem_of_keys. by exists x.
      * intros q' v'. rewrite !elem_of_cons, Hin'. split.
        -- intros [[= -> ->]|[?|[? ?]]]; [right|by left|right];
             (split; [done|]); [by left|by right].
        -- intros [?|[Hq [?|?]]]; [right; by left|by left|].
           right. by right.
Qed.

Lemma dict_has_str_keyed {int_of_str : IntOfStr} (q : Z) (zd : list (Z * string)) :
  dict_has (Py.str q) (str_keyed zd) = bool_decide (q ∈ zd.*1).
Proof.
  induction zd as [|[k w] zd IH]; [done|].
  unfold dict_has, str_keyed in *. rewrite !fmap_cons. simpl.
  rewrite IH, str_eqb.
  destruct (decide (k = q)) as [->|Hne].
  - rewrite (bool_decide_eq_true_2 (q = q)) by done. simpl.
    symmetry. apply bool_decide_eq_true_2. by left.
  - rewrite (bool_decide_eq_false_2 (k = q)) by done. simpl.
    apply bool_decide_ext. rewrite elem_of_cons.
    split; [by right|]. by intros [->|?].
Qed.

Lemma collect_pred_sqls_spec {int_of_str : IntOfStr}
    (db_root_dir : string) (completed : list string)
    (pairs zd : list (Z * string)) :
  Forall2 (selects_line db_root_dir) completed pairs →
  NoDup zd.*1 →
  ∃ zd', collect_pred_sqls db_root_dir completed (str_keyed zd)
         = inr (str_keyed zd')
    ∧ NoDup zd'.*1
    ∧ ∀ q v, (q, v) ∈ zd'
             ↔ latest pairs q = Some v
               ∨ (latest pairs q = None ∧ (q, v) ∈ zd).
Proof.
  intros Hall. revert zd.
  induction Hall as [|path [q0 v0] completed pairs
                      (item & Hsel & Hid & Hline) _ IH]; intros zd Hnd.
  - exists zd. split; [done|]. split; [done|]. intros q v.
    split; [by right|]. by intros [[=]|[_ ?]].
  - simpl in Hid, Hline. simpl. rewrite Hsel. simpl. rewrite Hline. simpl.
    rewrite Hid.
    destruct (dict_set_str_keyed q0 v0 zd Hnd) as (zd1 & -> & Hnd1 & Hin1).
    destruct (IH zd1 Hnd1) as (zd' & -> & Hnd' & Hin').
    exists zd'. split; [done|]. split; [done|].
    intros q v. rewrite Hin', Hin1, latest_cons. simpl.
    destruct (decide (q0 = q)) as [->|Hne];
      destruct (latest pairs q) as [w|]; simpl; intuition congruence.
Qed.

Lemma fill_missing_spec {int_of_str : IntOfStr} (qids : list Z) (zd : list (Z * string)) :
  NoDup zd.*1 →
  ∃ zd', foldl (λ d qid,
                  if dict_has (Py.str qid) d then d
                  else dict_set (Py.str qid) default_line d)
               (str_keyed zd) qids
         = str_keyed zd'
    ∧ NoDup zd'.*1
    ∧ ∀ q v, (q, v) ∈ zd'
             ↔ (q, v) ∈ zd ∨ (q ∈ qids ∧ (q ∉ zd.*1) ∧ v = default_line).
Proof.
  revert zd. induction qids as [|q0 qids IH]; intros zd Hnd.
  - exists zd. split; [done|]. split; [done|]. intros q v.
    split; [by left|]. by intros [?|[?%elem_of_nil _]].
  - simpl. rewrite dict_has_str_keyed.
    destruct (decide (q0 ∈ zd.*1)) as [Hin|Hout].
    + rewrite bool_decide_eq_true_2 by done.
      destruct (IH zd Hnd) as (zd' & -> & Hnd' & Hin').
      exists zd'. split; [done|]. split; [done|].
      intros q v. rewrite Hin', elem_of_cons. intuition congruence.
    + rewrite bool_decide_eq_false_2 by done.
      destruct (dict_set_str_keyed q0 default_line zd Hnd)
        as (zd1 & -> & Hnd1 & Hin1).
      destruct (IH zd1 Hnd1) as (zd' & -> & Hnd' & Hin').
      exists zd'. split; [done|]. split; [done|].
      assert (Hkeys : ∀ q, q ∈ zd1.*1 ↔ q = q0 ∨ q ∈ zd.*1).
      { intros q. rewrite !elem_of_keys. split.
        - intros (v & [[-> _]|[_ Hv]]%Hin1); [by left|right; by exists v].
        - intros [->|(v & Hv)].
          + exists default_line. apply Hin1. by left.
          + exists v. apply Hin1. right. split; [|done].
            intros ->. apply Hout, elem_of_keys. by exists v. }
      intros q v. rewrite Hin', Hin1, Hkeys, elem_of_cons. split.
      * intros [[[-> ->]|[? ?]]|(? & ? & ->)];
          [right|by left|right]; intuition congruence.
      * intros [Hv|([->|?] & ? & ->)].
        -- left. right. split; [|done].
           intros ->. apply Hout, elem_of_keys. by exists v.
        -- left. by left.
        -- destruct (decide (q = q0)) as [->|]; [left; by left|].
           right. intuition congruence.
Qed.

Lemma question_ids_str_keyed {int_of_str : IntOfStr} (zd : list (Z * string)) :
  map_exn py_int_exn (str_keyed zd).*1 = inr zd.*1.
Proof.
  induction zd as [|[k w] zd IH]; [done|].
  unfold str_keyed in *. rewrite !fmap_cons. simpl.
  unfold py_int_exn at 1. rewrite py_int_str. by rewrite IH.
Qed.

Lemma keyed_str_keyed {int_of_str : IntOfStr} (zd : list (Z * string)) :
  map_exn (λ x : string * string, let? key := py_int_exn x.1 in inr (key, x))
          (str_keyed zd)
  = inr ((λ p : Z * string, (p.1, (Py.str p.1, p.2))) <$> zd).
Proof.
  induction zd as [|[k w] zd IH]; [done|].
  unfold str_keyed in *. rewrite !fmap_cons. simpl.
  unfold py_int_exn at 1. rewrite py_int_str. simpl. by rewrite IH.
Qed.

(** X20.  The output of a selection run whose selections all succeed:
    it has one line for every question id from the least to the
    greatest selected id, in increasing order of the id; the line of an
    id is that of the last completed selection with the id, and the
    default line when no selection has the id.  A run over no result
    file gives the empty output. *)
Theorem main_covers_id_range {int_of_str : IntOfStr}
    (completed : list string) (db_root_dir : string)
    (pairs : list (Z * string)) :
  Forall2 (selects_line db_root_dir) completed pairs →
  (pairs = [] → main completed db_root_dir = inr [])
  ∧ ∀ lo hi : Z,
      lo ∈ pairs.*1 → hi ∈ pairs.*1 →
      (∀ q, q ∈ pairs.*1 → lo ≤ q ≤ hi) →
      main completed db_root_dir
      = inr ((λ q, (Py.str q, line_for pairs q)) <$> seqZ lo (hi - lo + 1)).
Proof.
  intros Hall. split.
  { intros ->. by apply Forall2_nil_inv_r in Hall as ->. }
  intros lo hi Hlo Hhi Hrange. unfold main.
  destruct (collect_pred_sqls_spec db_root_dir completed pairs [] Hall)
    as (zd & Hcollect & Hnd & Hin); [constructor|].
  change (str_keyed []) with (@nil (string * string)) in Hcollect.
  rewrite Hcollect. cbn [bind_exn].
  assert (Hzd : ∀ q v, (q, v) ∈ zd ↔ latest pairs q = Some v).
  { intros q v. rewrite Hin. split; [|by left].
    by intros [?|[_ ?%elem_of_nil]]. }
  assert (Hkeys : ∀ q, q ∈ zd.*1 ↔ q ∈ pairs.*1).
  { intros q. rewrite elem_of_keys, <- latest_is_Some.
    unfold is_Some. by setoid_rewrite Hzd. }
  assert (Hne : zd ≠ []).
  { intros ->. apply Hkeys in Hlo. by apply elem_of_nil in Hlo. }
  assert (Hmatch : ∀ (X : Type) (a b : X),
             match str_keyed zd with [] => a | _ :: _ => b end = b).
  { intros X a b. by destruct zd. }
  rewrite Hmatch, question_ids_str_keyed. cbn [bind_exn].
  destruct (zd.*1) as [|k ks] eqn:Hks; [by destruct zd|].
  destruct (foldr_min_spec k ks) as [Hmin_in Hmin].
  destruct (foldr_max_spec k ks) as [Hmax_in Hmax].
  assert (foldr Z.min k ks = lo) as ->.
  { apply Hkeys, Hrange in Hmin_in. apply Hkeys, Hmin in Hlo. lia. }
  assert (foldr Z.max k ks = hi) as ->.
  { apply Hkeys, Hrange in Hmax_in. apply Hkeys, Hmax in Hhi. lia. }
  rewrite <- Hks in Hnd, Hkeys. unfold fill_missing.
  destruct (fill_missing_spec (seqZ lo (hi + 1 - lo)) zd Hnd)
    as (zd' & -> & Hnd' & Hin').
  cbn [bind_exn]. rewrite keyed_str_keyed. cbn [bind_exn]. f_equal.
  replace (hi + 1 - lo) with (hi - lo + 1) in Hin' by lia.
  rewrite (strictly_sorted_unique
             (sorted_by_key ((λ p : Z * string, (p.1, (Py.str p.1, p.2)))
                             <$> zd'))
             ((λ q, (q, (Py.str q, line_for pairs q)))
              <$> seqZ lo (hi - lo + 1))).
  - rewrite <- list_fmap_compose. done.
  - apply sorted_strictly; [apply sorted_by_key_sorted|].
    rewrite sorted_by_key_perm, <- list_fmap_compose. exact Hnd'.
  - apply (seqZ_sorted (λ q, (Py.str q, line_for pairs q))).
  - intros [q [s v]]. rewrite sorted_by_key_perm, !list_elem_of_fmap.
    assert (Hfilled : (q, v) ∈ zd'
                      ↔ lo ≤ q ≤ hi ∧ v = line_for pairs q).
    { rewrite Hin', Hzd, elem_of_seqZ, Hkeys, <- latest_is_Some.
      unfold line_for. destruct (latest pairs q) as [w|] eqn:Hlatest; simpl.
      - assert (lo ≤ q ≤ hi).
        { apply Hrange, latest_is_Some. by rewrite Hlatest. }
        split; [intros [[= ->]|(_ & Hno & _)]; [done|]
               |intros [_ ->]; by left].
        destruct Hno. by eexists.
      - split; [intros [[=]|(? & _ & ->)]; split; [lia|done]|].
        intros [? ->]. right. split; [lia|]. split; [|done].
        by intros [? [=]]. }
    split.
    + intros ([q' v'] & [= -> -> ->] & Hp). simpl in *.
      apply Hfilled in Hp as [? ->].
      exists q'. split; [done|]. apply elem_of_seqZ. lia.
    + intros (q' & [= -> -> ->] & Hq). apply elem_of_seqZ in Hq.
      exists (q', line_for pairs q'). split; [done|]. apply Hfilled.
      split; [lia|done].
Qed.

Lemma collect_pred_sqls_raises
    (db_root_dir : string) (before after : list string) (path : string)
    (e : Py.exn) (d : pred_sqls) :
  Forall (λ p, ∃ pair, selects_line db_root_dir p pair) before →
  (let? selected := select_final_sql_query path db_root_dir in
   pred_line selected) = inl e →
  collect_pred_sqls db_root_dir (before ++ path :: after) d = inl e.
Proof.
  intros Hbefore Hfail. revert d.
  induction Hbefore as [|p before (pair & item & Hsel & _ & Hline) _ IH];
    intros d; simpl.
  - destruct (select_final_sql_query path db_root_dir) as [e'|item];
      cbn [bind_exn] in *; [by injection Hfail as ->|]. by rewrite Hfail.
  - rewrite Hsel. cbn [bind_exn]. rewrite Hline. cbn [bind_exn]. apply IH.
Qed.

(** X21.  A selection run writes no output when a selection fails: the
    first completed selection that raises, or that selected no SQL text
    at all ([None], for which the line cannot be built), makes the run
    raise the same exception, [TypeError] in the second case. *)
Theorem main_propagates_failure
    (db_root_dir : string) (before after : list string) (path : string)
    (e : Py.exn) :
  Forall (λ p, ∃ pair, selects_line db_root_dir p pair) before →
  select_final_sql_query path db_root_dir = inl e
  ∨ (e = Py.TypeError
     ∧ ∃ item, select_final_sql_query path db_root_dir = inr item
               ∧ item_sql item = None) →
  main (before ++ path :: after) db_root_dir = inl e.
Proof.
  intros Hbefore Hfail. unfold main.
  rewrite (collect_pred_sqls_raises _ _ _ _ e); [done|done|].
  destruct Hfail as [->|(-> & item & -> & Hnone)]; [done|].
  simpl. unfold pred_line. by rewrite Hnone.
Qed.

End MainProperties.

(** * The properties on the small instance *)

Import Toy.
Import Cases.

(** The stand-in for [int] reads back what [str] prints. *)
Lemma toy_int_of_str : IntOfStr.
Proof.
  intros z. unfold py_int. simpl. unfold parse_int, Py.str.
  rewrite NilZero.isi.
  - simpl. by rewrite DecimalZ.of_to.
  - destruct z; simpl; try done.
    intros [= Hnil]. by apply DecimalPos.Unsigned.to_uint_nonnil in Hnil.
  - destruct z; simpl; try done.
    intros [= Hnil]. by apply DecimalPos.Unsigned.to_uint_nonnil in Hnil.
Qed.

(** The stand-in for the End action carries the final SQL forward. *)
Lemma toy_end_action_carries_sql : end_action_carries_sql.
Proof.
  intros n kw w w' children c [= <- <-] Hin.
  apply list_elem_of_singleton in Hin. by subst c.
Qed.






(** The model answers with the index 9 for two legal actions: the
    selector returns End, the choice of the heuristic. *)
Lemma select_action_falls_back_witness :
  [SQLRevisionAction; EndAction] ≠ []
  ∧ no_usable_choice llm_kwargs generated [SQLRevisionAction; EndAction]
                     (world (after 2))
  ∧ (select_action llm_kwargs generated [SQLRevisionAction; EndAction]
                   (after 2)).1
    = Ret EndAction.
Proof.
  assert (Hcase :
    no_usable_choice llm_kwargs generated [SQLRevisionAction; EndAction]
                     (world (after 2))).
  { eapply index_out_of_range with (block := "9") (k := 9);
      [reflexivity..|]. simpl. lia. }
  split; [done|]. split; [exact Hcase|].
  exact (proj1 (proj2 (select_action_falls_back
                         llm_kwargs generated [SQLRevisionAction; EndAction]
                         (after 2))) Hcase).
Defined.

(** With two steps allowed and two steps made the loop stops at once. *)
Lemma generation_loop_terminates_witness :
  self_max_steps (solver 2) ≤ step stopped
  ∧ run_generation_loop (solver 2) stopped (after 5)
    = (Ret stopped, after 5).
Proof.
  assert (Hstep : self_max_steps (solver 2) ≤ step stopped)
    by (by vm_compute).
  split; [exact Hstep|].
  apply (generation_loop_terminates (solver 2) stopped (after 5)).
  right. left. exact Hstep.
Defined.

(** With two steps allowed the loop stops on the generated node; the
    closure appends an End node that carries [SELECT 1]. *)
Lemma forced_closure_witness :
  end_action_carries_sql
  ∧ run_generation_loop (solver 2) start (initial ∅)
    = (Ret stopped, stopped_state)
  ∧ generate_one_path (solver 2) root (initial ∅)
    = (Ret (path stopped ++ [child EndAction (current stopped)]),
       set_world stopped_state 5%nat)
  ∧ is_terminal (child EndAction (current stopped)) = true
  ∧ path_final_sql (path stopped ++ [child EndAction (current stopped)])
    = path_final_sql (path stopped).
Proof.
  assert (Hloop :
    run_generation_loop (solver 2) start (initial ∅)
    = (Ret stopped, stopped_state)) by (vm_compute; reflexivity).
  split; [exact toy_end_action_carries_sql|]. split; [exact Hloop|].
  destruct (forced_closure (solver 2) root (initial ∅) stopped_state stopped
              toy_end_action_carries_sql Hloop) as (_ & Hclose & _).
  apply (Hclose ltac:(vm_compute; reflexivity)
                ltac:(vm_compute; apply elem_of_cons; by left)
                [child EndAction (current stopped)] 5%nat).
  vm_compute. reflexivity.
Defined.

(** A batch of two attempts. *)
Lemma solve_keeps_terminal_paths_witness :
  self_num_paths (solver 5) = Py.PInt 2
  ∧ length (attempt_outcomes (solver 5) (make_root_node (solver 5))
                             (Z.of_nat <$> seq 0 (Z.to_nat 2)) []
                             (initial ∅))
    = Z.to_nat 2.
Proof.
  split; [reflexivity|].
  exact (proj1 (solve_keeps_terminal_paths (solver 5) 2 (initial ∅) eq_refl)).
Defined.

(** The artifact of task 7 exists: a run over task 7 leaves it as it
    is. *)
Lemma done_tasks_are_skipped_witness :
  files (initial {[("results", artifact_name 7) := Pickle []]})
  !! (save_root_dir config, artifact_name (question_id task))
  = Some (Pickle [])
  ∧ files (run_all_tasks config [task] []
             (initial {[("results", artifact_name 7) := Pickle []]})).2
    !! (save_root_dir config, artifact_name (question_id task))
    = Some (Pickle []).
Proof.
  assert (Hfile :
    files (initial {[("results", artifact_name 7) := Pickle []]})
    !! (save_root_dir config, artifact_name (question_id task))
    = Some (Pickle [])) by (vm_compute; reflexivity).
  split; [exact Hfile|].
  apply (proj2 (done_tasks_are_skipped (int_of_str := toy_int_of_str)
                  config [task] [] task (Pickle [])
                  (initial {[("results", artifact_name 7) := Pickle []]})
                  Hfile)
               (run_all_tasks config [task] []
                  (initial {[("results", artifact_name 7) := Pickle []]})).1).
  by destruct (run_all_tasks _ _ _ _).
Defined.

(** Solving task 7 returns normally and leaves its artifact. *)
Lemma solve_always_persists_witness :
  solve (solver 5) (initial ∅)
  = (Ret (), (solve (solver 5) (initial ∅)).2)
  ∧ ∃ path_indices,
      py_range (self_num_paths (solver 5)) = inr path_indices
      ∧ files (solve (solver 5) (initial ∅)).2
        !! (self_save_root_dir (solver 5),
            artifact_name (question_id (self_task (solver 5))))
        = Some (Pickle (omap kept
                          (attempt_outcomes (solver 5)
                             (make_root_node (solver 5)) path_indices []
                             (initial ∅)))).
Proof.
  assert (Hsolve :
    solve (solver 5) (initial ∅)
    = (Ret (), (solve (solver 5) (initial ∅)).2))
    by (vm_compute; reflexivity).
  split; [exact Hsolve|].
  destruct (solve_always_persists (int_of_str := toy_int_of_str)
              (solver 5) (initial ∅) _ Hsolve)
    as (path_indices & Hrange & Hfile & _).
  exists path_indices. split; [exact Hrange|exact Hfile].
Defined.

(** Task 7: the row sets are {2}, {1}, {1}; the primary partition has
    two groups. *)
Lemma select_over_primary_witness :
  question_id_of "results/7.pkl" = inr 7
  ∧ pickle_load "results/7.pkl" = Some (results 7)
  ∧ results 7 !! 0%nat = Some (finished "SELECT 2")
  ∧ group_results db_path 0 (results 7) ([], [])
    = inr ((partitions 7).1, (partitions 7).2)
  ∧ (partitions 7).1 ≠ []
  ∧ ∃ sql,
      select_final_sql_query "results/7.pkl" "data"
      = inr {| item_question_id := 7;
               item_db_id := "california_schools";
               item_sql := sql |}
      ∧ selects db_path (results 7) (partitions 7).1 sql.
Proof.
  assert (Hid : question_id_of "results/7.pkl" = inr 7)
    by (vm_compute; reflexivity).
  assert (Hload : pickle_load "results/7.pkl" = Some (results 7))
    by (vm_compute; reflexivity).
  assert (Hfirst : results 7 !! 0%nat = Some (finished "SELECT 2"))
    by (vm_compute; reflexivity).
  assert (Hgroups :
    group_results db_path 0 (results 7) ([], [])
    = inr ((partitions 7).1, (partitions 7).2))
    by (vm_compute; reflexivity).
  assert (Hne : (partitions 7).1 ≠ []) by (by vm_compute).
  repeat (split; [assumption|]).
  exact (select_over_primary "results/7.pkl" "data" 7 (results 7)
           (finished "SELECT 2")
           {| data := node ROOT 0 None None;
              path_nodes := [node ROOT 0 None None] |}
           (partitions 7).1 (partitions 7).2
           Hid Hload Hfirst eq_refl Hgroups Hne).
Defined.

(** Task 8: no query succeeds. *)
Lemma select_error_marker_witness :
  question_id_of "results/8.pkl" = inr 8
  ∧ select_final_sql_query "results/8.pkl" "data"
    = inr {| item_question_id := 8;
             item_db_id := "california_schools";
             item_sql := Some "ERROR" |}.
Proof.
  assert (Hid : question_id_of "results/8.pkl" = inr 8)
    by (vm_compute; reflexivity).
  assert (Hload : pickle_load "results/8.pkl" = Some (results 8))
    by (vm_compute; reflexivity).
  assert (Hfirst : results 8 !! 0%nat = Some (finished "SELECT x"))
    by (vm_compute; reflexivity).
  assert (Hgroups :
    group_results db_path 0 (results 8) ([], []) = inr ([], []))
    by (vm_compute; reflexivity).
  split; [exact Hid|].
  exact (proj2 (select_error_marker "results/8.pkl" "data" 8 Hid)
           (results 8) (finished "SELECT x")
           {| data := node ROOT 0 None None;
              path_nodes := [node ROOT 0 None None] |}
           Hload Hfirst eq_refl Hgroups).
Defined.

(** C4 as the claim states it fails: for the paths of task 8 no query
    succeeds, both partitions are empty, and the selector returns the
    marker with the database identifier of the paths, not the default
    one. *)
Lemma select_error_marker_counterexample :
  ¬ (partitions 8 = ([], []) →
     ∃ question_id,
       select_final_sql_query "results/8.pkl" "data"
       = inr {| item_question_id := question_id;
                item_db_id := "financial";
                item_sql := Some "ERROR" |}).
Proof.
  intros Hclaim. destruct Hclaim as [question_id Heq].
  - vm_compute. reflexivity.
  - vm_compute in Heq. discriminate Heq.
Qed.

(** Task 9: one query fails and one succeeds with no rows; only the
    fallback partition has a group. *)
Lemma select_over_fallback_witness :
  question_id_of "results/9.pkl" = inr 9
  ∧ pickle_load "results/9.pkl" = Some (results 9)
  ∧ results 9 !! 0%nat = Some (finished "SELECT x")
  ∧ group_results db_path 0 (results 9) ([], [])
    = inr ((partitions 9).1, (partitions 9).2)
  ∧ (partitions 9).1 = []
  ∧ (partitions 9).2 ≠ []
  ∧ ∃ sql,
      select_final_sql_query "results/9.pkl" "data"
      = inr {| item_question_id := 9;
               item_db_id := "california_schools";
               item_sql := sql |}
      ∧ selects db_path (results 9) (partitions 9).2 sql.
Proof.
  assert (Hid : question_id_of "results/9.pkl" = inr 9)
    by (vm_compute; reflexivity).
  assert (Hload : pickle_load "results/9.pkl" = Some (results 9))
    by (vm_compute; reflexivity).
  assert (Hfirst : results 9 !! 0%nat = Some (finished "SELECT x"))
    by (vm_compute; reflexivity).
  assert (Hgroups :
    group_results db_path 0 (results 9) ([], [])
    = inr ((partitions 9).1, (partitions 9).2))
    by (vm_compute; reflexivity).
  assert (Hempty : (partitions 9).1 = []) by (vm_compute; reflexivity).
  assert (Hne : (partitions 9).2 ≠ []) by (by vm_compute).
  repeat (split; [assumption|]).
  exact (proj2 (proj2
           (select_over_fallback "results/9.pkl" "data" 9 (results 9)
              (finished "SELECT x")
              {| data := node ROOT 0 None None;
                 path_nodes := [node ROOT 0 None None] |}
              (partitions 9).1 (partitions 9).2
              Hid Hload Hfirst eq_refl Hgroups))
           Hempty Hne).
Defined.

(** ** The further properties on the small instance *)

(** After three external calls the model answers with the index 1: the
    selector returns the first legal action of the root. *)
Lemma select_action_honours_choice_witness :
  Py.truthy (kwargs_get llm_kwargs "model" Py.PNone) = true
  ∧ 1 ≤ 1 ≤ Z.of_nat (length (legal root))
  ∧ (select_action llm_kwargs root (legal root) (after 3)).1
    = Ret RaphraseQuestionAction.
Proof.
  assert (Hmodel : Py.truthy (kwargs_get llm_kwargs "model" Py.PNone) = true)
    by (vm_compute; reflexivity).
  assert (Hk : 1 ≤ 1 ≤ Z.of_nat (length (legal root)))
    by (vm_compute; split; discriminate).
  split; [exact Hmodel|]. split; [exact Hk|].
  destruct (select_action_honours_choice
              llm_kwargs root (legal root) (after 3)
              (json_fence +:+ "1" +:+ "```") [] 4%nat "1"
              [("selected_action_number", Py.PInt 1);
               ("reasoning", Py.PStr "it is the next step")] 1
              Hmodel ltac:(vm_compute; reflexivity)
              ltac:(vm_compute; reflexivity) ltac:(vm_compute; reflexivity)
              ltac:(vm_compute; reflexivity) Hk)
    as (a & Ha & Hsel).
  rewrite Hsel. vm_compute in Ha. by injection Ha as <-.
Defined.

(** The heuristic on the legal actions of the root. *)
Lemma default_action_selection_member_witness :
  legal root ≠ []
  ∧ ∃ a, _default_action_selection root (legal root) = inr a
         ∧ a ∈ legal root.
Proof.
  assert (Hne : legal root ≠ []) by (by vm_compute).
  split; [exact Hne|].
  exact (proj1 (default_action_selection_member root (legal root)) Hne).
Defined.

(** A call of the selector on the root. *)
Lemma select_action_frame_witness :
  select_action llm_kwargs root (legal root) (after 3)
  = ((select_action llm_kwargs root (legal root) (after 3)).1,
     (select_action llm_kwargs root (legal root) (after 3)).2)
  ∧ files (select_action llm_kwargs root (legal root) (after 3)).2
    = files (after 3).
Proof.
  assert (Hrun :
    select_action llm_kwargs root (legal root) (after 3)
    = ((select_action llm_kwargs root (legal root) (after 3)).1,
       (select_action llm_kwargs root (legal root) (after 3)).2))
    by (vm_compute; reflexivity).
  split; [exact Hrun|].
  exact (proj1 (select_action_frame llm_kwargs root (legal root) (after 3)
                  _ _ Hrun)).
Defined.

(** Without model parameters the selector takes the heuristic. *)
Lemma select_action_without_model_witness :
  Py.truthy (kwargs_get (∅ : gmap string Py.value) "model" Py.PNone) = false
  ∧ select_action ∅ root (legal root) (after 0)
    = lift (_default_action_selection root (legal root))
           (add_output (after 0) (LogSelectionError Py.ValueError)).
Proof.
  assert (Hmodel :
    Py.truthy (kwargs_get (∅ : gmap string Py.value) "model" Py.PNone)
    = false) by (vm_compute; reflexivity).
  split; [exact Hmodel|].
  exact (select_action_without_model ∅ root (legal root) (after 0) Hmodel).
Defined.

(** The path that the generator returns with two steps allowed. *)
Lemma generate_one_path_shape_witness :
  generate_one_path (solver 2) root (initial ∅)
  = (Ret (path stopped ++ [child EndAction (current stopped)]),
     set_world stopped_state 5%nat)
  ∧ head (path stopped ++ [child EndAction (current stopped)]) = Some root
  ∧ Z.of_nat (length (path stopped ++ [child EndAction (current stopped)]))
    ≤ Z.max 0 (self_max_steps (solver 2)) + 2.
Proof.
  assert (Hrun :
    generate_one_path (solver 2) root (initial ∅)
    = (Ret (path stopped ++ [child EndAction (current stopped)]),
       set_world stopped_state 5%nat)) by (vm_compute; reflexivity).
  split; [exact Hrun|].
  destruct (generate_one_path_shape (solver 2) root (initial ∅) _ _ Hrun)
    as (Hhead & Hlength & _).
  split; [exact Hhead|exact Hlength].
Defined.

(** A number of paths given as text. *)
Lemma solve_rejects_non_integer_witness :
  (∀ z, self_num_paths (solver_with (Py.PStr "2")) ≠ Py.PInt z)
  ∧ solve (solver_with (Py.PStr "2")) (initial ∅)
    = (Raise Py.TypeError, initial ∅).
Proof.
  assert (Hint : ∀ z, self_num_paths (solver_with (Py.PStr "2")) ≠ Py.PInt z)
    by (intros z; discriminate).
  split; [exact Hint|].
  apply (solve_rejects_non_integer (solver_with (Py.PStr "2")) (initial ∅)
           Hint).
  intros b. discriminate.
Defined.

(** No path asked for. *)
Lemma solve_without_attempts_witness :
  self_num_paths (solver_with (Py.PInt 0)) = Py.PInt 0
  ∧ ∃ s', solve (solver_with (Py.PInt 0)) (initial ∅) = (Ret tt, s')
          ∧ world s' = world (initial ∅).
Proof.
  split; [reflexivity|].
  destruct (solve_without_attempts (solver_with (Py.PInt 0)) 0 (initial ∅)
              eq_refl ltac:(lia))
    as (s' & Hsolve & Hworld & _).
  exists s'. split; [exact Hsolve|exact Hworld].
Defined.

(** What solving task 7 persists. *)
Lemma solve_persists_complete_paths_witness :
  solve (solver 5) (initial ∅)
  = (Ret (), (solve (solver 5) (initial ∅)).2)
  ∧ ∃ paths,
      files (solve (solver 5) (initial ∅)).2
      !! (self_save_root_dir (solver 5),
          artifact_name (question_id (self_task (solver 5))))
      = Some (Pickle paths)
      ∧ ∀ p, p ∈ paths → path_is_terminal p = true.
Proof.
  assert (Hsolve :
    solve (solver 5) (initial ∅)
    = (Ret (), (solve (solver 5) (initial ∅)).2))
    by (vm_compute; reflexivity).
  split; [exact Hsolve|].
  destruct (solve_persists_complete_paths (solver 5) (initial ∅) _ Hsolve)
    as (paths & path_indices & Hfile & _ & _ & Hpaths).
  exists paths. split; [exact Hfile|].
  intros p Hp. exact (proj1 (proj2 (Hpaths p Hp))).
Defined.

(** Model parameters without the number of paths. *)
Lemma run_one_task_missing_n_witness :
  mcts_model_kwargs (config_with None ∅) !! "n" = None
  ∧ run_one_task (config_with None ∅) task (initial ∅)
    = (Raise Py.KeyError, initial ∅).
Proof.
  assert (Hn : mcts_model_kwargs (config_with None ∅) !! "n" = None)
    by (vm_compute; reflexivity).
  split; [exact Hn|].
  exact (run_one_task_missing_n (config_with None ∅) task (initial ∅) Hn).
Defined.

(** A run of task 7. *)
Lemma run_one_task_contains_failures_witness :
  mcts_model_kwargs config !! "n" = Some (Py.PInt 2)
  ∧ ∃ s', run_one_task config task (initial ∅) = (Ret tt, s')
          ∧ list.last (stdout s') = Some LogCostProfile.
Proof.
  assert (Hn : mcts_model_kwargs config !! "n" = Some (Py.PInt 2))
    by (vm_compute; reflexivity).
  split; [exact Hn|].
  destruct (run_one_task_contains_failures config task (Py.PInt 2)
              (initial ∅) Hn)
    as (s' & Hrun & Hlast & _).
  exists s'. split; [exact Hrun|exact Hlast].
Defined.

(** The output directory holds [notes.pkl]. *)
Lemma run_all_tasks_foreign_artifact_witness :
  py_int (stem "notes.pkl") = None
  ∧ ∃ s1,
      run_all_tasks config [task] [] (initial foreign)
      = (Raise Py.ValueError, s1)
      ∧ files s1 = files (initial foreign).
Proof.
  assert (Hstem : py_int (stem "notes.pkl") = None)
    by (vm_compute; reflexivity).
  split; [exact Hstem|].
  destruct (run_all_tasks_foreign_artifact config [task] [] (initial foreign)
              "notes.pkl"
              ltac:(exists (OtherFile "notes"); vm_compute; reflexivity)
              ltac:(vm_compute; reflexivity) Hstem)
    as (s1 & Hrun & Hfiles & _).
  exists s1. split; [exact Hrun|exact Hfiles].
Defined.

(** A run over task 7 leaves another directory alone. *)
Lemma run_all_tasks_stays_in_directory_witness :
  "elsewhere" ≠ save_root_dir config
  ∧ files (run_all_tasks config [task] [] (initial ∅)).2
    !! ("elsewhere", "7.pkl")
    = files (initial ∅) !! ("elsewhere", "7.pkl").
Proof.
  assert (Hdir : "elsewhere" ≠ save_root_dir config) by discriminate.
  assert (Hrun :
    run_all_tasks config [task] [] (initial ∅)
    = ((run_all_tasks config [task] [] (initial ∅)).1,
       (run_all_tasks config [task] [] (initial ∅)).2))
    by (vm_compute; reflexivity).
  split; [exact Hdir|].
  exact (run_all_tasks_stays_in_directory config [task] [] (initial ∅)
           _ _ "elsewhere" "7.pkl" Hrun Hdir).
Defined.

(** A run over task 7 in an empty output directory. *)
Lemma run_all_tasks_saves_config_witness :
  collect_done_task_ids (glob_pkl (save_root_dir config) (files (initial ∅)))
  = inr []
  ∧ files (run_all_tasks config [task] [] (initial ∅)).2
    !! (save_root_dir config, "config.json")
    = Some (ConfigJson config).
Proof.
  assert (Hdone :
    collect_done_task_ids
      (glob_pkl (save_root_dir config) (files (initial ∅)))
    = inr []) by (vm_compute; reflexivity).
  assert (Hrun :
    run_all_tasks config [task] [] (initial ∅)
    = ((run_all_tasks config [task] [] (initial ∅)).1,
       (run_all_tasks config [task] [] (initial ∅)).2))
    by (vm_compute; reflexivity).
  split; [exact Hdone|].
  exact (run_all_tasks_saves_config config [task] [] (initial ∅)
           _ _ [] Hdone Hrun).
Defined.

(** The same run returns normally. *)
Lemma run_all_tasks_returns_witness :
  0 < n_processes config
  ∧ mcts_model_kwargs config !! "n" = Some (Py.PInt 2)
  ∧ ∃ s', run_all_tasks config [task] [] (initial ∅) = (Ret tt, s').
Proof.
  assert (Hpos : 0 < n_processes config) by (simpl; lia).
  assert (Hn : mcts_model_kwargs config !! "n" = Some (Py.PInt 2))
    by (vm_compute; reflexivity).
  assert (Hdone :
    collect_done_task_ids
      (glob_pkl (save_root_dir config) (files (initial ∅)))
    = inr []) by (vm_compute; reflexivity).
  split; [exact Hpos|]. split; [exact Hn|].
  exact (run_all_tasks_returns config [task] [] (initial ∅) [] (Py.PInt 2)
           Hdone Hpos Hn).
Defined.

(** A configuration without worker processes. *)
Lemma run_all_tasks_refused_pool_witness :
  n_processes config_without_workers ≤ 0
  ∧ ∃ s',
      run_all_tasks config_without_workers [task] [] (initial ∅)
      = (Raise Py.ValueError, s')
      ∧ files s'
        = <[("results", "config.json") := ConfigJson config_without_workers]>
            (files (initial ∅)).
Proof.
  assert (Hle : n_processes config_without_workers ≤ 0) by (simpl; lia).
  assert (Hdone :
    collect_done_task_ids
      (glob_pkl (save_root_dir config_without_workers) (files (initial ∅)))
    = inr []) by (vm_compute; reflexivity).
  split; [exact Hle|].
  destruct (run_all_tasks_refused_pool config_without_workers [task] []
              (initial ∅) [] Hdone Hle)
    as (s' & Hrun & Hfiles & _).
  exists s'. split; [exact Hrun|exact Hfiles].
Defined.

(** The subset file lists task 8 only: task 7 is not solved. *)
Lemma run_all_tasks_respects_subset_witness :
  nonempty (subset_file_path (config_with (Some "subset.json") llm_kwargs))
  = Some "subset.json"
  ∧ (7 ∉ [8])
  ∧ files (run_all_tasks (config_with (Some "subset.json") llm_kwargs)
             [task] [8] (initial ∅)).2
    !! ("results", artifact_name 7)
    = None.
Proof.
  assert (Hsubset :
    nonempty (subset_file_path (config_with (Some "subset.json") llm_kwargs))
    = Some "subset.json") by (vm_compute; reflexivity).
  assert (Hout : 7 ∉ [8]).
  { intros Hin. apply list_elem_of_singleton in Hin. discriminate Hin. }
  assert (Hrun :
    run_all_tasks (config_with (Some "subset.json") llm_kwargs)
      [task] [8] (initial ∅)
    = ((run_all_tasks (config_with (Some "subset.json") llm_kwargs)
          [task] [8] (initial ∅)).1,
       (run_all_tasks (config_with (Some "subset.json") llm_kwargs)
          [task] [8] (initial ∅)).2))
    by (vm_compute; reflexivity).
  split; [exact Hsubset|]. split; [exact Hout|].
  exact (run_all_tasks_respects_subset (int_of_str := toy_int_of_str)
           (config_with (Some "subset.json") llm_kwargs) [task] [8]
           (initial ∅) _ _ "subset.json" 7 Hsubset Hout Hrun).
Defined.

(** The partitions of the paths of task 7. *)
Lemma group_results_partitions_witness :
  group_results db_path 0 (results 7) ([], [])
  = inr ((partitions 7).1, (partitions 7).2)
  ∧ ∀ k i, in_group (partitions 7).1 k i → in_group (partitions 7).2 k i.
Proof.
  assert (Hgroups :
    group_results db_path 0 (results 7) ([], [])
    = inr ((partitions 7).1, (partitions 7).2))
    by (vm_compute; reflexivity).
  split; [exact Hgroups|].
  exact (proj1 (group_results_partitions db_path (results 7)
                  (partitions 7).1 (partitions 7).2 Hgroups)).
Defined.

(** The second path of task 11 is empty. *)
Lemma select_rejects_empty_path_witness :
  @pickle_load externals_with_empty_path "results/11.pkl"
  = Some [finished "SELECT 1"; []]
  ∧ @select_final_sql_query externals_with_empty_path
      "results/11.pkl" "data"
    = inl Py.IndexError.
Proof.
  assert (Hload :
    @pickle_load externals_with_empty_path "results/11.pkl"
    = Some [finished "SELECT 1"; []]) by (vm_compute; reflexivity).
  split; [exact Hload|].
  apply (@select_rejects_empty_path externals_with_empty_path
           "results/11.pkl" "data" 11 [finished "SELECT 1"; []]);
    [vm_compute; reflexivity|exact Hload|].
  apply elem_of_cons. right. apply elem_of_cons. by left.
Defined.

(** The scores of the primary partition of task 7. *)
Lemma consistency_scores_follow_sizes_witness :
  (partitions 7).1 ≠ []
  ∧ ∃ entries,
      score_groups db_path (results 7) (partitions 7).1 (partitions 7).1
      = inr entries
      ∧ Forall (λ e : scored, (0 < e.1.2)%Qc ∧ (e.1.2 ≤ 1)%Qc) entries.
Proof.
  assert (Hne : (partitions 7).1 ≠ []) by (by vm_compute).
  split; [exact Hne|].
  destruct (consistency_scores_follow_sizes db_path (results 7)
              (partitions 7) (partitions 7).1
              ltac:(vm_compute; reflexivity) (or_introl eq_refl) Hne)
    as (entries & Hscores & _ & Hbounds & _).
  exists entries. split; [exact Hscores|exact Hbounds].
Defined.

(** Task 7: two of the three paths return the row 1. *)
Lemma select_majority_witness :
  (partitions 7).1 ≠ []
  ∧ ∃ (l : list nat) (n : MCTSNode),
      (∀ g, g ∈ (partitions 7).1 → (length g.2 ≤ length l)%nat)
      ∧ select_final_sql_query "results/7.pkl" "data"
        = inr {| item_question_id := 7;
                 item_db_id := "california_schools";
                 item_sql := final_sql_query n |}.
Proof.
  assert (Hne : (partitions 7).1 ≠ []) by (by vm_compute).
  split; [exact Hne|].
  destruct (select_majority "results/7.pkl" "data" 7 (results 7)
              (finished "SELECT 2")
              {| data := node ROOT 0 None None;
                 path_nodes := [node ROOT 0 None None] |}
              (partitions 7).1 (partitions 7).2
              ltac:(vm_compute; reflexivity) ltac:(vm_compute; reflexivity)
              ltac:(vm_compute; reflexivity) eq_refl
              ltac:(vm_compute; reflexivity) Hne)
    as (k & l & i & p & n & a & _ & _ & Hmax & _ & _ & _ & _ & _ & _ & Hsel).
  exists l, n. split; [exact Hmax|exact Hsel].
Defined.

Lemma cases_select_lines : Forall2 (selects_line "data") completed lines.
Proof.
  repeat constructor.
  - eexists. split; [vm_compute; reflexivity|]. split; reflexivity.
  - eexists. split; [vm_compute; reflexivity|]. split; reflexivity.
Defined.

(** The run over the tasks 7 and 9 has a line for 7, 8 and 9. *)
Lemma main_covers_id_range_witness :
  Forall2 (selects_line "data") completed lines
  ∧ main completed "data"
    = inr [ (Py.str 7, line_for lines 7);
            (Py.str 8, default_line);
            (Py.str 9, line_for lines 9) ].
Proof.
  split; [exact cases_select_lines|].
  apply (proj2 (main_covers_id_range (int_of_str := toy_int_of_str)
                  completed "data" lines cases_select_lines) 7 9).
  - apply elem_of_cons. by left.
  - apply elem_of_cons. right. apply elem_of_cons. by left.
  - intros q Hq. change (lines.*1) with [7; 9] in Hq.
    apply elem_of_cons in Hq as [->|Hq]; [lia|].
    apply list_elem_of_singleton in Hq. subst q. lia.
Defined.

(** The name of the second result file holds no question id. *)
Lemma main_propagates_failure_witness :
  select_final_sql_query "results/x.pkl" "data" = inl Py.ValueError
  ∧ main (["results/7.pkl"] ++ "results/x.pkl" :: []) "data"
    = inl Py.ValueError.
Proof.
  assert (Hfail :
    select_final_sql_query "results/x.pkl" "data" = inl Py.ValueError)
    by (vm_compute; reflexivity).
  split; [exact Hfail|].
  apply (main_propagates_failure "data" ["results/7.pkl"] []
           "results/x.pkl" Py.ValueError); [|by left].
  constructor; [|constructor].
  exists (7, "SELECT 1" +:+ bird_separator +:+ "california_schools").
  eexists. split; [vm_compute; reflexivity|]. split; reflexivity.
Defined.
